(** * repro-get: fetch orchestrator, hash generation and distro drivers

    A shallow embedding of
      - pkg/downloader/downloader.go      (module [downloader])
      - cmd/repro-get/hash_generate.go    (module [hash_generate])
      - pkg/distro/debian/debian.go       (module [debian])
      - pkg/distro/alpine/alpine.go       (module [alpine])
      - pkg/distro/none/none.go           (module [none])
    and the properties of the specification checked against it.

    Go strings are byte strings ([string]); Go maps are [gmap]; a Go
    [(T, error)] result is a sum or a pair with [option error], as the
    call site needs; code that calls out to the operating system threads
    an explicit state and records the calls it makes. *)

From Stdlib Require Import ZArith Ascii String.
From stdpp Require Import gmap strings list sorting fin_maps.

Set Default Proof Using "Type".

(** ** Package identities (pkg/dpkgutil, pkg/apkutil) *)

Module dpkgutil.
Record Dpkg := {
  Package : string;
  Version : string;
  Architecture : string;
}.
#[global] Instance Dpkg_eq_dec : EqDecision Dpkg.
Proof. solve_decision. Defined.
End dpkgutil.

Module apkutil.
Record APK := {
  Package : string;
  Version : string;
}.
#[global] Instance APK_eq_dec : EqDecision APK.
Proof. solve_decision. Defined.
End apkutil.

(** ** net/url: the fields of [url.URL] that the code reads *)

Module url.
Record URL := {
  Scheme : string;
  User : option (string * option string);
  Host : string;
  Path : string;
  RawQuery : string;
}.
#[global] Instance URL_eq_dec : EqDecision URL.
Proof. solve_decision. Defined.
End url.

(** ** File specs (pkg/filespec) *)

Module filespec.
(** [Dpkg] and [APK] are pointers in the source; [None] is the nil
    pointer. *)
Record FileSpec := {
  Name : string;
  Basename : string;
  SHA256 : string;
  Dpkg : option dpkgutil.Dpkg;
  APK : option apkutil.APK;
}.
#[global] Instance FileSpec_eq_dec : EqDecision FileSpec.
Proof. solve_decision. Defined.
End filespec.

(** ** Go errors

    An error value remembers how it was built: [errors.New(text)], or
    [fmt.Errorf(format, args...)], whose [%w] argument (if any) is the
    wrapped error. *)

Inductive arg : Type :=
| AString (s : string)
| AStrings (l : list string)
| AInt (n : Z)
| AFileSpec (sp : filespec.FileSpec)
| ARedacted (u : url.URL).   (* u.Redacted() *)

Inductive error : Type :=
| errors_New (text : string)
| fmt_Errorf (format : string) (args : list arg)
| fmt_Errorf_w (format : string) (args : list arg) (wrapped : error).

#[global] Instance arg_eq_dec : EqDecision arg.
Proof. solve_decision. Defined.

#[global] Instance error_eq_dec : EqDecision error.
Proof.
  intros e1. induction e1 as [t1|f1 a1|f1 a1 w1 IH]; intros [t2|f2 a2|f2 a2 w2];
    try (right; discriminate).
  - destruct (decide (t1 = t2)) as [->|]; [left|right]; congruence.
  - destruct (decide (f1 = f2)) as [->|]; [|right; congruence].
    destruct (decide (a1 = a2)) as [->|]; [left|right]; congruence.
  - destruct (decide (f1 = f2)) as [->|]; [|right; congruence].
    destruct (decide (a1 = a2)) as [->|]; [|right; congruence].
    destruct (IH w2) as [->|]; [left|right]; congruence.
Defined.

(** What a Go function call comes to: a normal return, a returned
    error, or a run-time panic (nil dereference, index out of range). *)
Inductive outcome (A : Type) : Type :=
| Ret (a : A)
| Raise (e : error)
| Panic.
Arguments Ret {A} a.
Arguments Raise {A} e.
Arguments Panic {A}.

(** [sort.Strings]: ascending byte-wise lexicographic order. *)
Definition sort_Strings (l : list string) : list string :=
  merge_sort String.le l.

(** The keys a [for k := range m] loop visits.  Go leaves the order
    unspecified; [map_keys] is one such order. *)
Definition map_keys {A} (m : gmap string A) : list string :=
  (map_to_list m).*1.

(** ** The distro driver interface (pkg/distro) *)

Module distro.
Record Info := {
  Name : string;
  DefaultProviders : list string;
  Experimental : bool;
  CacheIsNeededForGeneratingHash : bool;
}.

(** [type HashWriter func(sha256sum, filename string) error], writing
    into a sink of type [S]. *)
Definition HashWriter (S : Type) : Type :=
  string -> string -> S -> option error * S.

(** [HashOpts]; [Cache] is a pointer, [None] is nil. *)
Record HashOpts (C : Type) := {
  FilterByName : list string;
  Cache : option C;
}.
Arguments FilterByName {C} _.
Arguments Cache {C} _.

(** The part of [distro.Distro] that the downloader calls.  [D] is the
    state of a driver object; a method that may change it returns the
    new state. *)
Class Distro (D : Type) := {
  GetInfo : D -> Info;                                      (* d.Info() *)
  IsPackageVersionInstalled :
    D -> filespec.FileSpec -> (bool * option error) * D;
}.

(** [DockerfileOpts]. *)
Record DockerfileOpts := { GenerateHash : bool }.

(** [DockerfileTemplateArgs.WriteToFile(f, tmpl)], writing into a file
    system [F], and [filepath.Join]. *)
Class Templates (A F : Type) := {
  WriteToFile : A -> string -> string -> F -> option error * F;
  filepath_Join : list string -> string;
}.
End distro.

(** The calls [hw(sha256sum, filename)] for a list of entries, in
    order, up to the first one that fails. *)
Fixpoint write_all {S : Type} (hw : distro.HashWriter S)
    (entries : list (string * string)) (s : S) : option error * S :=
  match entries with
  | [] => (None, s)
  | e :: rest =>
      match hw e.1 e.2 s with
      | (Some err, s') => (Some err, s')
      | (None, s') => write_all hw rest s'
      end
  end.

(** ** The content cache (pkg/cache), as the callers see it *)

Module cache.
Class Cache (C : Type) := {
  Cached : C -> string -> bool * option error;
  Ensure : C -> url.URL -> string -> option error * C;
  SHA256ByOriginURL : C -> url.URL -> string + error;
  ImportWithURL : C -> url.URL -> (string + error) * C;
}.

(** [BlobAbsPath]: the path of a cached blob, for the installers; it
    fails when the blob is not in the cache. *)
Class Blobs (C : Type) := BlobAbsPath : C -> string -> string + error.
End cache.

(** The method [sp.URL(provider)] of pkg/filespec: the provider template
    instantiated for a file spec. *)
Class FileSpecURL := FileSpec_URL : filespec.FileSpec -> string -> url.URL + error.

(** ** pkg/downloader/downloader.go *)

Module downloader.

Record Result := {
  PackagesToBeInstalled : list filespec.FileSpec;
}.

Record Opts := {
  Providers : list string;
  SkipInstalled : bool;
}.

(** The calls [Download] makes, in order, each with the value it
    returned.  [i] is the index of the iteration of the loop over the
    file names that makes the call, [j] the index of the provider. *)
Inductive Event : Type :=
| EvIsPackageVersionInstalled (i : nat) (sp : filespec.FileSpec)
    (r : bool * option error)
| EvCached (i : nat) (sha256 : string) (r : bool * option error)
| EvURL (i j : nat) (provider : string) (r : url.URL + error)
| EvEnsure (i j : nat) (u : url.URL) (sha256 : string) (r : option error)
| EvPrintln (i l : nat) (pkg : string) (format : string) (args : list arg)
| EvWarnf (i : nat) (err : error) (format : string) (args : list arg).

Section WithDriverAndCache.
Context {D C : Type} `{!distro.Distro D} `{!cache.Cache C} `{!FileSpecURL}.

Record State := {
  st_d : D;
  st_cache : C;
  st_log : list Event;
}.

Definition M (A : Type) : Type := State -> outcome A * State.

Definition ret {A} (a : A) : M A := fun st => (Ret a, st).
Definition raise {A} (e : error) : M A := fun st => (Raise e, st).
Definition panic {A} : M A := fun st => (Panic, st).
Definition bind {A B} (m : M A) (k : A -> M B) : M B :=
  fun st =>
    match m st with
    | (Ret a, st') => k a st'
    | (Raise e, st') => (Raise e, st')
    | (Panic, st') => (Panic, st')
    end.

(** The state with more calls on record. *)
Definition log_add (st : State) (evs : list Event) : State :=
  {| st_d := st_d st; st_cache := st_cache st;
     st_log := st_log st ++ evs |}.

Definition emit (e : Event) : M unit :=
  fun st => (Ret tt, log_add st [e]).

Definition call_IsPackageVersionInstalled (i : nat) (sp : filespec.FileSpec)
  : M (bool * option error) :=
  fun st =>
    let '(r, d') := distro.IsPackageVersionInstalled (st_d st) sp in
    (Ret r, {| st_d := d'; st_cache := st_cache st;
               st_log := st_log st ++ [EvIsPackageVersionInstalled i sp r] |}).

Definition call_Cached (i : nat) (sha256 : string) : M (bool * option error) :=
  fun st =>
    let r := cache.Cached (st_cache st) sha256 in
    (Ret r, {| st_d := st_d st; st_cache := st_cache st;
               st_log := st_log st ++ [EvCached i sha256 r] |}).

Definition call_URL (i j : nat) (sp : filespec.FileSpec) (provider : string)
  : M (url.URL + error) :=
  fun st =>
    let r := FileSpec_URL sp provider in
    (Ret r, {| st_d := st_d st; st_cache := st_cache st;
               st_log := st_log st ++ [EvURL i j provider r] |}).

Definition call_Ensure (i j : nat) (u : url.URL) (sha256 : string)
  : M (option error) :=
  fun st =>
    let '(r, c') := cache.Ensure (st_cache st) u sha256 in
    (Ret r, {| st_d := st_d st; st_cache := c';
               st_log := st_log st ++ [EvEnsure i j u sha256 r] |}).
End WithDriverAndCache.
Arguments State : clear implicits.
Arguments M : clear implicits.

Declare Scope go_scope.
Delimit Scope go_scope with go.
Notation "x <- m ;; k" := (bind m (fun x => k))
  (at level 100, m at next level, right associativity) : go_scope.
Notation "m ;;; k" := (bind m (fun _ => k))
  (at level 100, right associativity) : go_scope.
Local Open Scope go_scope.

Definition append_spec (res : Result) (sp : filespec.FileSpec) : Result :=
  {| PackagesToBeInstalled := PackagesToBeInstalled res ++ [sp] |}.

Section Download.
Context {D C : Type} `{!distro.Distro D} `{!cache.Cache C} `{!FileSpecURL}.
Variable fileSpecs : gmap string filespec.FileSpec.
Variable opts : Opts.

(** The closure [printPackageStatus] of iteration [i]; [l] is
    [len(fnames)]. *)
Definition printPackageStatus (i l : nat) (sp : filespec.FileSpec)
    (s : string) (ff : list arg) : M D C unit :=
  emit (EvPrintln i l (filespec.Basename sp) s ff).

(** Lines 82-97: [for j, provider := range providers].  [n] is
    [len(providers)] of the whole list, [j] the index of the head of
    [rest]. *)
Fixpoint providers_loop (i l : nat) (sp : filespec.FileSpec)
    (n j : nat) (rest : list string) : M D C unit :=
  match rest with
  | [] => ret tt
  | provider :: rest' =>
      u <- call_URL i j sp provider ;;
      match u with
      | inr _ =>
          raise (fmt_Errorf
                   "failed to determine the URL of %v with the provider %q"
                   [AFileSpec sp; AString provider])
      | inl u =>
          printPackageStatus i l sp "Downloading from %s" [ARedacted u] ;;;
          err <- call_Ensure i j u (filespec.SHA256 sp) ;;
          match err with
          | Some err =>
              if negb (Z.of_nat j =? Z.of_nat n - 1)%Z then
                emit (EvWarnf i err
                        "Failed to download %s (%s), trying the next provider"
                        [AString (filespec.Basename sp); ARedacted u]) ;;;
                providers_loop i l sp n (S j) rest'
              else
                raise (fmt_Errorf_w "failed to download %s (%s): %w"
                         [AString (filespec.Basename sp); ARedacted u] err)
          | None => ret tt
          end
      end
  end.

(** Lines 61-71: whether the spec is skipped as already installed. *)
Definition check_installed (l i : nat) (sp : filespec.FileSpec) : M D C bool :=
  if SkipInstalled opts then
    r <- call_IsPackageVersionInstalled i sp ;;
    let '(packageVersionInstalled, err) := r in
    packageVersionInstalled <-
      match err with
      | Some err =>
          emit (EvWarnf i err "Failed to check whether installed: %qw"
                  [AString (filespec.Basename sp)]) ;;;
          ret false
      | None => ret packageVersionInstalled
      end ;;
    if packageVersionInstalled : bool then
      printPackageStatus i l sp "Already installed" [] ;;;
      ret true
    else ret false
  else ret false.

(** Lines 72-98: take the spec from the cache, or fetch it. *)
Definition cached_or_fetch (providers : list string) (l i : nat)
    (sp : filespec.FileSpec) (res : Result) : M D C Result :=
  r <- call_Cached i (filespec.SHA256 sp) ;;
  let '(cached, err) := r in
  cached <-
    match err with
    | Some err =>
        emit (EvWarnf i err "Failed to check whether %q (%q) is cached"
                [AString (filespec.SHA256 sp);
                 AString (filespec.Basename sp)]) ;;;
        ret false
    | None => ret cached
    end ;;
  if cached : bool then
    printPackageStatus i l sp "Cached" [] ;;;
    ret (append_spec res sp)
  else
    providers_loop i l sp (length providers) 0 providers ;;;
    ret (append_spec res sp).

(** Lines 57-98: the body of [for i, fname := range fnames].  The specs
    in the map are not nil; a file name without a spec would make [sp]
    nil. *)
Definition loop_body (providers : list string) (l i : nat) (fname : string)
    (res : Result) : M D C Result :=
  match fileSpecs !! fname with
  | None => panic
  | Some sp =>
      skip <- check_installed l i sp ;;
      if skip : bool then ret res           (* continue *)
      else cached_or_fetch providers l i sp res
  end.

(** Lines 56-99: the loop over the sorted file names, from index [i]. *)
Fixpoint specs_loop (providers : list string) (l i : nat)
    (fnames : list string) (res : Result) : M D C Result :=
  match fnames with
  | [] => ret res
  | fname :: fnames' =>
      res' <- loop_body providers l i fname res ;;
      specs_loop providers l (S i) fnames' res'
  end.

(** [Download], given the order [range] in which
    [for f := range fileSpecs] yields the keys.  [d] and [cache] are
    pointers; [None] is nil.  The result comes with the driver and
    cache as the call leaves them and the calls made. *)
Definition Download_ranged (range : list string)
    (d : option D) (cache : option C)
  : outcome Result * (option D * option C * list Event) :=
  match d with
  | None => (Raise (errors_New "distro driver needs to be specified"),
             (d, cache, []))
  | Some d0 =>
      match cache with
      | None => (Raise (errors_New "cache needs to be specified"),
                 (d, cache, []))
      | Some c0 =>
          let providers := Providers opts in
          let providers :=
            if (length providers =? 0)%nat
            then distro.DefaultProviders (distro.GetInfo d0)
            else providers in
          if (length providers =? 0)%nat then
            (Raise (errors_New "provider needs to be specified"),
             (d, cache, []))
          else
            let fnames := sort_Strings range in
            let l := length fnames in
            let '(r, st) :=
              specs_loop providers l 0 fnames
                {| PackagesToBeInstalled := [] |}
                {| st_d := d0; st_cache := c0; st_log := [] |} in
            (r, (Some (st_d st), Some (st_cache st), st_log st))
      end
  end.

Definition Download : option D -> option C ->
    outcome Result * (option D * option C * list Event) :=
  Download_ranged (map_keys fileSpecs).
End Download.

(** *** Reading the record of calls *)

Definition event_iteration (e : Event) : nat :=
  match e with
  | EvIsPackageVersionInstalled i _ _ => i
  | EvCached i _ _ => i
  | EvURL i _ _ _ => i
  | EvEnsure i _ _ _ _ => i
  | EvPrintln i _ _ _ _ => i
  | EvWarnf i _ _ _ => i
  end.

(** A call to the cache or to a provider ([sp.URL] prepares a fetch). *)
Definition is_cache_or_network (e : Event) : bool :=
  match e with
  | EvCached _ _ _ | EvURL _ _ _ _ | EvEnsure _ _ _ _ _ => true
  | _ => false
  end.

(** Neither a step of a fetch nor the driver's answer "installed". *)
Definition quiet (e : Event) : bool :=
  match e with
  | EvURL _ _ _ _ | EvEnsure _ _ _ _ _ => false
  | EvIsPackageVersionInstalled _ _ (true, None) => false
  | _ => true
  end.

(** [e] is a call that iteration [i] makes for the file spec [sp]. *)
Definition event_for `{!FileSpecURL} (i : nat) (sp : filespec.FileSpec)
    (e : Event) : Prop :=
  match e with
  | EvIsPackageVersionInstalled i' sp' _ => i' = i /\ sp' = sp
  | EvCached i' sha256 _ => i' = i /\ sha256 = filespec.SHA256 sp
  | EvURL i' _ provider r => i' = i /\ r = FileSpec_URL sp provider
  | EvEnsure i' _ _ sha256 _ => i' = i /\ sha256 = filespec.SHA256 sp
  | EvPrintln i' _ pkg _ _ => i' = i /\ pkg = filespec.Basename sp
  | EvWarnf i' _ _ _ => i' = i
  end.

(** Whether iteration [i] got the answer "installed" from the driver. *)
Definition reported_installed (log : list Event) (i : nat) : bool :=
  existsb (fun e =>
             match e with
             | EvIsPackageVersionInstalled i' _ (true, None) => (i' =? i)%nat
             | _ => false
             end) log.

(** The specs of the file names [fnames], processed from iteration [i]
    on, without those reported as installed. *)
Fixpoint kept_specs (fileSpecs : gmap string filespec.FileSpec)
    (log : list Event) (i : nat) (fnames : list string)
  : list filespec.FileSpec :=
  match fnames with
  | [] => []
  | fname :: fnames' =>
      (if reported_installed log i then []
       else option_list (fileSpecs !! fname))
      ++ kept_specs fileSpecs log (S i) fnames'
  end.

(** The provider list [Download] works with: [opts.Providers], or the
    driver's defaults when that is empty (lines 33-36). *)
Definition effective_providers {D : Type} `{!distro.Distro D}
    (opts : Opts) (d : D) : list string :=
  if (length (Providers opts) =? 0)%nat
  then distro.DefaultProviders (distro.GetInfo d)
  else Providers opts.

Definition url_error (sp : filespec.FileSpec) (provider : string) : error :=
  fmt_Errorf "failed to determine the URL of %v with the provider %q"
    [AFileSpec sp; AString provider].

Definition download_error (sp : filespec.FileSpec) (u : url.URL)
    (err : error) : error :=
  fmt_Errorf_w "failed to download %s (%s): %w"
    [AString (filespec.Basename sp); ARedacted u] err.

Definition already_installed_events (i l : nat) (sp : filespec.FileSpec)
  : list Event :=
  [EvIsPackageVersionInstalled i sp (true, None);
   EvPrintln i l (filespec.Basename sp) "Already installed" []].

(** What the loop over the providers leaves behind, from provider
    index [j] on, [rest] being the providers still to try and [n] the
    length of the whole list. *)
Record fetch_post `{!FileSpecURL} (i : nat) (sp : filespec.FileSpec)
    (n j : nat) (rest : list string)
    (evs : list Event) (r : outcome unit) : Prop := {
  fetch_events : Forall (event_for i sp) evs;
  fetch_no_driver_call : forall i' sp' r',
    EvIsPackageVersionInstalled i' sp' r' ∉ evs;
  fetch_no_panic : r <> Panic;
  fetch_head : forall provider rest', rest = provider :: rest' ->
    EvURL i j provider (FileSpec_URL sp provider) ∈ evs;
  fetch_url_index : forall j' provider r',
    EvURL i j' provider r' ∈ evs -> j <= j' < n;
  fetch_resolved : forall j' provider u,
    EvURL i j' provider (inl u) ∈ evs ->
    exists r', EvEnsure i j' u (filespec.SHA256 sp) r' ∈ evs;
  fetch_failed : forall j' u sha256 err,
    EvEnsure i j' u sha256 (Some err) ∈ evs ->
    j <= j' < n
    /\ (S j' < n ->
         exists provider, rest !! (S j' - j) = Some provider
           /\ EvURL i (S j') provider (FileSpec_URL sp provider) ∈ evs)
    /\ (S j' = n ->
         r = Raise (download_error sp u err)
         /\ exists evs0, evs = evs0 ++ [EvEnsure i j' u sha256 (Some err)]);
  fetch_url_failed : forall j' provider err,
    EvURL i j' provider (inr err) ∈ evs ->
    r = Raise (url_error sp provider)
    /\ (exists evs0, evs = evs0 ++ [EvURL i j' provider (inr err)])
    /\ (forall j'' provider' r', EvURL i j'' provider' r' ∈ evs -> j'' <= j');
  fetch_raise_last : forall e, r = Raise e ->
    exists evs0 ev, evs = evs0 ++ [ev] /\
      ((exists j' provider err, ev = EvURL i j' provider (inr err))
       \/ (exists j' u sha256 err, ev = EvEnsure i j' u sha256 (Some err)));
}.

(** What one iteration of the loop over the file names leaves behind:
    [evs] are the calls it made, [r] how it ended, starting from the
    result list [res]. *)
Record body_post `{!FileSpecURL} (opts : Opts) (providers : list string)
    (l i : nat) (sp : filespec.FileSpec) (res : Result)
    (evs : list Event) (r : outcome Result) : Prop := {
  post_events : Forall (event_for i sp) evs;
  post_no_panic : r <> Panic;
  post_result : forall res', r = Ret res' ->
    (res' = append_spec res sp
     /\ (EvIsPackageVersionInstalled i sp (true, None) ∉ evs))
    \/ (res' = res /\ EvIsPackageVersionInstalled i sp (true, None) ∈ evs);
  post_installed :
    EvIsPackageVersionInstalled i sp (true, None) ∈ evs ->
    SkipInstalled opts = true
    /\ evs = already_installed_events i l sp /\ r = Ret res;
  post_url_index : forall j provider r',
    EvURL i j provider r' ∈ evs -> j < length providers;
  post_resolved : forall j provider u,
    EvURL i j provider (inl u) ∈ evs ->
    exists r', EvEnsure i j u (filespec.SHA256 sp) r' ∈ evs;
  post_fetch_failed : forall j u sha256 err,
    EvEnsure i j u sha256 (Some err) ∈ evs ->
    j < length providers
    /\ (S j < length providers ->
         exists provider, providers !! S j = Some provider
           /\ EvURL i (S j) provider (FileSpec_URL sp provider) ∈ evs)
    /\ (S j = length providers ->
          r = Raise (download_error sp u err)
          /\ exists evs0, evs = evs0 ++ [EvEnsure i j u sha256 (Some err)]);
  post_url_failed : forall j provider err,
    EvURL i j provider (inr err) ∈ evs ->
    r = Raise (url_error sp provider)
    /\ (exists evs0, evs = evs0 ++ [EvURL i j provider (inr err)])
    /\ (forall j' provider' r', EvURL i j' provider' r' ∈ evs -> j' <= j);
  post_raise_last : forall e, r = Raise e ->
    exists evs0 ev, evs = evs0 ++ [ev] /\
      ((exists j provider err, ev = EvURL i j provider (inr err))
       \/ (exists j u sha256 err, ev = EvEnsure i j u sha256 (Some err)));
}.

(** The iterations a run of the loop went through, from index [i]:
    one list of calls per iteration, every iteration but the last one
    ending normally. *)
Inductive run `{!FileSpecURL} (fileSpecs : gmap string filespec.FileSpec)
    (opts : Opts) (providers : list string) (l : nat)
  : nat -> list string -> Result -> list (list Event) -> outcome Result -> Prop :=
| run_done i res : run fileSpecs opts providers l i [] res [] (Ret res)
| run_next i fname fnames sp res res' evs chunks r :
    fileSpecs !! fname = Some sp ->
    body_post opts providers l i sp res evs (Ret res') ->
    run fileSpecs opts providers l (S i) fnames res' chunks r ->
    run fileSpecs opts providers l i (fname :: fnames) res (evs :: chunks) r
| run_abort i fname fnames sp res evs e :
    fileSpecs !! fname = Some sp ->
    body_post opts providers l i sp res evs (Raise e) ->
    run fileSpecs opts providers l i (fname :: fnames) res [evs] (Raise e).


(** *** More on the record of calls *)

Definition is_ensure (e : Event) : bool :=
  match e with EvEnsure _ _ _ _ _ => true | _ => false end.

Definition is_driver_call (e : Event) : bool :=
  match e with EvIsPackageVersionInstalled _ _ _ => true | _ => false end.

(** A step of a fetch: a URL resolved or a download into the cache. *)
Definition is_fetch_step (e : Event) : bool :=
  match e with
  | EvURL _ _ _ _ | EvEnsure _ _ _ _ _ => true
  | _ => false
  end.

(** Neither a call to the driver, nor to the cache, nor a step of a
    fetch: a line printed or a warning. *)
Definition is_message (e : Event) : bool :=
  match e with
  | EvPrintln _ _ _ _ _ | EvWarnf _ _ _ _ => true
  | _ => false
  end.

(** A yes that came without an error. *)
Definition clean_yes (r : bool * option error) : bool :=
  match r with
  | (true, None) => true
  | _ => false
  end.


(** The record shows the blob of [sp] in the cache: found there, or
    fetched into it. *)
Definition cached_or_fetched (log : list Event) (sp : filespec.FileSpec) : Prop :=
  exists i,
    EvCached i (filespec.SHA256 sp) (true, None) ∈ log
    \/ exists j u, EvEnsure i j u (filespec.SHA256 sp) None ∈ log.

(** The calls of the check against the driver in iteration [i]: none,
    or the driver's answer followed by messages. *)
Definition check_calls (opts : Opts) (i : nat) (sp : filespec.FileSpec)
    (drv : list Event) (skip : bool) : Prop :=
  (SkipInstalled opts = false /\ drv = [] /\ skip = false)
  \/ (SkipInstalled opts = true
      /\ exists ri w, drv = EvIsPackageVersionInstalled i sp ri :: w
           /\ Forall (fun e => is_message e = true) w
           /\ skip = clean_yes ri).

(** More of what the loop over the providers leaves behind, from
    provider index [j] on: which providers the calls belong to, and how
    the loop ends. *)
Record fetch_calls `{!FileSpecURL} (i : nat) (sp : filespec.FileSpec)
    (j : nat) (rest : list string)
    (evs : list Event) (r : outcome unit) : Prop := {
  calls_no_check : forall e, e ∈ evs ->
    is_driver_call e = false /\ forall i' sha256 r', e <> EvCached i' sha256 r';
  calls_url : forall i' j' provider r', EvURL i' j' provider r' ∈ evs ->
    j <= j' /\ rest !! (j' - j) = Some provider;
  calls_ensure : forall i' j' u sha256 r', EvEnsure i' j' u sha256 r' ∈ evs ->
    j <= j' /\ exists provider,
      rest !! (j' - j) = Some provider /\ FileSpec_URL sp provider = inl u
      /\ EvURL i j' provider (inl u) ∈ evs;
  calls_earlier_failed : forall i' j' provider r', EvURL i' j' provider r' ∈ evs ->
    forall j'', j <= j'' < j' ->
      exists u err, EvEnsure i j'' u (filespec.SHA256 sp) (Some err) ∈ evs;
  calls_success : forall i' j' u sha256, EvEnsure i' j' u sha256 None ∈ evs ->
    r = Ret tt
    /\ (exists evs0, evs = evs0 ++ [EvEnsure i' j' u sha256 None])
    /\ (forall i'' j'' provider r', EvURL i'' j'' provider r' ∈ evs -> j'' <= j');
  calls_ret : r = Ret tt ->
    rest = [] \/ exists j' u, EvEnsure i j' u (filespec.SHA256 sp) None ∈ evs;
  calls_raise : forall e, r = Raise e ->
    exists evs0,
      (exists j' provider err,
         evs = evs0 ++ [EvURL i j' provider (inr err)] /\ e = url_error sp provider)
      \/ (exists u err,
            evs = evs0 ++ [EvEnsure i (j + length rest - 1) u (filespec.SHA256 sp)
                             (Some err)]
            /\ e = download_error sp u err);
  calls_count : length (filter (fun e => is_ensure e = true) evs) <= length rest;
}.
End downloader.

(** ** Go string helpers used by the drivers *)

Module gostrings.
Fixpoint trim_left (s : string) : string :=
  match s with
  | String c s' => if Ascii.is_space c then trim_left s' else s
  | EmptyString => EmptyString
  end.

(** [strings.TrimSpace], on the ASCII white space of Go's fast path
    (tab, line feed, vertical tab, form feed, carriage return, space). *)
Definition TrimSpace (s : string) : string :=
  String.rev (trim_left (String.rev (trim_left s))).

(** [strings.SplitN(s, sep, n)] for a one-byte separator and [n >= 0]:
    at most [n] pieces, the last one the unsplit rest; [acc] is the
    piece being read. *)
Fixpoint SplitN_from (acc : string) (s : string) (sep : ascii) (n : nat)
    {struct s} : list string :=
  match n with
  | 0 => []
  | 1 => [acc +:+ s]
  | S n' =>
      match s with
      | EmptyString => [acc]
      | String c s' =>
          if decide (c = sep) then acc :: SplitN_from EmptyString s' sep n'
          else SplitN_from (acc +:+ String c EmptyString) s' sep n
      end
  end.

Definition SplitN (s : string) (sep : ascii) (n : nat) : list string :=
  SplitN_from EmptyString s sep n.

(** [strings.Split(s, sep)] for a one-byte separator. *)
Fixpoint Split_from (acc : string) (s : string) (sep : ascii) : list string :=
  match s with
  | EmptyString => [acc]
  | String c s' =>
      if decide (c = sep) then acc :: Split_from EmptyString s' sep
      else Split_from (acc +:+ String c EmptyString) s' sep
  end.
Definition Split (s : string) (sep : ascii) : list string :=
  Split_from EmptyString s sep.

Fixpoint HasPrefix (s prefix : string) : bool :=
  match prefix, s with
  | EmptyString, _ => true
  | String p prefix', String c s' =>
      if decide (c = p) then HasPrefix s' prefix' else false
  | String _ _, EmptyString => false
  end.

Fixpoint Join (elems : list string) (sep : string) : string :=
  match elems with
  | [] => EmptyString
  | [e] => e
  | e :: elems' => e +:+ sep +:+ Join elems' sep
  end.

(** [s[i]]: the byte at index [i], or nothing (a panic) out of range. *)
Definition index (s : string) (i : nat) : option ascii := String.get i s.

(** [strings.Count(s, sep)] for a one-byte separator. *)
Fixpoint Count (s : string) (sep : ascii) : nat :=
  match s with
  | EmptyString => 0
  | String c s' => (if decide (c = sep) then 1 else 0) + Count s' sep
  end.

(** Whether [s] holds ASCII bytes only.  On such strings the white
    space of [unicode.IsSpace], which [strings.TrimSpace] falls back to
    at a byte from 0x80 on, is that of its ASCII fast path. *)
Definition is_ascii (s : string) : bool :=
  forallb (fun c => (N_of_ascii c <? 128)%N) (list_ascii_of_string s).
End gostrings.

(** A Go map read [m[k]]: the zero value when the key is absent. *)
Definition map_index (m : gmap string string) (k : string) : string :=
  default EmptyString (m !! k).

(** What [bufio.Scanner] yields from a reader: the lines, and the error
    [sc.Err()] reports when the scan stops. *)
Record Lines := {
  scanned : list string;
  scan_err : option error;
}.

(** An external command started with [StdoutPipe] and [Start]: either
    step can fail, else there is the output to read. *)
Inductive Started (R : Type) : Type :=
| PipeFailed (err : error)
| StartFailed (err : error)
| Running (stdout : R).
Arguments PipeFailed {R} err.
Arguments StartFailed {R} err.
Arguments Running {R} stdout.

(** ** pault.ag/go/debian: control paragraphs and version numbers *)

Module control.
(** A [control.BinaryParagraph], as far as the code reads it: the
    [Package] field and the raw [Paragraph.Values]. *)
Record BinaryParagraph := {
  Package : string;
  Values : gmap string string;
}.
End control.

Module version.
(** The two functions of the version library that the debian driver
    calls. *)
Class Version (V : Type) := {
  Parse : string -> V + error;
  Compare : V -> V -> Z;
}.

(** *** An instance: dpkg's version order (Debian Policy 5.6.12)

    The order the library implements, used to run the driver on
    examples: [epoch:upstream-revision]; upstream and revision are
    compared by alternating non-digit and digit runs. *)
Record DebVersion := {
  Epoch : N;
  Upstream : string;
  Revision : string;
}.

Definition code (c : ascii) : Z := Z.of_N (N_of_ascii c).
Definition cisdigit (c : ascii) : bool :=
  (48 <=? code c)%Z && (code c <=? 57)%Z.
Definition cisalpha (c : ascii) : bool :=
  ((97 <=? code c)%Z && (code c <=? 122)%Z)
  || ((65 <=? code c)%Z && (code c <=? 90)%Z).

Definition order (c : ascii) : Z :=
  if cisdigit c then 0%Z
  else if cisalpha c then code c
  else if (code c =? 126)%Z then (-1)%Z
  else if (code c =? 0)%Z then 0%Z
  else (code c + 256)%Z.

Definition head_is (p : ascii -> bool) (s : string) : bool :=
  match s with String c _ => p c | EmptyString => false end.
Definition head_order (s : string) : Z :=
  match s with String c _ => order c | EmptyString => 0%Z end.
Definition tail (s : string) : string :=
  match s with String _ s' => s' | EmptyString => EmptyString end.

(** The non-digit run: the first difference in [order], or what is
    left of both strings. *)
Fixpoint cmp_nondigits (fuel : nat) (a b : string) : Z + string * string :=
  match fuel with
  | 0 => inr (a, b)
  | S fuel' =>
      if head_is (fun c => negb (cisdigit c)) a
         || head_is (fun c => negb (cisdigit c)) b
      then
        if (head_order a =? head_order b)%Z
        then cmp_nondigits fuel' (tail a) (tail b)
        else inl (head_order a - head_order b)%Z
      else inr (a, b)
  end.

Fixpoint drop_zeros (s : string) : string :=
  match s with
  | String c s' => if (code c =? 48)%Z then drop_zeros s' else s
  | EmptyString => EmptyString
  end.

(** The digit run, read in step: the first differing digit. *)
Fixpoint cmp_digits (a b : string) (first_diff : Z) : Z * (string * string) :=
  match a, b with
  | String ca a', String cb b' =>
      if cisdigit ca && cisdigit cb then
        cmp_digits a' b'
          (if (first_diff =? 0)%Z then (code ca - code cb)%Z else first_diff)
      else (first_diff, (a, b))
  | _, _ => (first_diff, (a, b))
  end.

Fixpoint verrevcmp_from (fuel : nat) (a b : string) : Z :=
  match fuel with
  | 0 => 0%Z
  | S fuel' =>
      match a, b with
      | EmptyString, EmptyString => 0%Z
      | _, _ =>
          match cmp_nondigits (String.length a + String.length b) a b with
          | inl d => d
          | inr (a1, b1) =>
              let '(first_diff, (a2, b2)) :=
                cmp_digits (drop_zeros a1) (drop_zeros b1) 0 in
              if head_is cisdigit a2 then 1%Z
              else if head_is cisdigit b2 then (-1)%Z
              else if negb (first_diff =? 0)%Z then first_diff
              else verrevcmp_from fuel' a2 b2
          end
      end
  end.

Definition verrevcmp (a b : string) : Z :=
  verrevcmp_from (S (String.length a + String.length b)) a b.

Definition DebVersion_Compare (a b : DebVersion) : Z :=
  if (Epoch b <? Epoch a)%N then 1%Z
  else if (Epoch a <? Epoch b)%N then (-1)%Z
  else
    let rc := verrevcmp (Upstream a) (Upstream b) in
    if negb (rc =? 0)%Z then rc
    else verrevcmp (Revision a) (Revision b).

Fixpoint all_chars (p : ascii -> bool) (s : string) : bool :=
  match s with
  | String c s' => p c && all_chars p s'
  | EmptyString => true
  end.

(** Split at the first occurrence of [sep]. *)
Fixpoint cut (sep : ascii) (s : string) : option (string * string) :=
  match s with
  | EmptyString => None
  | String c s' =>
      if decide (c = sep) then Some (EmptyString, s')
      else match cut sep s' with
           | Some (l, r) => Some (String c l, r)
           | None => None
           end
  end.

(** Split at the last occurrence of [sep]. *)
Definition cut_last (sep : ascii) (s : string) : option (string * string) :=
  match cut sep (String.rev s) with
  | Some (r, l) => Some (String.rev l, String.rev r)
  | None => None
  end.

Fixpoint digits_value (s : string) (acc : N) : N :=
  match s with
  | String c s' => digits_value s' (10 * acc + (N_of_ascii c - 48))%N
  | EmptyString => acc
  end.

Definition parse_epoch (s : string) : N + error :=
  if negb (String.eqb s EmptyString) && all_chars cisdigit s
     && (digits_value s 0 <? 2 ^ 63)%N
  then inl (digits_value s 0)
  else inr (fmt_Errorf "epoch: %v" [AString s]).

Definition upstream_char (c : ascii) : bool :=
  cisdigit c || cisalpha c
  || bool_decide (c ∈ ["."; "-"; "+"; "~"; ":"]%char).
Definition revision_char (c : ascii) : bool :=
  cisdigit c || cisalpha c || bool_decide (c ∈ ["."; "+"; "~"]%char).

Definition DebVersion_Parse (input : string) : DebVersion + error :=
  let trimmed := gostrings.TrimSpace input in
  if String.eqb trimmed EmptyString then
    inr (fmt_Errorf "version string is empty" [])
  else if negb (all_chars (fun c => negb (Ascii.is_space c)) trimmed) then
    inr (fmt_Errorf "version string %q contains spaces" [AString input])
  else
    let with_epoch :=
      match cut ":" trimmed with
      | Some (e, rest) =>
          match parse_epoch e with
          | inl n => inl (n, rest)
          | inr err => inr err
          end
      | None => inl (0%N, trimmed)
      end in
    match with_epoch with
    | inr err => inr err
    | inl (epoch, rest) =>
        if String.eqb rest EmptyString then
          inr (fmt_Errorf "nothing after colon" [])
        else
          let '(upstream, revision) :=
            match cut_last "-" rest with
            | Some (u, r) => (u, r)
            | None => (rest, EmptyString)
            end in
          if negb (head_is cisdigit upstream)
             && negb (String.eqb upstream EmptyString) then
            inr (fmt_Errorf "version number does not start with digit" [])
          else if negb (all_chars upstream_char upstream) then
            inr (fmt_Errorf "invalid character in version number" [])
          else if negb (all_chars revision_char revision) then
            inr (fmt_Errorf "invalid character in revision number" [])
          else
            inl {| Epoch := epoch; Upstream := upstream; Revision := revision |}
    end.

#[global] Instance DebVersion_Version : Version DebVersion := {
  Parse := DebVersion_Parse;
  Compare := DebVersion_Compare;
}.
End version.

(** A message logged through logrus: the error attached with
    [WithError] (if any), the format and its arguments. *)
Definition Warning : Type := option error * string * list arg.

(** ** os/exec, os and securejoin, as the installers call them *)

Module host.
(** The calls that reach the host, each with the value it returned,
    and the lines logged through logrus on the way. *)
Inductive Call : Type :=
| LookPath (file : string) (r : string + error)
| MkdirTemp (dir pattern : string) (r : string + error)
| SecureJoin (root unsafePath : string) (r : string + error)
| Symlink (oldname newname : string) (r : option error)
| Run (name : string) (args : list string) (r : option error)
| RemoveAll (path : string) (r : option error)
| Infof (format : string) (args : list arg)
| Debugf (format : string) (args : list arg).

(** [H] is the state of the host (its file system); a call that may
    change it returns the new state. *)
Class Host (H : Type) := {
  exec_LookPath : H -> string -> string + error;
  os_MkdirTemp : H -> string -> string -> (string + error) * H;
  securejoin_SecureJoin : H -> string -> string -> string + error;
  os_Symlink : H -> string -> string -> option error * H;
  cmd_Run : H -> string -> list string -> option error * H;
  os_RemoveAll : H -> string -> option error * H;
}.

End host.
(** ** pkg/distro/debian/debian.go *)

Module debian.
Definition NameDebian : string := "debian".
Definition Name : string := NameDebian.

(** The host commands the driver shells out to:
    [dpkg-query -f '${Package},${Version},${Architecture}\n' -W], whose
    output is scanned line by line, and [apt-cache show PKGS...], whose
    output [control.Unmarshal] turns into paragraphs or an error. *)
Class System := {
  dpkg_query : Started Lines;
  apt_cache : list string -> Started (list control.BinaryParagraph + error);
}.

Record debian := {
  info : distro.Info;
  installed_cache : option (gmap string dpkgutil.Dpkg);  (* field [installed] *)
}.

Definition New : debian :=
  {| info :=
       {| distro.Name := NameDebian;
          distro.DefaultProviders :=
            ["http://deb.debian.org/debian/{{.Name}}";
             "http://deb.debian.org/debian-security/{{.Name}}";
             "http://debian.notset.fr/snapshot/by-hash/SHA256/{{.SHA256}}"];
          distro.Experimental := false;
          distro.CacheIsNeededForGeneratingHash := false |};
     installed_cache := None |}.


Definition Info (d : debian) : distro.Info := info d.

(** The map key of a package: Package + ":" + Architecture (if
    Architecture is not empty). *)
Definition key (pkg : dpkgutil.Dpkg) : string :=
  if decide (dpkgutil.Architecture pkg = EmptyString)
  then dpkgutil.Package pkg
  else dpkgutil.Package pkg +:+ ":" +:+ dpkgutil.Architecture pkg.

(** [installed(r)], lines 199-222; [eof_err] is [sc.Err()]. *)
Fixpoint installed_loop (lines : list string) (eof_err : option error)
    (pkgs : gmap string dpkgutil.Dpkg)
  : gmap string dpkgutil.Dpkg * option error :=
  match lines with
  | [] => (pkgs, eof_err)
  | line :: lines' =>
      let trimmed := gostrings.TrimSpace line in
      let fields := gostrings.SplitN trimmed "," 3 in
      match fields with
      | [f0; f1; f2] =>
          let pkg := {| dpkgutil.Package := f0; dpkgutil.Version := f1;
                        dpkgutil.Architecture := f2 |} in
          installed_loop lines' eof_err (<[key pkg := pkg]> pkgs)
      | _ =>
          (pkgs,
           Some (fmt_Errorf "unexpected line %q: expected %d fields, got %d"
                   [AString line; AInt 3; AInt (Z.of_nat (length fields))]))
      end
  end.

Definition installed (r : Lines) : gmap string dpkgutil.Dpkg * option error :=
  installed_loop (scanned r) (scan_err r) ∅.

Definition dpkg_query_args : list string :=
  ["dpkg-query"; "-f";
   "${Package},${Version},${Architecture}" +:+ String "010" EmptyString;
   "-W"].

(** [Installed()], lines 184-197.  The returned map is nil ([None])
    when the command could not be started. *)
Definition Installed `{!System}
  : option (gmap string dpkgutil.Dpkg) * option error :=
  match dpkg_query with
  | PipeFailed err => (None, Some err)
  | StartFailed err =>
      (None, Some (fmt_Errorf_w "failed to start %v: %w"
                     [AStrings dpkg_query_args] err))
  | Running r => let '(pkgs, err) := installed r in (Some pkgs, err)
  end.

Section generateHash.
Context {V : Type} `{!version.Version V} {S : Type}.
Variable hw : distro.HashWriter S.

(** The loop of lines 115-150 works on the map [seen], the sink [hw]
    writes to, and the warnings logged so far. *)
Record LoopState := {
  seen : gmap string string;
  sink : S;
  warnings : list Warning;
}.

Definition ver (f : control.BinaryParagraph) : string :=
  map_index (control.Values f) "Version".

Definition seenK (f : control.BinaryParagraph) : string :=
  control.Package f +:+ ":" +:+ map_index (control.Values f) "Architecture".

Definition warn (st : LoopState) (logged : list Warning) : LoopState :=
  {| seen := seen st; sink := sink st; warnings := warnings st ++ logged |}.

(** Lines 119-133: whether the paragraph gives way to the version seen
    before under the same key, and what is logged when it does. *)
Definition superseded (seen : gmap string string)
    (f : control.BinaryParagraph) : option (list Warning) :=
  match seen !! seenK f with
  | Some seenV =>
      match version.Parse seenV with
      | inr err =>
          Some [(Some err, "Failed to parse version %q", [AString seenV])]
      | inl seenVParsed =>
          match version.Parse (ver f) with
          | inr err =>
              Some [(Some err, "Failed to parse version %q", [AString (ver f)])]
          | inl verParsed =>
              if (version.Compare seenVParsed verParsed >? 0)%Z
              then Some []
              else None
          end
      end
  | None => None
  end.

(** Lines 117-148: one iteration.  The error is the one [hw] returned,
    with which [generateHash] returns; otherwise the loop goes on. *)
Definition generateHash_body (f : control.BinaryParagraph) (st : LoopState)
  : option error * LoopState :=
  match superseded (seen st) f with
  | Some logged => (None, warn st logged)                       (* continue *)
  | None =>
      let st := {| seen := <[seenK f := ver f]> (seen st);
                   sink := sink st; warnings := warnings st |} in
      let dpkgFilename := map_index (control.Values f) "Filename" in
      if decide (dpkgFilename = EmptyString) then
        (None,
         warn st [(None,
                   "No Filename found for package %q (Hint: try 'apt-get update')",
                   [AString (control.Package f)])])
      else
        let sha256Digest := map_index (control.Values f) "SHA256" in
        if decide (sha256Digest = EmptyString) then
          (None,
           warn st [(None,
                     "No SHA256 found for package %q (Hint: try 'apt-get update')",
                     [AString (control.Package f)])])
        else
          match hw sha256Digest dpkgFilename (sink st) with
          | (err, s') =>
              (err, {| seen := seen st; sink := s'; warnings := warnings st |})
          end
  end.

(** Lines 116-150: the loop over the paragraphs. *)
Fixpoint generateHash_loop (paragraphs : list control.BinaryParagraph)
    (st : LoopState) : option error * LoopState :=
  match paragraphs with
  | [] => (None, st)
  | f :: rest =>
      match generateHash_body f st with
      | (Some err, st') => (Some err, st')
      | (None, st') => generateHash_loop rest st'
      end
  end.

(** [generateHash(hw, r)], lines 106-151; [r] is the reader as
    [control.Unmarshal] parses it. *)
Definition generateHash (r : list control.BinaryParagraph + error) (s : S)
  : option error * S * list Warning :=
  match r with
  | inr err => (Some err, s, [])
  | inl paragraphs =>
      let '(err, st) :=
        generateHash_loop paragraphs
          {| seen := ∅; sink := s; warnings := [] |} in
      (err, sink st, warnings st)
  end.

(** Lines 86-103 of [GenerateHash]: run [apt-cache show names...] and
    hash its output. *)
Definition apt_cache_show `{!System} (names : list string) (s : S)
  : option error * S * list Warning :=
  let aptCacheArgs := "show" :: names in
  match apt_cache aptCacheArgs with
  | PipeFailed err => (Some err, s, [])
  | StartFailed err =>
      (Some (fmt_Errorf_w "failed to start %v: %w"
               [AStrings ("apt-cache" :: aptCacheArgs)] err), s, [])
  | Running aptCacheR =>
      match generateHash aptCacheR s with
      | (Some err, s', w) =>
          (Some (fmt_Errorf_w "failed to parse the output of %v: %w"
                   [AStrings ("apt-cache" :: aptCacheArgs)] err), s', w)
      | (None, s', w) => (None, s', w)
      end
  end.

(** [GenerateHash], lines 70-104. *)
Definition GenerateHash `{!System} {C : Type} (opts : distro.HashOpts C)
    (s : S) : option error * S * list Warning :=
  let names := distro.FilterByName opts in
  if (length names =? 0)%nat then
    match Installed with
    | (_, Some err) => (Some err, s, [])
    | (dpkgs, None) =>
        let dpkgs := default ∅ dpkgs in
        if (size dpkgs =? 0)%nat then
          (Some (errors_New "no package is installed?"), s, [])
        else
          apt_cache_show (sort_Strings (names ++ map_keys dpkgs)) s
    end
  else apt_cache_show (sort_Strings names) s.
End generateHash.

(** The entry that [generateHash] hands to the writer for a paragraph
    with a file name and a digest (lines 135-146). *)
Definition entry (f : control.BinaryParagraph) : string * string :=
  (map_index (control.Values f) "SHA256", map_index (control.Values f) "Filename").

Definition has_entry (f : control.BinaryParagraph) : Prop :=
  map_index (control.Values f) "Filename" <> EmptyString
  /\ map_index (control.Values f) "SHA256" <> EmptyString.

Definition PackageName (sp : filespec.FileSpec) : string + error :=
  match filespec.Dpkg sp with
  | None => inr (fmt_Errorf "dpkg information not available for %q"
                   [AString (filespec.Name sp)])
  | Some dpkg => inl (dpkgutil.Package dpkg)
  end.

(** [IsPackageVersionInstalled], lines 160-180.  The driver remembers
    the package map in its [installed] field. *)
Definition IsPackageVersionInstalled `{!System} (d : debian)
    (sp : filespec.FileSpec) : (bool * option error) * debian :=
  match filespec.Dpkg sp with
  | None =>
      ((false, Some (fmt_Errorf "dpkg information not available for %q"
                       [AString (filespec.Name sp)])), d)
  | Some dpkg =>
      let '(d, err) :=
        match installed_cache d with
        | None =>
            let '(m, err) := Installed in
            ({| info := info d; installed_cache := m |}, err)
        | Some _ => (d, None)
        end in
      match err with
      | Some err =>
          ((false, Some (fmt_Errorf_w "failed to detect installed dpkgs: %w" [] err)), d)
      | None =>
          match default ∅ (installed_cache d) !! key dpkg with
          | None => ((false, None), d)
          | Some inst =>
              ((bool_decide (dpkgutil.Version inst = dpkgutil.Version dpkg), None), d)
          end
      end
  end.

#[global] Instance debian_Distro `{!System} : distro.Distro debian := {
  distro.GetInfo := Info;
  distro.IsPackageVersionInstalled := IsPackageVersionInstalled;
}.

(** A line of the output of [dpkg-query] for the format of
    [dpkg_query_args]: ${Package},${Version},${Architecture}. *)
Definition dpkg_query_line (pkg : dpkgutil.Dpkg) : string :=
  dpkgutil.Package pkg +:+ "," +:+ dpkgutil.Version pkg +:+ ","
  +:+ dpkgutil.Architecture pkg.

(** The answer of [IsPackageVersionInstalled] from a package map
    (lines 172-179). *)
Definition version_installed (m : gmap string dpkgutil.Dpkg)
    (dpkg : dpkgutil.Dpkg) : bool :=
  match m !! key dpkg with
  | None => false
  | Some inst => bool_decide (dpkgutil.Version inst = dpkgutil.Version dpkg)
  end.

#[global] Instance has_entry_dec f : Decision (has_entry f).
Proof. unfold has_entry. apply _. Defined.

Section InstallPackages.
Context {H C : Type} `{!host.Host H} `{!cache.Blobs C}.

(** Lines 234-240: the blob of every package, appended to [args]. *)
Fixpoint blob_args (c : C) (pkgs : list filespec.FileSpec) (args : list string)
  : list string + error :=
  match pkgs with
  | [] => inl args
  | pkg :: pkgs' =>
      match cache.BlobAbsPath c (filespec.SHA256 pkg) with
      | inr err => inr err
      | inl blob => blob_args c pkgs' (args ++ [blob])
      end
  end.

(** [InstallPackages], lines 224-250, with the host as the call leaves
    it and the calls made. *)
Definition InstallPackages (d : debian) (h : H) (c : C)
    (pkgs : list filespec.FileSpec) : option error * (H * list host.Call) :=
  if (length pkgs =? 0)%nat then (None, (h, []))
  else
    let r := host.exec_LookPath h "dpkg" in
    match r with
    | inr err => (Some err, (h, [host.LookPath "dpkg" r]))
    | inl cmdName =>
        let args := ["-i"] in
        let pre :=
          [host.LookPath "dpkg" r;
           host.Infof "Running '%s %s ...' with %d packages"
             [AString cmdName; AString (gostrings.Join args " ");
              AInt (Z.of_nat (length pkgs))]] in
        match blob_args c pkgs args with
        | inr err => (Some err, (h, pre))
        | inl args =>
            let '(err, h') := host.cmd_Run h cmdName args in
            (err, (h', pre ++ [host.Debugf "Running %v" [AStrings (cmdName :: args)];
                               host.Run cmdName args err]))
        end
    end.
End InstallPackages.

Section GenerateDockerfile.
Context {A F : Type} `{!distro.Templates A F}.
(** The embedded templates Dockerfile.generate-hash.tmpl and
    Dockerfile.tmpl. *)
Variable dockerfileGenerateHashTmpl dockerfileTmpl : string.

(** [GenerateDockerfile], lines 260-275. *)
Definition GenerateDockerfile (d : debian) (dir : string) (args : A)
    (opts : distro.DockerfileOpts) (fs : F) : option error * F :=
  if negb (String.eqb (distro.Name (info d)) NameDebian) then
    (Some (fmt_Errorf
             "generating dockerfiles needs the distro driver to be set to %q, not %q"
             [AString NameDebian; AString (distro.Name (info d))]), fs)
  else
    let '(err, fs) :=
      if distro.GenerateHash opts then
        let f := distro.filepath_Join [dir; "Dockerfile.generate-hash"] in
        match distro.WriteToFile args f dockerfileGenerateHashTmpl fs with
        | (Some err, fs') =>
            (Some (fmt_Errorf_w "failed to generate %q: %w" [AString f] err), fs')
        | (None, fs') => (None, fs')
        end
      else (None, fs) in
    match err with
    | Some err => (Some err, fs)
    | None =>
        let f := distro.filepath_Join [dir; "Dockerfile"] in
        match distro.WriteToFile args f dockerfileTmpl fs with
        | (Some err, fs') =>
            (Some (fmt_Errorf_w "failed to generate %q: %w" [AString f] err), fs')
        | (None, fs') => (None, fs')
        end
    end.
End GenerateDockerfile.
End debian.

(** ** Errors of the standard library *)

Definition os_ErrNotExist : error := errors_New "file does not exist".

(** [errors.Is(err, target)]: [target] is [err] or an error it wraps. *)
Fixpoint errors_Is (err target : error) : bool :=
  bool_decide (err = target)
  || match err with
     | fmt_Errorf_w _ _ wrapped => errors_Is wrapped target
     | _ => false
     end.

(** ** pkg/distro/alpine/alpine.go *)

Module alpine.
Definition Name : string := "alpine".

Definition ErrNotImplemented : error :=
  fmt_Errorf "distro driver %q does not implement the requested feature"
    [AString Name].

(** The host commands and library calls of the driver: [apk info -v]
    (scanned line by line), [os.MkdirTemp], [apk fetch --simulate
    --output=DIR --url PKGS...] (run with [Output]), [apkutil.Split]
    and [url.Parse]. *)
Class System := {
  apk_info : Started Lines;
  MkdirTemp : string + error;
  apk_fetch : list string -> Lines + error;
  apkutil_Split : string -> apkutil.APK + error;
  url_Parse : string -> url.URL + error;
}.

Record alpine := {
  info : distro.Info;
  installed_cache : option (gmap string apkutil.APK);  (* field [installed] *)
}.

Definition New : alpine :=
  {| info :=
       {| distro.Name := Name;
          distro.DefaultProviders :=
            ["https://dl-cdn.alpinelinux.org/alpine/{{.Name}}"];
          distro.Experimental := true;
          distro.CacheIsNeededForGeneratingHash := true |};
     installed_cache := None |}.

Definition Info (d : alpine) : distro.Info := info d.

(** [installed(r)], lines 185-198. *)
Fixpoint installed_loop `{!System} (lines : list string)
    (eof_err : option error) (pkgs : gmap string apkutil.APK)
  : option (gmap string apkutil.APK) * option error :=
  match lines with
  | [] => (Some pkgs, eof_err)
  | line :: lines' =>
      let trimmed := gostrings.TrimSpace line in
      match apkutil_Split trimmed with
      | inr err =>
          (None,
           Some (fmt_Errorf_w
                   "failed to split %q into the package name and the version string: %w"
                   [AString trimmed] err))
      | inl pkg =>
          installed_loop lines' eof_err (<[apkutil.Package pkg := pkg]> pkgs)
      end
  end.

Definition installed `{!System} (r : Lines)
  : option (gmap string apkutil.APK) * option error :=
  installed_loop (scanned r) (scan_err r) ∅.

(** [Installed()], lines 170-183. *)
Definition Installed `{!System}
  : option (gmap string apkutil.APK) * option error :=
  match apk_info with
  | PipeFailed err => (None, Some err)
  | StartFailed err =>
      (None, Some (fmt_Errorf_w "failed to start %v: %w"
                     [AStrings ["apk"; "info"; "-v"]] err))
  | Running r => installed r
  end.

(** [urlToFilenameWithoutProvider], lines 133-141: the path from the
    first segment [vN...] that follows a segment starting with
    "alpine".  Reading [sp[i][0]] or [sp[i][1]] past the end of the
    segment panics. *)
Fixpoint urlToFilename_loop (u : url.URL) (prev : option string)
    (sp : list string) : outcome string :=
  match sp with
  | [] => Raise (fmt_Errorf "failed to parse %q" [ARedacted u])
  | seg :: sp' =>
      let next := urlToFilename_loop u (Some seg) sp' in
      match prev with
      | None => next                                        (* i = 0 *)
      | Some p =>
          if gostrings.HasPrefix p "alpine" then
            match gostrings.index seg 0 with
            | None => Panic
            | Some c0 =>
                if decide (c0 = "v"%char) then
                  match gostrings.index seg 1 with
                  | None => Panic
                  | Some c1 =>
                      if (49 <=? version.code c1)%Z && (version.code c1 <=? 57)%Z
                      then Ret (gostrings.Join sp "/")
                      else next
                  end
                else next
            end
          else next
      end
  end.

Definition urlToFilenameWithoutProvider (u : url.URL) : outcome string :=
  urlToFilename_loop u None (gostrings.Split (url.Path u) "/").

Section generateHash.
Context {C S : Type} `{!cache.Cache C} `{!System}.
Variable hw : distro.HashWriter S.

Definition call_hw (sha256sum fname : string) (c : C) (s : S)
  : outcome unit * (C * S) :=
  match hw sha256sum fname s with
  | (Some err, s') => (Raise err, (c, s'))
  | (None, s') => (Ret tt, (c, s'))
  end.

(** [generateHashWithURL], lines 105-127. *)
Definition generateHashWithURL (c : C) (u : url.URL) (s : S)
  : outcome unit * (C * S) :=
  if negb (String.eqb (url.Scheme u) "https") then
    (Raise (fmt_Errorf "expected an https url, got %q" [ARedacted u]), (c, s))
  else
    match urlToFilenameWithoutProvider u with
    | Raise err => (Raise err, (c, s))
    | Panic => (Panic, (c, s))
    | Ret fname =>
        match cache.SHA256ByOriginURL c u with
        | inl sha256sum => call_hw sha256sum fname c s
        | inr err =>
            if negb (errors_Is err os_ErrNotExist) then
              (Raise (fmt_Errorf_w
                        "failed to check the cached sha256 by URL %q: %w"
                        [ARedacted u] err), (c, s))
            else
              match cache.ImportWithURL c u with
              | (inr err, c') => (Raise err, (c', s))
              | (inl sha256sum, c') => call_hw sha256sum fname c' s
              end
        end
    end.

(** [generateHashWithURLReader], lines 85-103. *)
Fixpoint generateHashWithURLReader_loop (lines : list string)
    (eof_err : option error) (c : C) (s : S) : outcome unit * (C * S) :=
  match lines with
  | [] =>
      match eof_err with
      | Some err => (Raise err, (c, s))
      | None => (Ret tt, (c, s))
      end
  | line :: lines' =>
      let trimmed := gostrings.TrimSpace line in
      match url_Parse trimmed with
      | inr err => (Raise err, (c, s))
      | inl u =>
          match generateHashWithURL c u s with
          | (Ret _, (c', s')) =>
              generateHashWithURLReader_loop lines' eof_err c' s'
          | r => r
          end
      end
  end.

Definition generateHashWithURLReader (c : C) (r : Lines) (s : S)
  : outcome unit * (C * S) :=
  generateHashWithURLReader_loop (scanned r) (scan_err r) c s.

(** Lines 70-82 of [GenerateHash]: ask apk for the URLs of [names]
    and hash them. *)
Definition apk_fetch_urls (c : C) (names : list string) (s : S)
  : outcome unit * (C * S) :=
  match MkdirTemp with
  | inr err => (Raise err, (c, s))
  | inl dummyDir =>
      let args :=
        ["fetch"; "--simulate"; "--output=" +:+ dummyDir; "--url"] ++ names in
      match apk_fetch args with
      | inr err =>
          (Raise (fmt_Errorf_w "failed to execute %v: %w"
                    [AStrings ("apk" :: args)] err), (c, s))
      | inl urls => generateHashWithURLReader c urls s
      end
  end.

(** [GenerateHash], lines 53-83.  Without a cache there is no cache
    state to return. *)
Definition GenerateHash (opts : distro.HashOpts C) (s : S)
  : outcome unit * (option C * S) :=
  match distro.Cache opts with
  | None => (Raise (errors_New "cache is required"), (None, s))
  | Some c =>
      let names := distro.FilterByName opts in
      let run names :=
        let '(r, (c', s')) := apk_fetch_urls c names s in
        (r, (Some c', s')) in
      if (length names =? 0)%nat then
        match Installed with
        | (_, Some err) => (Raise err, (Some c, s))
        | (apks, None) =>
            let apks := default ∅ apks in
            if (size apks =? 0)%nat then
              (Raise (errors_New "no package is installed?"), (Some c, s))
            else run (sort_Strings (names ++ map_keys apks))
        end
      else run (sort_Strings names)
  end.
End generateHash.

Definition PackageName (sp : filespec.FileSpec) : string + error :=
  match filespec.APK sp with
  | None => inr (fmt_Errorf "apk information not available for %q"
                   [AString (filespec.Name sp)])
  | Some apk => inl (apkutil.Package apk)
  end.

(** [IsPackageVersionInstalled], lines 150-166. *)
Definition IsPackageVersionInstalled `{!System} (d : alpine)
    (sp : filespec.FileSpec) : (bool * option error) * alpine :=
  match filespec.APK sp with
  | None =>
      ((false, Some (fmt_Errorf "apk information not available for %q"
                       [AString (filespec.Name sp)])), d)
  | Some apk =>
      let '(d, err) :=
        match installed_cache d with
        | None =>
            let '(m, err) := Installed in
            ({| info := info d; installed_cache := m |}, err)
        | Some _ => (d, None)
        end in
      match err with
      | Some err =>
          ((false, Some (fmt_Errorf_w "failed to detect installed apks: %w" [] err)), d)
      | None =>
          match default ∅ (installed_cache d) !! apkutil.Package apk with
          | None => ((false, None), d)
          | Some inst =>
              ((bool_decide (apkutil.Version inst = apkutil.Version apk), None), d)
          end
      end
  end.

#[global] Instance alpine_Distro `{!System} : distro.Distro alpine := {
  distro.GetInfo := Info;
  distro.IsPackageVersionInstalled := IsPackageVersionInstalled;
}.

(** The answer of [IsPackageVersionInstalled] from a package map
    (lines 160-165). *)
Definition version_installed (m : gmap string apkutil.APK)
    (apk : apkutil.APK) : bool :=
  match m !! apkutil.Package apk with
  | None => false
  | Some inst => bool_decide (apkutil.Version inst = apkutil.Version apk)
  end.

Section InstallPackages.
Context {H C : Type} `{!host.Host H} `{!cache.Blobs C}.

(** Lines 215-228: a link to the blob of every package in [tmpDir],
    appended to [args]. *)
Fixpoint link_blobs (h : H) (c : C) (tmpDir : string)
    (pkgs : list filespec.FileSpec) (args : list string)
  : (list string + error) * (H * list host.Call) :=
  match pkgs with
  | [] => (inl args, (h, []))
  | pkg :: pkgs' =>
      match cache.BlobAbsPath c (filespec.SHA256 pkg) with
      | inr err => (inr err, (h, []))
      | inl blob =>
          let r := host.securejoin_SecureJoin h tmpDir (filespec.Basename pkg) in
          let joined := host.SecureJoin tmpDir (filespec.Basename pkg) r in
          match r with
          | inr err => (inr err, (h, [joined]))
          | inl ln =>
              let '(serr, h1) := host.os_Symlink h blob ln in
              let linked := host.Symlink blob ln serr in
              match serr with
              | Some err => (inr err, (h1, [joined; linked]))
              | None =>
                  let '(res, (h2, calls)) :=
                    link_blobs h1 c tmpDir pkgs' (args ++ [ln]) in
                  (res, (h2, joined :: linked :: calls))
              end
          end
      end
  end.

(** [InstallPackages], lines 200-238.  The deferred [os.RemoveAll]
    runs when the function returns, whatever it returns. *)
Definition InstallPackages (d : alpine) (h : H) (c : C)
    (pkgs : list filespec.FileSpec) : option error * (H * list host.Call) :=
  if (length pkgs =? 0)%nat then (None, (h, []))
  else
    let r := host.exec_LookPath h "apk" in
    match r with
    | inr err => (Some err, (h, [host.LookPath "apk" r]))
    | inl cmdName =>
        let '(t, h1) := host.os_MkdirTemp h EmptyString "repro-get-apk-*.tmp" in
        let made := host.MkdirTemp EmptyString "repro-get-apk-*.tmp" t in
        match t with
        | inr err => (Some err, (h1, [host.LookPath "apk" r; made]))
        | inl tmpDir =>
            let args := ["add"; "--no-network"] in
            let pre :=
              [host.LookPath "apk" r; made;
               host.Infof "Running '%s %s ...' with %d packages"
                 [AString cmdName; AString (gostrings.Join args " ");
                  AInt (Z.of_nat (length pkgs))]] in
            let '(err, (h3, calls)) :=
              match link_blobs h1 c tmpDir pkgs args with
              | (inr err, (h2, calls)) => (Some err, (h2, calls))
              | (inl args, (h2, calls)) =>
                  let '(err, h3) := host.cmd_Run h2 cmdName args in
                  (err, (h3, calls ++ [host.Debugf "Running %v"
                                         [AStrings (cmdName :: args)];
                                       host.Run cmdName args err]))
              end in
            let '(rerr, h4) := host.os_RemoveAll h3 tmpDir in
            (err, (h4, pre ++ calls ++ [host.RemoveAll tmpDir rerr]))
        end
    end.
End InstallPackages.

(** [GenerateDockerfile], lines 240-242. *)
Definition GenerateDockerfile {A F : Type} (d : alpine) (dir : string) (args : A)
    (opts : distro.DockerfileOpts) (fs : F) : option error * F :=
  (Some ErrNotImplemented, fs).
End alpine.

(** ** pkg/distro/none/none.go *)

Module none.
Definition Name : string := "none".

Definition ErrNotImplemented : error :=
  fmt_Errorf "distro driver %q does not implement the requested feature"
    [AString Name].

Record none := { info : distro.Info }.

Definition New : none :=
  {| info := {| distro.Name := Name; distro.DefaultProviders := [];
                distro.Experimental := false;
                distro.CacheIsNeededForGeneratingHash := false |} |}.

Definition Info (d : none) : distro.Info := info d.

Definition GenerateHash {C S : Type} (hw : distro.HashWriter S)
    (opts : distro.HashOpts C) (s : S) : option error * S :=
  (Some ErrNotImplemented, s).

Definition PackageName (sp : filespec.FileSpec) : string + error :=
  inr ErrNotImplemented.

Definition IsPackageVersionInstalled (d : none) (sp : filespec.FileSpec)
  : (bool * option error) * none :=
  ((false, None), d).

#[global] Instance none_Distro : distro.Distro none := {
  distro.GetInfo := Info;
  distro.IsPackageVersionInstalled := IsPackageVersionInstalled;
}.

Definition InstallPackages {H C : Type} (d : none) (h : H) (c : C)
    (pkgs : list filespec.FileSpec) : option error * (H * list host.Call) :=
  if (length pkgs =? 0)%nat then (None, (h, []))
  else (Some ErrNotImplemented, (h, [])).

Definition GenerateDockerfile {A F : Type} (d : none) (dir : string) (args : A)
    (opts : distro.DockerfileOpts) (fs : F) : option error * F :=
  (Some ErrNotImplemented, fs).
End none.

(** ** cmd/repro-get/hash_generate.go *)

Module hash_generate.
(** What the command reads from its surroundings: the driver chosen by
    [getDistro], the positional arguments, the flags, [cache.New],
    [os.ReadFile] and [sha256sums.Parse]. *)
Record Command (D C : Type) := {
  getDistro : D + error;
  args : list string;
  flag_cache : string + error;
  flag_dedupe : string + error;
  cache_New : string -> C + error;
  os_ReadFile : string -> string + error;
  sha256sums_Parse : string -> gmap string string + error;
}.
Arguments getDistro {D C} _.
Arguments args {D C} _.
Arguments flag_cache {D C} _.
Arguments flag_dedupe {D C} _.
Arguments cache_New {D C} _.
Arguments os_ReadFile {D C} _.
Arguments sha256sums_Parse {D C} _.

Section Action.
Context {D C S : Type}.
(** [d.Info()] and [d.GenerateHash(ctx, hw, opts)] of the chosen
    driver, the latter as a function of the writer, the options and
    the sink the writer writes to. *)
Variable Info : D -> distro.Info.
Variable GenerateHash :
  D -> distro.HashWriter S -> distro.HashOpts C -> S -> outcome unit * S.

(** Lines 73-78: the writer that replaces [hw] when [--dedupe] is
    given. *)
Definition dedupe (oldSums : gmap string string) (hw0 : distro.HashWriter S)
  : distro.HashWriter S :=
  fun sha256sum filename s =>
    if decide (map_index oldSums filename = sha256sum) then (None, s)
    else hw0 sha256sum filename s.

(** Lines 45-54: the cache for [opts.Cache], opened only for a driver
    that needs one to generate hashes. *)
Definition open_cache (cmd : Command D C) (d : D) : option C + error :=
  if distro.CacheIsNeededForGeneratingHash (Info d) then
    match flag_cache cmd with
    | inr err => inr err
    | inl cacheStr =>
        match cache_New cmd cacheStr with
        | inr err => inr err
        | inl c => inl (Some c)
        end
    end
  else inl None.

(** [hashGenerateAction], lines 32-81; [hw] is
    [distro.NewHashWriter(cmd.OutOrStdout())]. *)
Definition hashGenerateAction (cmd : Command D C)
    (hw : distro.HashWriter S) (s : S) : outcome unit * S :=
  match getDistro cmd with
  | inr err => (Raise err, s)
  | inl d =>
      match open_cache cmd d with
      | inr err => (Raise err, s)
      | inl optsCache =>
          let opts :=
            {| distro.FilterByName := args cmd; distro.Cache := optsCache |} in
          match flag_dedupe cmd with
          | inr err => (Raise err, s)
          | inl dedupeFile =>
              if negb (String.eqb dedupeFile EmptyString) then
                match os_ReadFile cmd dedupeFile with
                | inr err =>
                    (Raise (fmt_Errorf_w "failed to open %q: %w"
                              [AString dedupeFile] err), s)
                | inl old =>
                    match sha256sums_Parse cmd old with
                    | inr err =>
                        (Raise (fmt_Errorf_w
                                  "failed to parse %q as SHA256SUMS: %w"
                                  [AString dedupeFile] err), s)
                    | inl oldSums =>
                        GenerateHash d (dedupe oldSums hw) opts s
                    end
                end
              else GenerateHash d hw opts s
          end
      end
  end.
End Action.

(** The debian driver's [GenerateHash] in the shape the command calls
    it (the warnings go to the log, not to the caller). *)
Definition debian_GenerateHash {V : Type} `{!version.Version V}
    `{!debian.System} {C S : Type}
    (d : debian.debian) (hw : distro.HashWriter S)
    (opts : distro.HashOpts C) (s : S) : outcome unit * S :=
  match debian.GenerateHash hw opts s with
  | (Some err, s', _) => (Raise err, s')
  | (None, s', _) => (Ret tt, s')
  end.

End hash_generate.

(** Modelled from the spec: [distro.NewHashWriter] (pkg/distro is not
    among the sources) writes one line, digest then file name, per
    entry; the sink here is the list of the entries written, in order. *)
Definition list_writer : distro.HashWriter (list (string * string)) :=
  fun sha256sum filename out => (None, out ++ [(sha256sum, filename)]).

(** The entry (digest, file name) is in the prior manifest as it is. *)
Definition unchanged (oldSums : gmap string string) (e : string * string) : Prop :=
  oldSums !! e.2 = Some e.1.

#[global] Instance unchanged_dec oldSums e : Decision (unchanged oldSums e).
Proof. unfold unchanged. apply _. Defined.

(** ** A small world to run the code in *)

Module example.
(** A cache that holds a set of digests.  The host [mirror.example]
    serves every blob; a fetch from any other host fails. *)
#[export] Instance set_Cache : cache.Cache (gset string) := {
  cache.Cached c sha256 := (bool_decide (sha256 ∈ c), None);
  cache.Ensure c u sha256 :=
    if bool_decide (sha256 ∈ c) then (None, c)
    else if String.eqb (url.Host u) "mirror.example"
         then (None, {[sha256]} ∪ c)
         else (Some (errors_New "404 Not Found"), c);
  cache.SHA256ByOriginURL c u := inr os_ErrNotExist;
  cache.ImportWithURL c u := (inr (errors_New "import refused"), c);
}.

(** Providers are host names; the template "{{" does not parse. *)
#[export] Instance host_URL : FileSpecURL := fun sp provider =>
  if String.eqb provider "{{" then inr (errors_New "template: unclosed action")
  else inl {| url.Scheme := "https"; url.User := None; url.Host := provider;
              url.Path := "/" +:+ filespec.Name sp; url.RawQuery := EmptyString |}.

Definition hello : filespec.FileSpec :=
  {| filespec.Name := "pool/main/h/hello/hello_2.10-2_amd64.deb";
     filespec.Basename := "hello_2.10-2_amd64.deb";
     filespec.SHA256 :=
       "35b1508eeee9c1dfba798c4c04304ef0f266990f936a51f165571edf53325cbc";
     filespec.Dpkg :=
       Some {| dpkgutil.Package := "hello"; dpkgutil.Version := "2.10-2";
               dpkgutil.Architecture := "amd64" |};
     filespec.APK := None |}.

Definition jq : filespec.FileSpec :=
  {| filespec.Name := "pool/main/j/jq/jq_1.6-2.1_amd64.deb";
     filespec.Basename := "jq_1.6-2.1_amd64.deb";
     filespec.SHA256 :=
       "4fd5ea1ee4a0bc59b2e1a8d1ed3d8bc52b4e9540e5b1c7e7e5d8e4a7e5a0d0c1";
     filespec.Dpkg :=
       Some {| dpkgutil.Package := "jq"; dpkgutil.Version := "1.6-2.1";
               dpkgutil.Architecture := "amd64" |};
     filespec.APK := None |}.

(** A generic file, without package identity. *)
Definition blob : filespec.FileSpec :=
  {| filespec.Name := "files/blob.bin"; filespec.Basename := "blob.bin";
     filespec.SHA256 :=
       "9f86d081884c7d659a2feaa0c55ad015a3bf4f1b2b0b822cd15d6c15b0f00a08";
     filespec.Dpkg := None; filespec.APK := None |}.

Definition specs (l : list filespec.FileSpec) : gmap string filespec.FileSpec :=
  list_to_map ((fun sp => (filespec.Name sp, sp)) <$> l).

Definition paragraph (pkg ver arch fname sha256 : string)
  : control.BinaryParagraph :=
  {| control.Package := pkg;
     control.Values :=
       list_to_map [("Package", pkg); ("Version", ver); ("Architecture", arch);
                    ("Filename", fname); ("SHA256", sha256)] |}.

Definition foo_1_0 : control.BinaryParagraph :=
  paragraph "foo" "1.0" "amd64" "pool/main/f/foo/foo_1.0_amd64.deb"
    "1111111111111111111111111111111111111111111111111111111111111111".
Definition foo_2_0 : control.BinaryParagraph :=
  paragraph "foo" "2.0" "amd64" "pool/main/f/foo/foo_2.0_amd64.deb"
    "2222222222222222222222222222222222222222222222222222222222222222".

(** A debian host with hello 2.10-2 installed; [apt-cache show] knows
    both versions of foo. *)
#[export] Instance debian_host : debian.System := {
  debian.dpkg_query :=
    Running {| scanned := ["hello,2.10-2,amd64"]; scan_err := None |};
  debian.apt_cache := fun _ => Running (inl [foo_2_0; foo_1_0]);
}.

(** A debian host where dpkg-query lists nothing. *)
Definition empty_debian_host : debian.System := {|
  debian.dpkg_query := Running {| scanned := []; scan_err := None |};
  debian.apt_cache := fun _ => Running (inl []);
|}.

(** An alpine host with musl installed, and one without packages. *)
Definition split_apk (s : string) : apkutil.APK + error :=
  match version.cut_last "-" s with
  | Some (rest, rel) =>
      match version.cut_last "-" rest with
      | Some (name, ver) =>
          inl {| apkutil.Package := name;
                 apkutil.Version := ver +:+ "-" +:+ rel |}
      | None => inr (fmt_Errorf "unexpected apk name %q" [AString s])
      end
  | None => inr (fmt_Errorf "unexpected apk name %q" [AString s])
  end.

Definition alpine_host_with (lines : list string) : alpine.System := {|
  alpine.apk_info := Running {| scanned := lines; scan_err := None |};
  alpine.MkdirTemp := inl "/tmp/001";
  alpine.apk_fetch := fun _ => inl {| scanned := []; scan_err := None |};
  alpine.apkutil_Split := split_apk;
  alpine.url_Parse := fun s =>
    inl {| url.Scheme := "https"; url.User := None;
           url.Host := "dl-cdn.alpinelinux.org"; url.Path := s;
           url.RawQuery := EmptyString |};
|}.

Definition musl : filespec.FileSpec :=
  {| filespec.Name := "v3.16/main/x86_64/musl-1.2.3-r0.apk";
     filespec.Basename := "musl-1.2.3-r0.apk";
     filespec.SHA256 :=
       "7d1b1e2f0c4a5b6c7d8e9f0a1b2c3d4e5f60718293a4b5c6d7e8f90123456789";
     filespec.Dpkg := None;
     filespec.APK :=
       Some {| apkutil.Package := "musl"; apkutil.Version := "1.2.3-r0" |} |}.

(** Three runs of [Download] on the debian host, from an empty cache:
    with a dead provider before the mirror, with a dead provider only,
    and with a template that does not parse. *)
Definition three_specs : gmap string filespec.FileSpec :=
  specs [jq; hello; blob].

Definition opts_fallback : downloader.Opts :=
  {| downloader.Providers := ["down.example"; "mirror.example"];
     downloader.SkipInstalled := true |}.
Definition opts_dead : downloader.Opts :=
  {| downloader.Providers := ["down.example"];
     downloader.SkipInstalled := false |}.
Definition opts_bad_template : downloader.Opts :=
  {| downloader.Providers := ["down.example"; "{{"; "mirror.example"];
     downloader.SkipInstalled := false |}.
Definition opts_default : downloader.Opts :=
  {| downloader.Providers := []; downloader.SkipInstalled := false |}.

Definition run_with (opts : downloader.Opts)
  : outcome downloader.Result
    * (option debian.debian * option (gset string) * list downloader.Event) :=
  downloader.Download three_specs opts (Some debian.New) (Some ∅).

Definition blob_url (host : string) : url.URL :=
  {| url.Scheme := "https"; url.User := None; url.Host := host;
     url.Path := "/files/blob.bin"; url.RawQuery := EmptyString |}.

(** [repro-get hash generate --dedupe=SHA256SUMS.old] on the debian
    host; the prior manifest holds the entry of foo 2.0. *)
Definition old_sums : gmap string string :=
  {[ "pool/main/f/foo/foo_2.0_amd64.deb" :=
       "2222222222222222222222222222222222222222222222222222222222222222" ]}.

Definition hash_generate_dedupe : hash_generate.Command debian.debian unit :=
  {| hash_generate.getDistro := inl debian.New;
     hash_generate.args := ["foo"];
     hash_generate.flag_cache := inl "/var/cache/repro-get";
     hash_generate.flag_dedupe := inl "SHA256SUMS.old";
     hash_generate.cache_New := fun _ => inl tt;
     hash_generate.os_ReadFile := fun _ => inl "(the old manifest)";
     hash_generate.sha256sums_Parse := fun _ => inl old_sums |}.

(** The mirror alone, with [SkipInstalled]. *)
Definition opts_mirror : downloader.Opts :=
  {| downloader.Providers := ["mirror.example"];
     downloader.SkipInstalled := true |}.

(** The run of [run_with opts_fallback] from a cache that holds
    blob.bin. *)
Definition run_warm
  : outcome downloader.Result
    * (option debian.debian * option (gset string) * list downloader.Event) :=
  downloader.Download three_specs opts_fallback (Some debian.New)
    (Some {[filespec.SHA256 blob]}).

(** The blobs of the set cache lie under one directory. *)
#[export] Instance set_Blobs : cache.Blobs (gset string) := fun c sha256 =>
  if bool_decide (sha256 ∈ c)
  then inl ("/var/cache/repro-get/blobs/sha256/" +:+ sha256)
  else inr os_ErrNotExist.

(** A host with dpkg and apk on which every command goes well; its
    state is the list of the links made. *)
#[export] Instance links_Host : host.Host (list (string * string)) := {
  host.exec_LookPath h file := inl ("/usr/bin/" +:+ file);
  host.os_MkdirTemp h dir pattern := (inl "/tmp/repro-get-apk-1.tmp", h);
  host.securejoin_SecureJoin h root unsafePath := inl (root +:+ "/" +:+ unsafePath);
  host.os_Symlink h oldname newname := (None, h ++ [(oldname, newname)]);
  host.cmd_Run h name args := (None, h);
  host.os_RemoveAll h path := (None, []);
}.

(** A cache that knows digests by the path of the origin URL. *)
#[export] Instance origin_Cache : cache.Cache (gmap string string) := {
  cache.Cached c sha256 := (false, None);
  cache.Ensure c u sha256 := (None, c);
  cache.SHA256ByOriginURL c u :=
    match c !! url.Path u with
    | Some sha256 => inl sha256
    | None => inr os_ErrNotExist
    end;
  cache.ImportWithURL c u :=
    (inl "00000000000000000000000000000000000000000000000000000000000000aa",
     <[url.Path u :=
         "00000000000000000000000000000000000000000000000000000000000000aa"]> c);
}.

Definition alpine_url (path : string) : url.URL :=
  {| url.Scheme := "https"; url.User := None;
     url.Host := "dl-cdn.alpinelinux.org"; url.Path := path;
     url.RawQuery := EmptyString |}.

Definition musl_path : string := "/alpine/v3.16/main/x86_64/musl-1.2.3-r0.apk".

(** foo 2.0 as the index lists it when it has no SHA256 field. *)
Definition foo_2_0_no_digest : control.BinaryParagraph :=
  {| control.Package := "foo";
     control.Values :=
       list_to_map [("Package", "foo"); ("Version", "2.0");
                    ("Architecture", "amd64");
                    ("Filename", "pool/main/f/foo/foo_2.0_amd64.deb")] |}.

(** A debian host where [apt-cache show] answers with one paragraph
    per name, in the order of its arguments. *)
Definition answer (name : string) : control.BinaryParagraph :=
  paragraph name "1.0" "amd64" ("pool/main/" +:+ name +:+ "_1.0_amd64.deb")
    "3333333333333333333333333333333333333333333333333333333333333333".

Definition answering_debian_host : debian.System := {|
  debian.dpkg_query := Running {| scanned := []; scan_err := None |};
  debian.apt_cache := fun args => Running (inl (answer <$> tail args));
|}.
End example.

(** * Properties *)

(** ** The helpers on small inputs *)

Section helper_examples.
Import example.

Example SplitN_three_fields :
  gostrings.SplitN "hello,2.10-2,amd64" "," 3 = ["hello"; "2.10-2"; "amd64"].
Proof. reflexivity. Qed.

Example SplitN_keeps_the_rest :
  gostrings.SplitN "a,b,c,d" "," 3 = ["a"; "b"; "c,d"].
Proof. reflexivity. Qed.

Example SplitN_too_few : gostrings.SplitN "a,b" "," 3 = ["a"; "b"].
Proof. reflexivity. Qed.

Example TrimSpace_both_ends : gostrings.TrimSpace "  a b  " = "a b".
Proof. reflexivity. Qed.

Example sort_Strings_bytewise :
  sort_Strings ["b"; "a"; "ab"; "B"] = ["B"; "a"; "ab"; "b"].
Proof. reflexivity. Qed.

Example debian_installed_keys :
  debian.installed {| scanned := ["hello,2.10-2,amd64"; "tzdata,2024a-0,all"];
                      scan_err := None |}
  = ({[ "hello:amd64" := {| dpkgutil.Package := "hello"; dpkgutil.Version := "2.10-2";
                            dpkgutil.Architecture := "amd64" |};
        "tzdata:all" := {| dpkgutil.Package := "tzdata"; dpkgutil.Version := "2024a-0";
                           dpkgutil.Architecture := "all" |} ]}, None).
Proof. vm_compute. reflexivity. Qed.

Example debian_installed_short_line :
  (debian.installed {| scanned := ["hello,2.10-2"]; scan_err := None |}).2
  = Some (fmt_Errorf "unexpected line %q: expected %d fields, got %d"
            [AString "hello,2.10-2"; AInt 3; AInt 2]).
Proof. reflexivity. Qed.

Example debian_hello_installed :
  (debian.IsPackageVersionInstalled debian.New hello).1 = (true, None).
Proof. vm_compute. reflexivity. Qed.

Example debian_jq_not_installed :
  (debian.IsPackageVersionInstalled debian.New jq).1 = (false, None).
Proof. vm_compute. reflexivity. Qed.

Example verrevcmp_orders :
  (version.verrevcmp "1.0" "2.0" < 0)%Z
  /\ (version.verrevcmp "1.10" "1.9" > 0)%Z
  /\ (version.verrevcmp "1.0~rc1" "1.0" < 0)%Z
  /\ version.verrevcmp "1.0" "1.00" = 0%Z.
Proof. repeat split. Qed.

(** The example of the source comment of [urlToFilenameWithoutProvider]. *)
Example urlToFilename_of_the_comment :
  alpine.urlToFilenameWithoutProvider
    {| url.Scheme := "https"; url.User := None;
       url.Host := "dl-cdn.alpinelinux.org";
       url.Path := "/alpine/v3.16/main/x86_64/ca-certificates-bundle-20220614-r0.apk";
       url.RawQuery := EmptyString |}
  = Ret "v3.16/main/x86_64/ca-certificates-bundle-20220614-r0.apk".
Proof. reflexivity. Qed.

(** An empty path segment after "alpine" is read at index 0. *)
Example urlToFilename_empty_segment :
  alpine.urlToFilenameWithoutProvider
    {| url.Scheme := "https"; url.User := None; url.Host := "example.org";
       url.Path := "/alpine//main"; url.RawQuery := EmptyString |}
  = Panic.
Proof. reflexivity. Qed.
End helper_examples.

(** Split a membership in a list built from [++] and [::] into its cases. *)
Ltac in_cases H :=
  repeat match type of H with
  | _ ∈ _ ++ _ => apply elem_of_app in H; destruct H as [H|H]
  | _ ∈ _ :: _ => apply elem_of_cons in H; destruct H as [H|H]
  | _ ∈ [] => apply elem_of_nil in H; destruct H
  end.

Section downloader_facts.
Import downloader.
Context {D C : Type} `{!distro.Distro D} `{!cache.Cache C} `{!FileSpecURL}.

Lemma providers_loop_cons i l sp n j provider rest (st : State D C) :
  providers_loop i l sp n j (provider :: rest) st =
  match FileSpec_URL sp provider with
  | inr err =>
      (Raise (url_error sp provider),
       log_add st [EvURL i j provider (inr err)])
  | inl u =>
      let '(r, c') := cache.Ensure (st_cache st) u (filespec.SHA256 sp) in
      let pre := [EvURL i j provider (inl u);
                  EvPrintln i l (filespec.Basename sp) "Downloading from %s" [ARedacted u];
                  EvEnsure i j u (filespec.SHA256 sp) r] in
      let st1 := {| st_d := st_d st; st_cache := c'; st_log := st_log st ++ pre |} in
      match r with
      | None => (Ret tt, st1)
      | Some err =>
          if negb (Z.of_nat j =? Z.of_nat n - 1)%Z then
            providers_loop i l sp n (S j) rest
              (log_add st1 [EvWarnf i err "Failed to download %s (%s), trying the next provider"
                         [AString (filespec.Basename sp); ARedacted u]])
          else (Raise (download_error sp u err), st1)
      end
  end.
Proof.
  cbn [providers_loop]. unfold bind, call_URL, printPackageStatus, emit, call_Ensure, raise, ret, log_add; cbn.
  destruct (FileSpec_URL sp provider) as [u|err]; cbn; [|done].
  destruct (cache.Ensure (st_cache st) u (filespec.SHA256 sp)) as [[err|] c']; cbn.
  - rewrite <- !app_assoc. cbn. destruct (negb _); cbn; [|done].
    rewrite <- !app_assoc. done.
  - rewrite <- !app_assoc. done.
Qed.

Lemma providers_loop_post i l sp n rest : forall j (st : State D C) r st',
  n = j + length rest ->
  providers_loop i l sp n j rest st = (r, st') ->
  exists evs, st_log st' = st_log st ++ evs /\ st_d st' = st_d st
    /\ fetch_post i sp n j rest evs r.
Proof.
  induction rest as [|provider rest IH]; intros j st r st' Hn Hrun.
  { cbn in Hrun. injection Hrun as <- <-. exists []. rewrite app_nil_r.
    split; [done|]. split; [done|].
    split; try done.
    - intros ??? Hin. by apply elem_of_nil in Hin.
    - intros ??? Hin. by apply elem_of_nil in Hin.
    - intros ??? Hin. by apply elem_of_nil in Hin.
    - intros ???? Hin. by apply elem_of_nil in Hin.
    - intros ??? Hin. by apply elem_of_nil in Hin. }
  cbn in Hn. rewrite providers_loop_cons in Hrun.
  destruct (FileSpec_URL sp provider) as [u|uerr] eqn:Hurl.
  2:{ injection Hrun as <- <-. eexists. split; [reflexivity|]. split; [done|].
      split.
      - repeat constructor. cbn. by rewrite Hurl.
      - intros ??? Hin. in_cases Hin. discriminate.
      - done.
      - intros ?? [= <- <-]. rewrite Hurl. apply list_elem_of_here.
      - intros ??? Hin. in_cases Hin. injection Hin as -> -> ->. lia.
      - intros ??? Hin. in_cases Hin. discriminate.
      - intros ???? Hin. in_cases Hin. discriminate.
      - intros ??? Hin. in_cases Hin. injection Hin as -> -> ->.
        split; [done|]. split; [by exists []|].
        intros ??? Hin. in_cases Hin. by injection Hin as -> -> ->.
      - intros e _. exists [], (EvURL i j provider (inr uerr)). split; [done|].
        left. eauto. }
  destruct (cache.Ensure (st_cache st) u (filespec.SHA256 sp)) as [[err|] c'] eqn:Hens;
    cbn zeta in Hrun.
  2:{ injection Hrun as <- <-. eexists. split; [reflexivity|]. split; [done|].
      split.
      - repeat constructor; cbn; by rewrite ?Hurl.
      - intros ??? Hin. in_cases Hin; discriminate.
      - done.
      - intros ?? [= <- <-]. rewrite Hurl. apply list_elem_of_here.
      - intros ??? Hin. in_cases Hin; try discriminate.
        injection Hin as -> -> ->. lia.
      - intros ??? Hin. in_cases Hin; try discriminate.
        injection Hin as -> -> ->. eexists. do 2 apply list_elem_of_further.
        apply list_elem_of_here.
      - intros ???? Hin. in_cases Hin; discriminate.
      - intros ??? Hin. in_cases Hin; discriminate.
      - intros ? [=]. }
  destruct (Z.eqb_spec (Z.of_nat j) (Z.of_nat n - 1)) as [Hlast|Hmore]; cbn [negb] in Hrun.
  { injection Hrun as <- <-. eexists. split; [reflexivity|]. split; [done|].
    split.
    - repeat constructor; cbn; by rewrite ?Hurl.
    - intros ??? Hin. in_cases Hin; discriminate.
    - done.
    - intros ?? [= <- <-]. rewrite Hurl. apply list_elem_of_here.
    - intros ??? Hin. in_cases Hin; try discriminate.
      injection Hin as -> -> ->. lia.
    - intros ??? Hin. in_cases Hin; try discriminate.
      injection Hin as -> -> ->. eexists. do 2 apply list_elem_of_further.
      apply list_elem_of_here.
    - intros ???? Hin. in_cases Hin; try discriminate.
      injection Hin as -> -> -> ->. split; [lia|]. split; [lia|].
      intros _. split; [done|]. eexists [_; _]. done.
    - intros ??? Hin. in_cases Hin; discriminate.
    - intros ? _. eexists [_; _], _. split; [reflexivity|]. right. eauto. }
  apply IH in Hrun as (evs & Hlog & Hd & Hpost); [|lia].
  cbn in Hlog, Hd. rewrite <- !app_assoc in Hlog. eexists. split; [exact Hlog|].
  split; [done|].
  destruct Hpost as [Hev Hnodrv Hnp Hhead Hidx Hres Hfail Hufail Hlast].
  split.
  - cbn. repeat (constructor; [cbn; by rewrite ?Hurl|]). done.
  - intros i' sp' r' Hin. in_cases Hin; try discriminate. by eapply Hnodrv.
  - done.
  - intros ?? [= <- <-]. rewrite Hurl. apply list_elem_of_here.
  - intros j' p' r' Hin. cbn in Hin. in_cases Hin; try discriminate.
    + injection Hin as -> -> ->. lia.
    + apply Hidx in Hin. lia.
  - intros j' p' u' Hin. cbn in Hin. in_cases Hin; try discriminate.
    + injection Hin as -> -> ->. eexists. do 2 apply list_elem_of_further.
      apply list_elem_of_here.
    + destruct (Hres _ _ _ Hin) as [r' Hin']. exists r'. cbn.
      by do 4 apply list_elem_of_further.
  - intros j' u' sha' err' Hin. cbn in Hin. in_cases Hin; try discriminate.
    + injection Hin as -> -> -> ->. split; [lia|]. split; [|lia].
      intros _. destruct rest as [|p' rest']; [cbn in Hn; lia|].
      exists p'. split; [by replace (S j - j) with 1 by lia|].
      cbn. do 4 apply list_elem_of_further. by eapply Hhead.
    + destruct (Hfail _ _ _ _ Hin) as (Hle & Hnext & Hend).
      split; [lia|]. split.
      * intros Hlt. destruct (Hnext Hlt) as (p' & Hp' & Hin').
        exists p'. split.
        -- replace (S j' - j) with (S (S j' - S j)) by lia. exact Hp'.
        -- cbn. by do 4 apply list_elem_of_further.
      * intros Heq. destruct (Hend Heq) as (-> & evs0 & ->).
        split; [done|]. eexists (_ :: _ :: _ :: _ :: evs0). done.
  - intros j' p' err' Hin. cbn in Hin. in_cases Hin; try discriminate.
    destruct (Hufail _ _ _ Hin) as (-> & [evs0 Hevs0] & Hmax).
    split; [done|]. split.
    + rewrite Hevs0. eexists (_ :: _ :: _ :: _ :: evs0). done.
    + intros j'' p'' r'' Hin'. cbn in Hin'. in_cases Hin'; try discriminate.
      * injection Hin' as -> -> ->. apply Hidx in Hin. lia.
      * by eapply Hmax.
  - intros e ->. destruct (Hlast _ eq_refl) as (evs0 & ev & -> & Hk).
    eexists (_ :: _ :: _ :: _ :: evs0), ev. split; [done|]. exact Hk.
Qed.

Variable fileSpecs : gmap string filespec.FileSpec.
Variable opts : Opts.

Lemma check_installed_cases l i sp (st : State D C) r st' :
  check_installed opts l i sp st = (r, st') ->
  exists skip evs, r = Ret skip
    /\ st_log st' = st_log st ++ evs /\ st_cache st' = st_cache st
    /\ Forall (event_for i sp) evs
    /\ Forall (fun e => is_cache_or_network e = false) evs
    /\ (skip = true ->
          SkipInstalled opts = true /\ evs = already_installed_events i l sp
          /\ distro.IsPackageVersionInstalled (st_d st) sp = ((true, None), st_d st'))
    /\ (skip = false -> EvIsPackageVersionInstalled i sp (true, None) ∉ evs).
Proof.
  unfold check_installed. destruct (SkipInstalled opts) eqn:Hskip.
  2:{ intros [= <- <-]. exists false, []. rewrite app_nil_r.
      repeat split; try done. intros _ Hin. by apply elem_of_nil in Hin. }
  unfold bind, call_IsPackageVersionInstalled, printPackageStatus, emit, ret, log_add.
  destruct (distro.IsPackageVersionInstalled (st_d st) sp) as [[b [err|]] d'] eqn:Hinst; cbn.
  - intros [= <- <-]. exists false. eexists. cbn. rewrite <- app_assoc.
    split; [done|]. split; [reflexivity|]. split; [done|].
    split; [by repeat constructor|]. split; [by repeat constructor|].
    split; [done|]. intros _ Hin. in_cases Hin; discriminate.
  - destruct b; cbn; intros [= <- <-].
    + exists true. eexists. cbn. rewrite <- app_assoc.
      split; [done|]. split; [reflexivity|]. split; [done|].
      split; [by repeat constructor|]. split; [by repeat constructor|].
      split; [done|]. done.
    + exists false. eexists. cbn.
      split; [done|]. split; [reflexivity|]. split; [done|].
      split; [by repeat constructor|]. split; [by repeat constructor|].
      split; [done|]. intros _ Hin. in_cases Hin; discriminate.
Qed.

Lemma body_post_prefix providers l i sp res pre evs r :
  Forall (event_for i sp) pre ->
  Forall (fun e => quiet e = true) pre ->
  EvIsPackageVersionInstalled i sp (true, None) ∉ evs ->
  body_post opts providers l i sp res evs r ->
  body_post opts providers l i sp res (pre ++ evs) r.
Proof.
  intros Hfor Hquiet Hno [Hev Hnp Hres Hinst Hidx Hrsv Hfail Hufail Hlast].
  assert (Hpre : forall e, e ∈ pre -> quiet e = true).
  { by apply Forall_forall. }
  assert (Hno' : EvIsPackageVersionInstalled i sp (true, None) ∉ pre ++ evs).
  { intros Hin. in_cases Hin; [|done]. by apply Hpre in Hin. }
  split.
  - by apply Forall_app.
  - done.
  - intros res' Hr. destruct (Hres _ Hr) as [[-> _]|[_ Hin]]; [by left|done].
  - done.
  - intros j p r' Hin. in_cases Hin; [by apply Hpre in Hin|]. by eapply Hidx.
  - intros j p u Hin. in_cases Hin; [by apply Hpre in Hin|].
    destruct (Hrsv _ _ _ Hin) as [r' Hin']. exists r'. apply elem_of_app. by right.
  - intros j u sha err Hin. in_cases Hin; [by apply Hpre in Hin|].
    destruct (Hfail _ _ _ _ Hin) as (Hlt & Hnext & Hend). split; [done|]. split.
    + intros Hlt'. destruct (Hnext Hlt') as (p & Hp & Hin').
      exists p. split; [done|]. apply elem_of_app. by right.
    + intros Heq. destruct (Hend Heq) as (-> & evs0 & ->).
      split; [done|]. exists (pre ++ evs0). by rewrite app_assoc.
  - intros j p err Hin. in_cases Hin; [by apply Hpre in Hin|].
    destruct (Hufail _ _ _ Hin) as (-> & [evs0 Hevs0] & Hmax).
    split; [done|]. split.
    + rewrite Hevs0. exists (pre ++ evs0). by rewrite app_assoc.
    + intros j' p' r' Hin'. in_cases Hin'; [by apply Hpre in Hin'|]. by eapply Hmax.
  - intros e He. destruct (Hlast _ He) as (evs0 & ev & -> & Hk).
    exists (pre ++ evs0), ev. by rewrite app_assoc.
Qed.

Lemma fetch_body_post providers l i sp res evs r0 :
  fetch_post i sp (length providers) 0 providers evs r0 ->
  (EvIsPackageVersionInstalled i sp (true, None) ∉ evs)
  /\ body_post opts providers l i sp res evs
       match r0 with
       | Ret _ => Ret (append_spec res sp)
       | Raise e => Raise e
       | Panic => Panic
       end.
Proof.
  intros [Hev Hnodrv Hnp Hhead Hidx Hrsv Hfail Hufail Hlast].
  split; [apply Hnodrv|]. split.
  - done.
  - by destruct r0.
  - intros res' Hr. left. split; [|apply Hnodrv]. destruct r0; congruence.
  - intros Hin. by apply Hnodrv in Hin.
  - intros j p r' Hin. apply Hidx in Hin. lia.
  - done.
  - intros j u sha err Hin. destruct (Hfail _ _ _ _ Hin) as (Hlt & Hnext & Hend).
    split; [lia|]. split.
    + intros Hlt'. destruct (Hnext Hlt') as (p & Hp & Hin').
      exists p. by rewrite Nat.sub_0_r in Hp.
    + intros Heq. by destruct (Hend Heq) as (-> & Hl).
  - intros j p err Hin. by destruct (Hufail _ _ _ Hin) as (-> & Hl & Hmax).
  - intros e He. destruct r0 as [[]|e'|]; try discriminate. by eapply Hlast.
Qed.

Lemma quiet_body_post providers l i sp res evs :
  Forall (event_for i sp) evs ->
  Forall (fun e => quiet e = true) evs ->
  body_post opts providers l i sp res evs (Ret (append_spec res sp)).
Proof.
  intros Hfor Hquiet.
  assert (Hq : forall e, e ∈ evs -> quiet e = true) by by apply Forall_forall.
  split; try done.
  - intros res' [= <-]. left. split; [done|]. intros Hin. by apply Hq in Hin.
  - intros Hin. by apply Hq in Hin.
  - intros ??? Hin. by apply Hq in Hin.
  - intros ??? Hin. by apply Hq in Hin.
  - intros ???? Hin. by apply Hq in Hin.
  - intros ??? Hin. by apply Hq in Hin.
Qed.

Lemma cached_or_fetch_post providers l i sp res (st : State D C) r st' :
  cached_or_fetch providers l i sp res st = (r, st') ->
  exists evs, st_log st' = st_log st ++ evs /\ st_d st' = st_d st
    /\ (EvIsPackageVersionInstalled i sp (true, None) ∉ evs)
    /\ body_post opts providers l i sp res evs r.
Proof.
  unfold cached_or_fetch, bind, call_Cached, printPackageStatus, emit, ret, log_add.
  cbn. set (pre := EvCached i (filespec.SHA256 sp) (cache.Cached (st_cache st) (filespec.SHA256 sp))).
  assert (Hfetch : forall (w : list Event) r st',
    Forall (event_for i sp) (pre :: w) ->
    Forall (fun e => quiet e = true) (pre :: w) ->
    (let '(r0, st0) :=
       providers_loop i l sp (length providers) 0 providers
         {| st_d := st_d st; st_cache := st_cache st;
            st_log := (st_log st ++ [pre]) ++ w |} in
     match r0 with
     | Ret _ => (Ret (append_spec res sp), st0)
     | Raise e => (Raise e, st0)
     | Panic => (Panic, st0)
     end) = (r, st') ->
    exists evs, st_log st' = st_log st ++ evs /\ st_d st' = st_d st
      /\ (EvIsPackageVersionInstalled i sp (true, None) ∉ evs)
      /\ body_post opts providers l i sp res evs r).
  { intros w r0 st0 Hw Hq Hrun.
    destruct (providers_loop _ _ _ _ _ _ _) as [r1 st1] eqn:Hloop.
    apply providers_loop_post in Hloop as (evs & Hlog & Hd & Hpost); [|done].
    cbn in Hlog, Hd.
    assert (Hrr : r0 = match r1 with Ret _ => Ret (append_spec res sp)
                                | Raise e => Raise e | Panic => Panic end
                  /\ st0 = st1) by (destruct r1; by injection Hrun as <- <-).
    destruct Hrr as [-> ->]. clear Hrun.
    destruct (fetch_body_post providers l i sp res _ _ Hpost) as [Hno Hbody].
    exists ((pre :: w) ++ evs). rewrite Hlog, <- !app_assoc. split; [done|].
    split; [done|]. split.
    { intros Hin. apply elem_of_app in Hin as [Hin|Hin]; [|done].
      eapply Forall_forall in Hq; [|exact Hin]. done. }
    by apply body_post_prefix. }
  destruct (cache.Cached (st_cache st) (filespec.SHA256 sp)) as [cached [err|]] eqn:Hc; cbn.
  - intros Hrun. apply (Hfetch [_]) in Hrun; [exact Hrun|by repeat constructor..].
  - destruct cached; cbn.
    + intros [= <- <-]. eexists [pre; _]. cbn. rewrite <- app_assoc.
      split; [reflexivity|]. split; [done|].
      split; [intros Hin; in_cases Hin; subst pre; discriminate|].
      apply quiet_body_post; by repeat constructor.
    + intros Hrun. apply (Hfetch []); [by repeat constructor..|].
      by rewrite app_nil_r.
Qed.

Lemma loop_body_post providers l i fname sp res (st : State D C) r st' :
  fileSpecs !! fname = Some sp ->
  loop_body fileSpecs opts providers l i fname res st = (r, st') ->
  exists evs, st_log st' = st_log st ++ evs
    /\ body_post opts providers l i sp res evs r.
Proof.
  intros Hsp. unfold loop_body. rewrite Hsp. unfold bind at 1.
  destruct (check_installed opts l i sp st) as [r0 st0] eqn:Hchk.
  apply check_installed_cases in Hchk
    as (skip & evs1 & -> & Hlog1 & Hc1 & Hfor1 & Hnet1 & Hskip & Hnoskip).
  destruct skip.
  - intros [= <- <-]. destruct (Hskip eq_refl) as (Hopt & -> & Hinst).
    exists (already_installed_events i l sp). split; [done|]. split; try done.
    + intros res' [= <-]. right. split; [done|]. apply list_elem_of_here.
    + intros ??? Hin. unfold already_installed_events in Hin. in_cases Hin; discriminate.
    + intros ??? Hin. unfold already_installed_events in Hin. in_cases Hin; discriminate.
    + intros ???? Hin. unfold already_installed_events in Hin. in_cases Hin; discriminate.
    + intros ??? Hin. unfold already_installed_events in Hin. in_cases Hin; discriminate.
  - intros Hrun. apply cached_or_fetch_post in Hrun as (evs2 & Hlog2 & _ & Hno & Hbody).
    exists (evs1 ++ evs2). rewrite Hlog2, Hlog1, <- app_assoc. split; [done|].
    apply body_post_prefix; try done.
    apply Forall_forall. intros e Hin.
    specialize (Hnoskip eq_refl).
    pose proof (proj1 (Forall_forall _ _) Hnet1 e Hin) as Hn.
    destruct e as [i' sp' [[] []]| | | | |]; try done.
    pose proof (proj1 (Forall_forall _ _) Hfor1 _ Hin) as [-> ->]. done.
Qed.

Lemma specs_loop_run providers l fnames : forall i res (st : State D C) r st',
  Forall (fun f => is_Some (fileSpecs !! f)) fnames ->
  specs_loop fileSpecs opts providers l i fnames res st = (r, st') ->
  exists chunks, st_log st' = st_log st ++ concat chunks
    /\ run fileSpecs opts providers l i fnames res chunks r.
Proof.
  induction fnames as [|fname fnames IH]; intros i res st r st' Hall Hrun.
  { injection Hrun as <- <-. exists []. cbn. rewrite app_nil_r.
    split; [done|]. constructor. }
  apply Forall_cons in Hall as [[sp Hsp] Hall].
  cbn in Hrun. unfold bind in Hrun.
  destruct (loop_body _ _ _ _ _ _ _ _) as [r0 st0] eqn:Hbody.
  apply (loop_body_post _ _ _ _ _ _ _ _ _ Hsp) in Hbody as (evs & Hlog & Hpost).
  destruct r0 as [res0|e|].
  - apply IH in Hrun as (chunks & Hlog' & Hrun'); [|done].
    exists (evs :: chunks). cbn. rewrite Hlog', Hlog, <- app_assoc.
    split; [done|]. by eapply run_next.
  - injection Hrun as <- <-. exists [evs]. cbn. rewrite app_nil_r.
    split; [done|]. by eapply run_abort.
  - by destruct (post_no_panic _ _ _ _ _ _ _ _ Hpost).
Qed.

Lemma run_iteration providers l i fnames res chunks r :
  run fileSpecs opts providers l i fnames res chunks r ->
  forall e, e ∈ concat chunks -> i <= event_iteration e.
Proof.
  induction 1 as [i res|i fname fnames sp res res' evs chunks r Hsp Hpost Hrun IH
                 |i fname fnames sp res evs e0 Hsp Hpost]; intros e Hin; cbn in Hin.
  - by apply elem_of_nil in Hin.
  - apply elem_of_app in Hin as [Hin|Hin].
    + pose proof (proj1 (Forall_forall _ _) (post_events _ _ _ _ _ _ _ _ Hpost) _ Hin) as Hfor.
      destruct e; cbn in *; lia.
    + apply IH in Hin. lia.
  - rewrite app_nil_r in Hin.
    pose proof (proj1 (Forall_forall _ _) (post_events _ _ _ _ _ _ _ _ Hpost) _ Hin) as Hfor.
    destruct e; cbn in *; lia.
Qed.

Lemma event_for_iteration i sp e : event_for i sp e -> event_iteration e = i.
Proof. destruct e; cbn; tauto. Qed.

(** Every call on record belongs to one iteration, which made all the
    calls that carry its index and either ended normally or ended the
    run. *)
Lemma run_event providers l i fnames res chunks r :
  run fileSpecs opts providers l i fnames res chunks r ->
  forall e, e ∈ concat chunks ->
  exists k fname sp res_k evs r_k,
    event_iteration e = i + k
    /\ fnames !! k = Some fname /\ fileSpecs !! fname = Some sp
    /\ e ∈ evs
    /\ body_post opts providers l (i + k) sp res_k evs r_k
    /\ (forall e', e' ∈ evs -> e' ∈ concat chunks)
    /\ (forall e', e' ∈ concat chunks -> event_iteration e' = i + k -> e' ∈ evs)
    /\ ((exists res', r_k = Ret res')
        \/ (r_k = r /\ exists front, concat chunks = front ++ evs)).
Proof.
  induction 1 as [i res|i fname fnames sp res res' evs chunks r Hsp Hpost Hrun IH
                 |i fname fnames sp res evs e0 Hsp Hpost]; intros e Hin; cbn in Hin.
  - by apply elem_of_nil in Hin.
  - pose proof (post_events _ _ _ _ _ _ _ _ Hpost) as Hfor.
    apply elem_of_app in Hin as [Hin|Hin].
    + exists 0, fname, sp, res, evs, (Ret res'). rewrite Nat.add_0_r.
      split; [eapply event_for_iteration, Forall_forall; eauto|].
      do 4 (split; [done|]).
      split; [intros e' He'; cbn; apply elem_of_app; by left|].
      split; [|left; eauto].
      intros e' Hin' Hit. cbn in Hin'. apply elem_of_app in Hin' as [Hin'|Hin']; [done|].
      eapply run_iteration in Hin'; [|done]. lia.
    + destruct (IH _ Hin) as (k & fname' & sp' & res_k & evs' & r_k & Hit & Hk & Hsp' & Hin'
                              & Hpost' & Hsub & Hall & Hend).
      exists (S k), fname', sp', res_k, evs', r_k.
      replace (i + S k) with (S i + k) by lia.
      do 5 (split; [done|]).
      split; [intros e' He'; cbn; apply elem_of_app; right; by apply Hsub|].
      split.
      * intros e' He' Hit'. cbn in He'. apply elem_of_app in He' as [He'|He']; [|by apply Hall].
        pose proof (event_for_iteration _ _ _ (proj1 (Forall_forall _ _) Hfor _ He')). lia.
      * destruct Hend as [Hret|[-> [front Hfront]]]; [by left|right].
        split; [done|]. exists (evs ++ front). cbn. by rewrite Hfront, app_assoc.
  - rewrite app_nil_r in Hin.
    pose proof (post_events _ _ _ _ _ _ _ _ Hpost) as Hfor.
    exists 0, fname, sp, res, evs, (Raise e0). rewrite Nat.add_0_r.
    split; [eapply event_for_iteration, Forall_forall; eauto|].
    do 4 (split; [done|]).
    split; [intros e' He'; cbn; by rewrite app_nil_r|].
    split.
    + intros e' Hin' _. cbn in Hin'. by rewrite app_nil_r in Hin'.
    + right. split; [done|]. exists []. cbn. by rewrite app_nil_r.
Qed.

Lemma map_keys_lookup {A} (m : gmap string A) :
  Forall (fun f => is_Some (m !! f)) (map_keys m).
Proof.
  apply Forall_forall. intros f Hin. unfold map_keys in Hin.
  apply list_elem_of_fmap in Hin as ([f' x] & -> & Hin).
  apply elem_of_map_to_list in Hin. by exists x.
Qed.

Lemma Download_ranged_run range d cache r final :
  Forall (fun f => is_Some (fileSpecs !! f)) range ->
  Download_ranged fileSpecs opts range d cache = (r, final) ->
  (final = (d, cache, []) /\ exists e, r = Raise e)
  \/ (exists d0 c0 chunks st',
        d = Some d0 /\ cache = Some c0
        /\ effective_providers opts d0 <> []
        /\ final = (Some (st_d st'), Some (st_cache st'), concat chunks)
        /\ run fileSpecs opts (effective_providers opts d0)
             (length (sort_Strings range)) 0 (sort_Strings range)
             {| PackagesToBeInstalled := [] |} chunks r).
Proof.
  intros Hall. unfold Download_ranged.
  destruct d as [d0|]; [|intros [= <- <-]; left; eauto].
  destruct cache as [c0|]; [|intros [= <- <-]; left; eauto].
  fold (effective_providers opts d0).
  destruct (length (effective_providers opts d0) =? 0) eqn:Hlen.
  { intros [= <- <-]; left; eauto. }
  destruct (specs_loop _ _ _ _ _ _ _ _) as [r0 st'] eqn:Hloop.
  intros [= <- <-]. right.
  apply specs_loop_run in Hloop as (chunks & Hlog & Hrun).
  2:{ unfold sort_Strings. by rewrite merge_sort_Permutation. }
  cbn in Hlog. exists d0, c0, chunks, st'. rewrite Hlog.
  split; [done|]. split; [done|]. split; [|done].
  intros Hnil. by rewrite Hnil in Hlen.
Qed.

Lemma run_covers providers l i fnames res chunks r :
  run fileSpecs opts providers l i fnames res chunks r ->
  forall res', r = Ret res' ->
    (forall x, x ∈ PackagesToBeInstalled res -> x ∈ PackagesToBeInstalled res')
    /\ forall fname sp, fname ∈ fnames -> fileSpecs !! fname = Some sp ->
         sp ∈ PackagesToBeInstalled res'
         \/ (SkipInstalled opts = true
             /\ exists i', EvIsPackageVersionInstalled i' sp (true, None)
                             ∈ concat chunks).
Proof.
  induction 1 as [i res|i fname fnames sp res res0 evs chunks r Hsp Hpost Hrun IH
                 |i fname fnames sp res evs e0 Hsp Hpost]; intros res' Hr.
  - injection Hr as <-. split; [done|]. intros ?? Hin. by apply elem_of_nil in Hin.
  - destruct (IH _ Hr) as [Hmono Hcov].
    assert (Hstep : forall x, x ∈ PackagesToBeInstalled res ->
                              x ∈ PackagesToBeInstalled res0).
    { intros x Hx. destruct (post_result _ _ _ _ _ _ _ _ Hpost _ eq_refl)
        as [[-> _]|[-> _]]; [|done]. cbn. apply elem_of_app. by left. }
    split; [auto|].
    intros fname' sp' Hin Hsp'. apply elem_of_cons in Hin as [->|Hin].
    + assert (sp' = sp) as -> by congruence.
      destruct (post_result _ _ _ _ _ _ _ _ Hpost _ eq_refl) as [[-> _]|[_ Hinst]].
      * left. apply Hmono. cbn. apply elem_of_app. right. apply list_elem_of_here.
      * right. split; [by apply (post_installed _ _ _ _ _ _ _ _ Hpost)|].
        exists i. cbn. apply elem_of_app. by left.
    + destruct (Hcov _ _ Hin Hsp') as [?|[? [i' Hi']]]; [by left|right].
      split; [done|]. exists i'. cbn. apply elem_of_app. by right.
  - discriminate.
Qed.

Lemma run_kept providers l i fnames res chunks r :
  run fileSpecs opts providers l i fnames res chunks r ->
  forall res', r = Ret res' ->
    exists kept, kept `sublist_of` fnames
      /\ PackagesToBeInstalled res'
         = PackagesToBeInstalled res ++ omap (fun f => fileSpecs !! f) kept.
Proof.
  induction 1 as [i res|i fname fnames sp res res0 evs chunks r Hsp Hpost Hrun IH
                 |i fname fnames sp res evs e0 Hsp Hpost]; intros res' Hr.
  - injection Hr as <-. exists []. rewrite app_nil_r. split; [constructor|done].
  - destruct (IH _ Hr) as (kept & Hsub & ->).
    destruct (post_result _ _ _ _ _ _ _ _ Hpost _ eq_refl) as [[-> _]|[-> _]].
    + exists (fname :: kept). split; [by constructor|].
      cbn. rewrite Hsp. cbn. by rewrite <- app_assoc.
    + exists kept. split; [by constructor|done].
  - discriminate.
Qed.

Lemma run_iterations_sorted providers l i fnames res chunks r :
  run fileSpecs opts providers l i fnames res chunks r ->
  StronglySorted le (event_iteration <$> concat chunks).
Proof.
  assert (Hconst : forall i sp evs, Forall (event_for i sp) evs ->
            StronglySorted le (event_iteration <$> evs)
            /\ forall x, x ∈ event_iteration <$> evs -> x = i).
  { intros i0 sp evs. induction 1 as [|e evs He Hevs [IH1 IH2]]; cbn.
    - split; [constructor|]. intros x Hx. by apply elem_of_nil in Hx.
    - apply event_for_iteration in He. split.
      + constructor; [done|]. apply Forall_forall. intros x Hx.
        apply IH2 in Hx. lia.
      + intros x Hx. apply elem_of_cons in Hx as [->|Hx]; auto. }
  induction 1 as [i res|i fname fnames sp res res0 evs chunks r Hsp Hpost Hrun IH
                 |i fname fnames sp res evs e0 Hsp Hpost]; cbn.
  - constructor.
  - destruct (Hconst _ _ _ (post_events _ _ _ _ _ _ _ _ Hpost)) as [Hs Hc].
    rewrite fmap_app. apply StronglySorted_app_2; [|done..].
    intros x1 x2 Hx1 Hx2. apply Hc in Hx1 as ->.
    apply list_elem_of_fmap in Hx2 as (e & -> & He).
    eapply run_iteration in He; [|done]. lia.
  - rewrite app_nil_r.
    by destruct (Hconst _ _ _ (post_events _ _ _ _ _ _ _ _ Hpost)).
Qed.
Lemma reported_installed_app log1 log2 i :
  reported_installed (log1 ++ log2) i
  = reported_installed log1 i || reported_installed log2 i.
Proof. unfold reported_installed. apply existsb_app. Qed.

Lemma reported_installed_other log i :
  (forall e, e ∈ log -> event_iteration e <> i) ->
  reported_installed log i = false.
Proof.
  intros Hother. unfold reported_installed.
  induction log as [|e log IH]; [done|]. cbn.
  rewrite IH by (intros e' He'; apply Hother; by right).
  rewrite orb_false_r.
  assert (He : event_iteration e <> i) by (apply Hother; by left).
  destruct e as [i' sp [[] []]| | | | |]; cbn in *; try done.
  by apply Nat.eqb_neq.
Qed.

Lemma reported_installed_iteration i sp evs :
  Forall (event_for i sp) evs ->
  reported_installed evs i = true
  <-> EvIsPackageVersionInstalled i sp (true, None) ∈ evs.
Proof.
  induction 1 as [|e evs He Hevs IH].
  { split; [done|]. intros Hin. by apply elem_of_nil in Hin. }
  unfold reported_installed in *. cbn [existsb].
  rewrite orb_true_iff, IH, elem_of_cons.
  destruct e as [i' sp' [[] [err|]]| | | | |]; cbn in *;
    try (split; [by intros [?|?]; [|right]|by intros [?|?]; [|right]]).
  destruct He as [-> ->]. rewrite Nat.eqb_refl. split; by left.
Qed.

(** The result list after a run that ended normally. *)
Lemma run_result providers l i fnames res chunks r :
  run fileSpecs opts providers l i fnames res chunks r ->
  forall res' pre, r = Ret res' ->
    (forall e, e ∈ pre -> event_iteration e < i) ->
    PackagesToBeInstalled res'
    = PackagesToBeInstalled res
      ++ kept_specs fileSpecs (pre ++ concat chunks) i fnames.
Proof.
  induction 1 as [i res|i fname fnames sp res res0 evs chunks r Hsp Hpost Hrun IH
                 |i fname fnames sp res evs e0 Hsp Hpost]; intros res' pre Hr Hpre.
  - injection Hr as <-. cbn. by rewrite app_nil_r.
  - pose proof (post_events _ _ _ _ _ _ _ _ Hpost) as Hfor.
    assert (Hevs : forall e, e ∈ evs -> event_iteration e = i).
    { intros e He. eapply event_for_iteration, Forall_forall; eauto. }
    cbn [concat kept_specs]. rewrite !reported_installed_app.
    rewrite (reported_installed_other pre) by (intros e He; apply Hpre in He; lia).
    rewrite (reported_installed_other (concat chunks))
      by (intros e He; eapply run_iteration in He; [|done]; lia).
    rewrite orb_false_l, orb_false_r.
    rewrite (IH res' (pre ++ evs)); [|done|].
    2:{ intros e He. apply elem_of_app in He as [He|He]; [apply Hpre in He; lia|].
        apply Hevs in He. lia. }
    rewrite <- (app_assoc pre evs), Hsp. cbn [option_list].
    pose proof (reported_installed_iteration i sp evs Hfor) as Hrep.
    destruct (post_result _ _ _ _ _ _ _ _ Hpost _ eq_refl) as [[-> Hno]|[-> Hyes]].
    + destruct (reported_installed evs i); [by destruct Hno; apply Hrep|].
      cbn. by rewrite <- app_assoc.
    + apply Hrep in Hyes. by rewrite Hyes.
  - discriminate.
Qed.
End downloader_facts.

Lemma sort_Strings_Permutation l1 l2 :
  l1 ≡ₚ l2 -> sort_Strings l1 = sort_Strings l2.
Proof.
  intros Hp. unfold sort_Strings.
  apply (Sorted_unique String.le); try apply Sorted_merge_sort; try apply _.
  by rewrite !merge_sort_Permutation.
Qed.

Lemma sort_Strings_strict l :
  NoDup l -> StronglySorted (strict String.le) (sort_Strings l).
Proof.
  intros Hnd. unfold sort_Strings.
  assert (Hs : StronglySorted String.le (merge_sort String.le l)).
  { apply StronglySorted_merge_sort; apply _. }
  assert (Hnd' : NoDup (merge_sort String.le l)).
  { by rewrite merge_sort_Permutation. }
  induction Hs as [|x k Hk IH Hx]; [constructor|].
  apply NoDup_cons in Hnd' as [Hnotin Hnd'].
  constructor; [auto|].
  apply Forall_forall. intros y Hy.
  pose proof (proj1 (Forall_forall _ _) Hx _ Hy) as Hle.
  split; [done|]. intros Hge.
  assert (x = y) as -> by by apply (anti_symm String.le). done.
Qed.

Section downloader_options.
Import downloader.
Context {D C : Type} `{!distro.Distro D} `{!cache.Cache C} `{!FileSpecURL}.
Variable fileSpecs : gmap string filespec.FileSpec.

(** The loop reads [opts] for [SkipInstalled] only. *)
Lemma specs_loop_opts opts opts' providers l fnames :
  SkipInstalled opts = SkipInstalled opts' ->
  forall i res (st : State D C),
    specs_loop fileSpecs opts providers l i fnames res st
    = specs_loop fileSpecs opts' providers l i fnames res st.
Proof.
  intros Hskip. induction fnames as [|fname fnames IH]; intros i res st; [done|].
  cbn. unfold bind.
  assert (Hbody : loop_body fileSpecs opts providers l i fname res st
                  = loop_body fileSpecs opts' providers l i fname res st).
  { unfold loop_body, check_installed. by rewrite Hskip. }
  rewrite Hbody. destruct (loop_body fileSpecs opts' providers l i fname res st)
    as [[res'|e|] st'] eqn:Hb; [apply IH|done..].
Qed.
End downloader_options.

Section downloader_properties.
Import downloader.
Context {D C : Type} `{!distro.Distro D} `{!cache.Cache C} `{!FileSpecURL}.
Variable fileSpecs : gmap string filespec.FileSpec.
Variable opts : Opts.

(** The calls on record after [Download], with the iteration each one
    belongs to. *)
Lemma Download_event d cache r final e :
  Download fileSpecs opts d cache = (r, final) ->
  e ∈ final.2 ->
  exists d0 c0 fname sp res_k evs r_k,
    d = Some d0 /\ cache = Some c0
    /\ sort_Strings (map_keys fileSpecs) !! event_iteration e = Some fname
    /\ fileSpecs !! fname = Some sp
    /\ e ∈ evs
    /\ body_post opts (effective_providers opts d0)
         (length (sort_Strings (map_keys fileSpecs)))
         (event_iteration e) sp res_k evs r_k
    /\ (forall e', e' ∈ evs -> e' ∈ final.2)
    /\ (forall e', e' ∈ final.2 -> event_iteration e' = event_iteration e -> e' ∈ evs)
    /\ ((exists res', r_k = Ret res')
        \/ (r_k = r /\ exists front, final.2 = front ++ evs)).
Proof.
  intros Hdl Hin.
  apply Download_ranged_run in Hdl
    as [[-> _]|(d0 & c0 & chunks & st' & -> & -> & Hps & -> & Hrun)];
    [by apply elem_of_nil in Hin| |apply map_keys_lookup].
  cbn in Hin.
  edestruct run_event
    as (k & fname & sp & res_k & evs & r_k & Hit & Hk & Hsp & Hin' & Hpost & Hsub & Hall & Hend);
    [exact Hrun|exact Hin|].
  cbn in Hit. subst k. exists d0, c0, fname, sp, res_k, evs, r_k. done.
Qed.

Lemma run_no_panic providers l i fnames res chunks r :
  run fileSpecs opts providers l i fnames res chunks r -> r <> Panic.
Proof. induction 1; done. Qed.

(** Every name [Download] looks up is a key of the map: [sp] is never
    nil, and [Download] returns a result or an error. *)
Lemma Download_no_panic (d : option D) (cache : option C) r final :
  Download fileSpecs opts d cache = (r, final) -> r <> Panic.
Proof.
  intros Hdl.
  apply Download_ranged_run in Hdl
    as [[_ [e ->]]|(d0 & c0 & chunks & st' & _ & _ & _ & _ & Hrun)];
    [done| |apply map_keys_lookup].
  by eapply run_no_panic.
Qed.

(** C1, as amended.  When [Download] returns without error, the result
    list [PackagesToBeInstalled] holds the requested file specs in the
    order of their file names, without those that the driver reported
    as installed: every requested spec is in the list unless
    [SkipInstalled] is set and the driver reported it as installed. *)
Theorem Download_result_covers_specs_not_installed d cache res final :
  Download fileSpecs opts d cache = (Ret res, final) ->
  PackagesToBeInstalled res
  = kept_specs fileSpecs final.2 0 (sort_Strings (map_keys fileSpecs))
  /\ forall fname sp, fileSpecs !! fname = Some sp ->
       sp ∈ PackagesToBeInstalled res
       \/ (SkipInstalled opts = true
           /\ exists i, EvIsPackageVersionInstalled i sp (true, None) ∈ final.2).
Proof.
  intros Hdl.
  apply Download_ranged_run in Hdl
    as [[_ [e He]]|(d0 & c0 & chunks & st' & -> & -> & Hps & -> & Hrun)];
    [discriminate| |apply map_keys_lookup].
  split.
  - erewrite (run_result fileSpecs opts _ _ _ _ _ _ _ Hrun res []); [done..|].
    intros e He. by apply elem_of_nil in He.
  - intros fname sp Hsp.
    edestruct run_covers as [_ Hcov]; [exact Hrun|reflexivity|].
    apply (Hcov fname sp); [|done].
    unfold sort_Strings. rewrite merge_sort_Permutation. unfold map_keys.
    apply list_elem_of_fmap. exists (fname, sp). split; [done|].
    by apply elem_of_map_to_list.
Qed.

(** C3.  In any run of [Download], a failed fetch from provider [j]
    for the spec of iteration [i] is followed by the next provider
    when there is one (its URL is resolved, and fetched from if it
    resolves); when provider [j] is the last one, the failed fetch is
    the last call on record and [Download] returns the error, without
    a result. *)
Theorem Download_provider_fallback (d0 : D) (c0 : C) r final :
  Download fileSpecs opts (Some d0) (Some c0) = (r, final) ->
  forall i j u sha256 err, EvEnsure i j u sha256 (Some err) ∈ final.2 ->
    let providers := effective_providers opts d0 in
    exists fname sp,
      sort_Strings (map_keys fileSpecs) !! i = Some fname
      /\ fileSpecs !! fname = Some sp /\ sha256 = filespec.SHA256 sp
      /\ j < length providers
      /\ (S j < length providers ->
           exists provider, providers !! S j = Some provider
             /\ EvURL i (S j) provider (FileSpec_URL sp provider) ∈ final.2
             /\ forall u', FileSpec_URL sp provider = inl u' ->
                  exists r', EvEnsure i (S j) u' (filespec.SHA256 sp) r' ∈ final.2)
      /\ (S j = length providers ->
           r = Raise (download_error sp u err)
           /\ exists log0, final.2 = log0 ++ [EvEnsure i j u sha256 (Some err)]).
Proof.
  intros Hdl i j u sha err Hin providers.
  destruct (Download_event _ _ _ _ _ Hdl Hin)
    as (d1 & c1 & fname & sp & res_k & evs & r_k & [= <-] & [= <-] & Hk & Hsp
        & Hin' & Hpost & Hsub & Hall & Hend).
  cbn [event_iteration] in *. fold providers in Hpost.
  exists fname, sp. split; [done|]. split; [done|].
  pose proof (proj1 (Forall_forall _ _) (post_events _ _ _ _ _ _ _ _ Hpost) _ Hin')
    as [_ ->].
  split; [done|].
  destruct (post_fetch_failed _ _ _ _ _ _ _ _ Hpost _ _ _ _ Hin') as (Hlt & Hnext & Hlast).
  split; [done|]. split.
  - intros Hlt'. destruct (Hnext Hlt') as (p & Hp & Hurl).
    exists p. split; [done|]. split; [by apply Hsub|].
    intros u' Hu'. rewrite Hu' in Hurl.
    destruct (post_resolved _ _ _ _ _ _ _ _ Hpost _ _ _ Hurl) as [r' Hr'].
    exists r'. by apply Hsub.
  - intros Heq. destruct (Hlast Heq) as (-> & evs0 & ->).
    destruct Hend as [[res' [=]]|[<- [front ->]]].
    split; [done|]. exists (front ++ evs0). by rewrite app_assoc.
Qed.

(** C10.  In any run of [Download], when resolving the URL of the spec
    of iteration [i] against a provider fails, [Download] returns the
    URL error and that resolution is the last call on record: no later
    provider is tried for the spec and no later spec is processed. *)
Theorem Download_url_failure_aborts (d0 : D) (c0 : C) r final :
  Download fileSpecs opts (Some d0) (Some c0) = (r, final) ->
  forall i j provider err, EvURL i j provider (inr err) ∈ final.2 ->
    exists fname sp,
      sort_Strings (map_keys fileSpecs) !! i = Some fname
      /\ fileSpecs !! fname = Some sp
      /\ FileSpec_URL sp provider = inr err
      /\ r = Raise (url_error sp provider)
      /\ (exists log0, final.2 = log0 ++ [EvURL i j provider (inr err)])
      /\ (forall j' provider' r', EvURL i j' provider' r' ∈ final.2 -> j' <= j).
Proof.
  intros Hdl i j provider err Hin.
  destruct (Download_event _ _ _ _ _ Hdl Hin)
    as (d1 & c1 & fname & sp & res_k & evs & r_k & [= <-] & [= <-] & Hk & Hsp
        & Hin' & Hpost & Hsub & Hall & Hend).
  cbn [event_iteration] in *.
  exists fname, sp. split; [done|]. split; [done|].
  pose proof (proj1 (Forall_forall _ _) (post_events _ _ _ _ _ _ _ _ Hpost) _ Hin')
    as [_ Hurl].
  split; [done|].
  destruct (post_url_failed _ _ _ _ _ _ _ _ Hpost _ _ _ Hin') as (-> & [evs0 ->] & Hmax).
  destruct Hend as [[res' [=]]|[<- [front Hfront]]].
  split; [done|]. split.
  - exists (front ++ evs0). by rewrite Hfront, app_assoc.
  - intros j' p' r' Hin2. eapply Hmax. apply Hall; [exact Hin2|done].
Qed.

(** C6.  With [SkipInstalled] set, an iteration whose spec the driver
    reports as installed returns at once, leaving the result list and
    the cache as they were; and in any run of [Download], the
    iteration of a spec reported as installed makes no call to the
    cache and none to a provider. *)
Theorem Download_installed_spec_no_cache_access :
  (forall providers l i fname sp res (st : State D C) d',
     fileSpecs !! fname = Some sp ->
     SkipInstalled opts = true ->
     distro.IsPackageVersionInstalled (st_d st) sp = ((true, None), d') ->
     loop_body fileSpecs opts providers l i fname res st
     = (Ret res,
        {| st_d := d'; st_cache := st_cache st;
           st_log := st_log st ++ already_installed_events i l sp |}))
  /\ (forall d cache r final,
        Download fileSpecs opts d cache = (r, final) ->
        forall i sp, EvIsPackageVersionInstalled i sp (true, None) ∈ final.2 ->
          SkipInstalled opts = true
          /\ forall e, e ∈ final.2 -> event_iteration e = i ->
               is_cache_or_network e = false).
Proof.
  split.
  - intros providers l i fname sp res st d' Hsp Hskip Hinst.
    unfold loop_body. rewrite Hsp. unfold bind at 1, check_installed.
    rewrite Hskip. unfold bind, call_IsPackageVersionInstalled, printPackageStatus,
      emit, ret, log_add. rewrite Hinst. cbn. by rewrite <- app_assoc.
  - intros d cache r final Hdl i sp Hin.
    destruct (Download_event _ _ _ _ _ Hdl Hin)
      as (d1 & c1 & fname & sp' & res_k & evs & r_k & -> & -> & Hk & Hsp
          & Hin' & Hpost & Hsub & Hall & Hend).
    cbn [event_iteration] in *.
    pose proof (proj1 (Forall_forall _ _) (post_events _ _ _ _ _ _ _ _ Hpost) _ Hin')
      as [_ ->].
    destruct (post_installed _ _ _ _ _ _ _ _ Hpost Hin') as (Hskip & -> & _).
    split; [done|]. intros e He Hit. specialize (Hall _ He Hit).
    unfold already_installed_events in Hall. in_cases Hall; by subst e.
Qed.

(** C5, as amended.  When [opts.Providers] is empty and the driver has
    no default providers either, [Download] returns an error without
    having made any call: the driver and the cache are untouched and
    nothing is on record.  When [opts.Providers] is empty and the driver
    has default providers, [Download] works with those, as if they had
    been given in the options. *)
Theorem Download_no_provider_is_error (d : option D) (cache : option C) :
  Providers opts = [] ->
  ((forall d0, d = Some d0 ->
      distro.DefaultProviders (distro.GetInfo d0) = []) ->
   exists e,
     Download fileSpecs opts d cache = (Raise e, (d, cache, []))
     /\ (is_Some d -> is_Some cache ->
          e = errors_New "provider needs to be specified"))
  /\ (forall d0, d = Some d0 ->
        Download fileSpecs opts d cache
        = Download fileSpecs
            {| Providers := distro.DefaultProviders (distro.GetInfo d0);
               SkipInstalled := SkipInstalled opts |} d cache).
Proof.
  intros Hp. split.
  - intros Hdef. unfold Download, Download_ranged.
    destruct d as [d0|].
    2:{ eexists. split; [reflexivity|]. by intros [? [=]]. }
    destruct cache as [c0|].
    2:{ eexists. split; [reflexivity|]. by intros _ [? [=]]. }
    rewrite Hp. cbn. rewrite (Hdef d0 eq_refl). cbn.
    eexists. split; [reflexivity|]. done.
  - intros d0 ->. unfold Download, Download_ranged.
    destruct cache as [c0|]; [|done].
    rewrite Hp. cbn [length Nat.eqb Providers].
    destruct (distro.DefaultProviders (distro.GetInfo d0)) as [|p ps]; [done|].
    cbn [length Nat.eqb].
    by rewrite (specs_loop_opts fileSpecs opts
                  {| Providers := p :: ps; SkipInstalled := SkipInstalled opts |}).
Qed.

End downloader_properties.

Ltac count_ensure :=
  repeat first [rewrite filter_cons_True by done | rewrite filter_cons_False by done];
  rewrite ?filter_nil; cbn [length]; lia.

Section downloader_calls.
Import downloader.
Context {D C : Type} `{!distro.Distro D} `{!cache.Cache C} `{!FileSpecURL}.

Lemma providers_loop_calls i l sp n rest : forall j (st : State D C) r st',
  n = j + length rest ->
  providers_loop i l sp n j rest st = (r, st') ->
  exists evs, st_log st' = st_log st ++ evs /\ fetch_calls i sp j rest evs r.
Proof.
  induction rest as [|provider rest IH]; intros j st r st' Hn Hrun.
  { cbn in Hrun. injection Hrun as <- <-. exists []. rewrite app_nil_r.
    split; [done|]. split.
    - intros e Hin. by apply elem_of_nil in Hin.
    - intros ???? Hin. by apply elem_of_nil in Hin.
    - intros ????? Hin. by apply elem_of_nil in Hin.
    - intros ???? Hin. by apply elem_of_nil in Hin.
    - intros ???? Hin. by apply elem_of_nil in Hin.
    - by left.
    - discriminate.
    - done. }
  cbn in Hn. rewrite providers_loop_cons in Hrun.
  destruct (FileSpec_URL sp provider) as [u|uerr] eqn:Hurl.
  2:{ injection Hrun as <- <-. eexists. split; [reflexivity|]. split.
      - intros e Hin. in_cases Hin. subst e. done.
      - intros ???? Hin. in_cases Hin. injection Hin as -> -> -> ->.
        split; [lia|]. by rewrite Nat.sub_diag.
      - intros ????? Hin. in_cases Hin. discriminate.
      - intros ???? Hin. in_cases Hin. injection Hin as -> -> -> ->. lia.
      - intros ???? Hin. in_cases Hin. discriminate.
      - discriminate.
      - intros e [= <-]. exists []. left. eauto.
      - count_ensure. }
  destruct (cache.Ensure (st_cache st) u (filespec.SHA256 sp)) as [[err|] c'] eqn:Hens;
    cbn zeta in Hrun.
  2:{ injection Hrun as <- <-. eexists. split; [reflexivity|]. split.
      - intros e Hin. in_cases Hin; subst e; done.
      - intros ???? Hin. in_cases Hin; try discriminate. injection Hin as -> -> -> ->.
        split; [lia|]. by rewrite Nat.sub_diag.
      - intros ????? Hin. in_cases Hin; try discriminate.
        injection Hin as -> -> -> -> ->.
        split; [lia|]. exists provider. rewrite Nat.sub_diag.
        split; [done|]. split; [done|]. apply list_elem_of_here.
      - intros ???? Hin. in_cases Hin; try discriminate.
        injection Hin as -> -> -> ->. lia.
      - intros ???? Hin. in_cases Hin; try discriminate.
        injection Hin as -> -> -> ->. split; [done|]. split; [by eexists [_; _]|].
        intros ???? Hin. in_cases Hin; try discriminate. by injection Hin as -> -> -> ->.
      - intros _. right. exists j, u. do 2 apply list_elem_of_further.
        apply list_elem_of_here.
      - discriminate.
      - count_ensure. }
  set (failed := EvEnsure i j u (filespec.SHA256 sp) (Some err)) in *.
  destruct (Z.eqb_spec (Z.of_nat j) (Z.of_nat n - 1)) as [Hlast|Hmore]; cbn [negb] in Hrun.
  { injection Hrun as <- <-. eexists. split; [reflexivity|]. split.
    - intros e Hin. in_cases Hin; subst e; done.
    - intros ???? Hin. in_cases Hin; try discriminate. injection Hin as -> -> -> ->.
      split; [lia|]. by rewrite Nat.sub_diag.
    - intros ????? Hin. in_cases Hin; try discriminate.
      injection Hin as -> -> -> -> ->.
      split; [lia|]. exists provider. rewrite Nat.sub_diag.
      split; [done|]. split; [done|]. apply list_elem_of_here.
    - intros ???? Hin. in_cases Hin; try discriminate.
      injection Hin as -> -> -> ->. lia.
    - intros ???? Hin. in_cases Hin; discriminate.
    - discriminate.
    - intros e [= <-]. eexists [_; _]. right. exists u, err. split; [|done].
      replace (j + length (provider :: rest) - 1) with j by (cbn [length]; lia).
      done.
    - count_ensure. }
  apply IH in Hrun as (evs & Hlog & Hcalls); [|lia].
  cbn in Hlog. rewrite <- !app_assoc in Hlog. eexists. split; [exact Hlog|].
  destruct Hcalls as [Hno Hu He Hearlier Hsucc Hret Hraise Hcount].
  split.
  - intros e Hin. cbn in Hin. in_cases Hin; try (subst e; done). by apply Hno.
  - intros i' j' p' r' Hin. cbn in Hin. in_cases Hin; try discriminate.
    + injection Hin as -> -> -> ->. split; [lia|]. by rewrite Nat.sub_diag.
    + destruct (Hu _ _ _ _ Hin) as [Hle Hp]. split; [lia|].
      by replace (j' - j) with (S (j' - S j)) by lia.
  - intros i' j' u' sha' r' Hin. cbn in Hin. in_cases Hin; try discriminate.
    + injection Hin as -> -> -> -> ->. split; [lia|]. exists provider.
      rewrite Nat.sub_diag. split; [done|]. split; [done|]. apply list_elem_of_here.
    + destruct (He _ _ _ _ _ Hin) as [Hle (p & Hp & Hpu & Hin')]. split; [lia|].
      exists p. replace (j' - j) with (S (j' - S j)) by lia.
      split; [done|]. split; [done|]. cbn. by do 4 apply list_elem_of_further.
  - intros i' j' p' r' Hin j'' Hj''. cbn in Hin. in_cases Hin; try discriminate.
    + injection Hin as -> -> -> ->. lia.
    + destruct (decide (j'' = j)) as [->|Hne].
      * exists u, err. cbn. do 2 apply list_elem_of_further. apply list_elem_of_here.
      * destruct (Hearlier _ _ _ _ Hin j'') as (u' & err' & Hin'); [lia|].
        exists u', err'. cbn. by do 4 apply list_elem_of_further.
  - intros i' j' u' sha' Hin. cbn in Hin. in_cases Hin; try discriminate.
    destruct (Hsucc _ _ _ _ Hin) as (-> & [evs0 ->] & Hmax).
    split; [done|]. split; [by eexists (_ :: _ :: _ :: _ :: evs0)|].
    intros i'' j'' p'' r'' Hin'. cbn in Hin'. in_cases Hin'; try discriminate.
    + injection Hin' as -> -> -> ->.
      destruct (He _ _ _ _ _ Hin). lia.
    + eapply Hmax. apply elem_of_app. by left.
  - intros Hr. right. destruct (Hret Hr) as [->|(j' & u' & Hin)].
    + cbn in Hn. lia.
    + exists j', u'. cbn. by do 4 apply list_elem_of_further.
  - intros e He'. destruct (Hraise _ He') as (evs0 & Hcase).
    eexists (_ :: _ :: _ :: _ :: evs0).
    destruct Hcase as [(j' & p' & err' & -> & ->)|(u' & err' & -> & ->)].
    + left. eauto.
    + right. exists u', err'. split; [|done].
      replace (j + length (provider :: rest) - 1) with (S j + length rest - 1)
        by (cbn [length]; lia).
      done.
  - subst failed. cbn [app]. count_ensure.
Qed.
End downloader_calls.

Section downloader_iterations.
Import downloader.
Context {D C : Type} `{!distro.Distro D} `{!cache.Cache C} `{!FileSpecURL}.
Variable fileSpecs : gmap string filespec.FileSpec.
Variable opts : Opts.

Lemma check_installed_off l i sp (st : State D C) :
  SkipInstalled opts = false ->
  check_installed opts l i sp st = (Ret false, st).
Proof. intros Hoff. unfold check_installed. by rewrite Hoff. Qed.

(** What the check against the driver leaves on record: the answer,
    then a warning when the answer came with an error, or the line
    "Already installed" when it was a clean yes. *)
Lemma check_installed_log l i sp (st : State D C) :
  SkipInstalled opts = true ->
  let '(ri, d') := distro.IsPackageVersionInstalled (st_d st) sp in
  exists w,
    check_installed opts l i sp st
    = (Ret (clean_yes ri),
       {| st_d := d'; st_cache := st_cache st;
          st_log := st_log st ++ EvIsPackageVersionInstalled i sp ri :: w |})
    /\ Forall (fun e => is_message e = true) w.
Proof.
  intros Hon. unfold check_installed. rewrite Hon.
  unfold bind, call_IsPackageVersionInstalled, printPackageStatus, emit, ret, log_add.
  destruct (distro.IsPackageVersionInstalled (st_d st) sp) as [[b [err|]] d'] eqn:Hinst; cbn.
  - eexists [_]. rewrite <- app_assoc. split; [by destruct b|]. by repeat constructor.
  - destruct b; cbn.
    + eexists [_]. rewrite <- app_assoc. split; [done|]. by repeat constructor.
    + exists []. split; [done|]. constructor.
Qed.

Lemma cached_or_fetch_cases providers l i sp res (st : State D C) r st' :
  cached_or_fetch providers l i sp res st = (r, st') ->
  let rc := cache.Cached (st_cache st) (filespec.SHA256 sp) in
  (rc = (true, None) /\ r = Ret (append_spec res sp)
   /\ st' = log_add st [EvCached i (filespec.SHA256 sp) rc;
                        EvPrintln i l (filespec.Basename sp) "Cached" []])
  \/ (rc <> (true, None)
      /\ exists w r1,
           Forall (fun e => is_message e = true) w
           /\ providers_loop i l sp (length providers) 0 providers
                (log_add st (EvCached i (filespec.SHA256 sp) rc :: w)) = (r1, st')
           /\ r = match r1 with
                  | Ret _ => Ret (append_spec res sp)
                  | Raise e => Raise e
                  | Panic => Panic
                  end).
Proof.
  unfold cached_or_fetch, bind, call_Cached, printPackageStatus, emit, ret, log_add.
  cbn. destruct (cache.Cached (st_cache st) (filespec.SHA256 sp)) as [cached [err|]] eqn:Hc; cbn.
  - intros Hrun. right. split; [done|].
    exists [EvWarnf i err "Failed to check whether %q (%q) is cached"
              [AString (filespec.SHA256 sp); AString (filespec.Basename sp)]].
    destruct (providers_loop _ _ _ _ _ _ _) as [r1 st1] eqn:Hloop.
    exists r1. split; [by repeat constructor|].
    rewrite <- app_assoc in Hloop. cbn in Hloop. rewrite Hloop.
    destruct r1; by injection Hrun as <- <-.
  - destruct cached; cbn.
    + intros [= <- <-]. left. rewrite <- app_assoc. done.
    + intros Hrun. right. split; [done|]. exists [].
      destruct (providers_loop _ _ _ _ _ _ _) as [r1 st1] eqn:Hloop.
      exists r1. split; [constructor|].
      destruct r1; by injection Hrun as <- <-.
Qed.

(** The iterations of a run, each with the call of [loop_body] that
    made it. *)
Lemma specs_loop_exec providers l fnames : forall i res (st : State D C) r st',
  Forall (fun f => is_Some (fileSpecs !! f)) fnames ->
  specs_loop fileSpecs opts providers l i fnames res st = (r, st') ->
  exists chunks, st_log st' = st_log st ++ concat chunks
    /\ run fileSpecs opts providers l i fnames res chunks r
    /\ forall k evs, chunks !! k = Some evs ->
         exists fname sp res_k (st_k : State D C) r_k st_k',
           fnames !! k = Some fname /\ fileSpecs !! fname = Some sp
           /\ loop_body fileSpecs opts providers l (i + k) fname res_k st_k
              = (r_k, st_k')
           /\ st_log st_k' = st_log st_k ++ evs
           /\ (forall res_k' res', r_k = Ret res_k' -> r = Ret res' ->
                forall x, x ∈ PackagesToBeInstalled res_k' ->
                          x ∈ PackagesToBeInstalled res')
           /\ (forall e', r_k = Raise e' ->
                r = Raise e' /\ exists front, st_log st' = front ++ evs).
Proof.
  induction fnames as [|fname fnames IH]; intros i res st r st' Hall Hrun.
  { injection Hrun as <- <-. exists []. cbn. rewrite app_nil_r.
    split; [done|]. split; [constructor|]. intros k evs Hk. done. }
  apply Forall_cons in Hall as [[sp Hsp] Hall].
  cbn in Hrun. unfold bind in Hrun.
  destruct (loop_body _ _ _ _ _ _ _ _) as [r0 st0] eqn:Hbody.
  pose proof Hbody as Hbody'.
  apply (loop_body_post _ _ _ _ _ _ _ _ _ _ _ Hsp) in Hbody' as (evs & Hlog & Hpost).
  destruct r0 as [res0|e|].
  - apply IH in Hrun as (chunks & Hlog' & Hrun' & Hexec); [|done].
    exists (evs :: chunks).
    split; [cbn; by rewrite Hlog', Hlog, <- app_assoc|].
    split; [by eapply run_next|].
    intros [|k] evs' Hk.
    + injection Hk as <-. exists fname, sp, res, st, (Ret res0), st0.
      rewrite Nat.add_0_r. do 4 (split; [done|]). split; [|done].
      intros res_k' res' [= <-] ->.
      by destruct (run_covers _ _ _ _ _ _ _ _ _ Hrun' _ eq_refl).
    + destruct (Hexec k evs' Hk)
        as (fname' & sp' & res_k & st_k & r_k & st_k' & ? & ? & ? & ? & ? & ?).
      exists fname', sp', res_k, st_k, r_k, st_k'.
      by replace (i + S k) with (S i + k) by lia.
  - injection Hrun as <- <-. exists [evs].
    split; [cbn; by rewrite app_nil_r|]. split; [by eapply run_abort|].
    intros [|k] evs' Hk; [|done]. injection Hk as <-.
    exists fname, sp, res, st, (Raise e), st0. rewrite Nat.add_0_r.
    do 4 (split; [done|]). split; [done|]. intros e' [= <-].
    split; [done|]. exists (st_log st). by rewrite Hlog.
  - by destruct (post_no_panic _ _ _ _ _ _ _ _ Hpost).
Qed.

(** The chunk of calls a call on record belongs to. *)
Lemma run_chunk providers l i fnames res chunks r :
  run fileSpecs opts providers l i fnames res chunks r ->
  forall e, e ∈ concat chunks ->
  exists k evs,
    chunks !! k = Some evs /\ e ∈ evs /\ event_iteration e = i + k
    /\ (forall e', e' ∈ evs -> e' ∈ concat chunks)
    /\ (forall e', e' ∈ concat chunks -> event_iteration e' = i + k -> e' ∈ evs).
Proof.
  induction 1 as [i res|i fname fnames sp res res' evs chunks r Hsp Hpost Hrun IH
                 |i fname fnames sp res evs e0 Hsp Hpost]; intros e Hin; cbn in Hin.
  - by apply elem_of_nil in Hin.
  - pose proof (post_events _ _ _ _ _ _ _ _ Hpost) as Hfor.
    apply elem_of_app in Hin as [Hin|Hin].
    + exists 0, evs. rewrite Nat.add_0_r. split; [done|]. split; [done|].
      split; [eapply event_for_iteration, Forall_forall; eauto|].
      split; [intros e' He'; cbn; apply elem_of_app; by left|].
      intros e' Hin' Hit. cbn in Hin'. apply elem_of_app in Hin' as [Hin'|Hin']; [done|].
      eapply run_iteration in Hin'; [|done]. lia.
    + destruct (IH _ Hin) as (k & evs' & Hk & Hin' & Hit & Hsub & Hall).
      exists (S k), evs'. replace (i + S k) with (S i + k) by lia.
      do 3 (split; [done|]).
      split; [intros e' He'; cbn; apply elem_of_app; right; by apply Hsub|].
      intros e' He' Hit'. cbn in He'. apply elem_of_app in He' as [He'|He']; [|by apply Hall].
      pose proof (event_for_iteration _ _ _ (proj1 (Forall_forall _ _) Hfor _ He')). lia.
  - rewrite app_nil_r in Hin.
    pose proof (post_events _ _ _ _ _ _ _ _ Hpost) as Hfor.
    exists 0, evs. rewrite Nat.add_0_r. split; [done|]. split; [done|].
    split; [eapply event_for_iteration, Forall_forall; eauto|].
    split; [intros e' He'; cbn; by rewrite app_nil_r|].
    intros e' Hin' _. cbn in Hin'. by rewrite app_nil_r in Hin'.
Qed.

(** A call on record after [Download], with the call of [loop_body]
    that made it and the other calls of the same iteration. *)
Lemma Download_exec (d0 : D) (c0 : C) r final e :
  Download fileSpecs opts (Some d0) (Some c0) = (r, final) ->
  e ∈ final.2 ->
  let names := sort_Strings (map_keys fileSpecs) in
  let i := event_iteration e in
  exists fname sp res_k (st_k : State D C) r_k st_k' evs,
    names !! i = Some fname /\ fileSpecs !! fname = Some sp
    /\ loop_body fileSpecs opts (effective_providers opts d0) (length names)
         i fname res_k st_k = (r_k, st_k')
    /\ st_log st_k' = st_log st_k ++ evs
    /\ e ∈ evs
    /\ (forall e', e' ∈ evs -> e' ∈ final.2)
    /\ (forall e', e' ∈ final.2 -> event_iteration e' = i -> e' ∈ evs)
    /\ (forall res_k' res', r_k = Ret res_k' -> r = Ret res' ->
         forall x, x ∈ PackagesToBeInstalled res_k' ->
                   x ∈ PackagesToBeInstalled res')
    /\ (forall e', r_k = Raise e' ->
         r = Raise e' /\ exists front, final.2 = front ++ evs).
Proof.
  unfold Download, Download_ranged. fold (effective_providers opts d0).
  destruct (length (effective_providers opts d0) =? 0) eqn:Hlen.
  { intros [= <- <-] Hin. by apply elem_of_nil in Hin. }
  destruct (specs_loop _ _ _ _ _ _ _ _) as [r0 st'] eqn:Hloop.
  intros [= <- <-] Hin. cbn in Hin |- *.
  apply specs_loop_exec in Hloop as (chunks & Hlog & Hrun & Hexec).
  2:{ unfold sort_Strings. rewrite merge_sort_Permutation. apply map_keys_lookup. }
  cbn in Hlog. rewrite Hlog in Hin |- *.
  destruct (run_chunk _ _ _ _ _ _ _ Hrun _ Hin) as (k & evs & Hk & Hin' & Hit & Hsub & Hall).
  cbn in Hit. rewrite Hit.
  destruct (Hexec _ _ Hk)
    as (fname & sp & res_k & st_k & r_k & st_k' & Hf & Hsp & Hbody & Hl & Hmono & Hraise).
  exists fname, sp, res_k, st_k, r_k, st_k', evs. cbn in Hbody.
  rewrite Hlog in Hraise. done.
Qed.

(** One iteration, as the calls it made: the check against the driver
    [drv]; then, unless the spec is skipped, the cache check, and
    unless that is a clean hit, the calls [ftc] of the loop over the
    providers. *)
Lemma loop_body_shape providers l i fname sp res (st : State D C) r st' :
  fileSpecs !! fname = Some sp ->
  loop_body fileSpecs opts providers l i fname res st = (r, st') ->
  let rc := cache.Cached (st_cache st) (filespec.SHA256 sp) in
  exists drv skip,
    check_calls opts i sp drv skip
    /\ (SkipInstalled opts = false -> st_d st' = st_d st)
    /\ (forall ri w, drv = EvIsPackageVersionInstalled i sp ri :: w ->
          ri = (distro.IsPackageVersionInstalled (st_d st) sp).1)
    /\ ((skip = true /\ r = Ret res /\ st_log st' = st_log st ++ drv
         /\ st_cache st' = st_cache st)
        \/ (skip = false /\ rc = (true, None) /\ r = Ret (append_spec res sp)
            /\ st_cache st' = st_cache st
            /\ st_log st' = st_log st ++ drv
                 ++ [EvCached i (filespec.SHA256 sp) rc;
                     EvPrintln i l (filespec.Basename sp) "Cached" []])
        \/ (skip = false /\ rc <> (true, None)
            /\ exists (st0 : State D C) w ftc r1,
                 st_cache st0 = st_cache st
                 /\ Forall (fun e => is_message e = true) w
                 /\ providers_loop i l sp (length providers) 0 providers st0
                    = (r1, st')
                 /\ st_log st0 = st_log st ++ drv
                      ++ EvCached i (filespec.SHA256 sp) rc :: w
                 /\ st_log st' = st_log st0 ++ ftc
                 /\ fetch_calls i sp 0 providers ftc r1
                 /\ fetch_post i sp (length providers) 0 providers ftc r1
                 /\ r = match r1 with
                        | Ret _ => Ret (append_spec res sp)
                        | Raise e => Raise e
                        | Panic => Panic
                        end)).
Proof.
  intros Hsp. unfold loop_body. rewrite Hsp. unfold bind at 1.
  assert (Hchk : exists drv skip (st1 : State D C),
            check_installed opts l i sp st = (Ret skip, st1)
            /\ check_calls opts i sp drv skip
            /\ st_log st1 = st_log st ++ drv /\ st_cache st1 = st_cache st
            /\ (SkipInstalled opts = false -> st_d st1 = st_d st)
            /\ (forall ri w, drv = EvIsPackageVersionInstalled i sp ri :: w ->
                  ri = (distro.IsPackageVersionInstalled (st_d st) sp).1)).
  { destruct (SkipInstalled opts) eqn:Hskip.
    - pose proof (check_installed_log l i sp st Hskip) as Hlog.
      destruct (distro.IsPackageVersionInstalled (st_d st) sp) as [ri d'].
      destruct Hlog as (w & Hrun & Hw).
      eexists _, _, _. split; [exact Hrun|]. split; [right; eauto 10|].
      do 3 (split; [done|]). by intros ?? [= <- _].
    - exists [], false, st. rewrite check_installed_off by done.
      rewrite app_nil_r. split; [done|]. split; [by left|]. done. }
  destruct Hchk as (drv & skip & st1 & -> & Hcalls & Hlog1 & Hc1 & Hd1 & Hri).
  intros Hrun. exists drv, skip. split; [exact Hcalls|].
  destruct skip.
  - injection Hrun as <- <-. split; [done|]. split; [done|]. by left.
  - pose proof Hrun as Hpost.
    apply (cached_or_fetch_post opts) in Hpost as (evs2 & _ & Hd2 & _).
    split; [intros Hoff; rewrite Hd2; auto|]. split; [done|]. right.
    apply cached_or_fetch_cases in Hrun. cbv zeta in Hrun. rewrite Hc1 in Hrun.
    destruct Hrun as [(Hrc & -> & ->)|(Hrc & w & r1 & Hw & Hloop & ->)].
    + left. cbn. rewrite Hlog1, <- app_assoc. done.
    + right. split; [done|]. split; [done|].
      pose proof Hloop as Hloop'. pose proof Hloop as Hloop''.
      apply providers_loop_calls in Hloop' as (ftc & Hlog2 & Hftc); [|done].
      apply providers_loop_post in Hloop'' as (ftc' & Hlog2' & _ & Hftc'); [|done].
      rewrite Hlog2 in Hlog2'. apply app_inv_head in Hlog2' as <-.
      eexists _, w, ftc, r1. split; [|split; [done|split; [exact Hloop|]]].
      { cbn. done. }
      cbn in Hlog2 |- *. rewrite Hlog1, <- app_assoc. split; [done|].
      split; [|done]. rewrite Hlog2, Hlog1. by rewrite <- !app_assoc.
Qed.
End downloader_iterations.

Section downloader_calls_facts.
Import downloader.
Context {D C : Type} `{!distro.Distro D} `{!cache.Cache C} `{!FileSpecURL}.
Variable fileSpecs : gmap string filespec.FileSpec.
Variable opts : Opts.

Lemma check_calls_elem i sp drv skip e :
  check_calls opts i sp drv skip -> e ∈ drv ->
  (exists ri, e = EvIsPackageVersionInstalled i sp ri /\ skip = clean_yes ri
              /\ SkipInstalled opts = true)
  \/ is_message e = true.
Proof.
  intros [(_ & -> & _)|(Hon & ri & w & -> & Hw & ->)] Hin.
  - by apply elem_of_nil in Hin.
  - apply elem_of_cons in Hin as [->|Hin]; [left; eauto|right].
    by apply (proj1 (Forall_forall _ _) Hw).
Qed.

Lemma Download_providers (d0 : D) (c0 : C) r final e :
  Download fileSpecs opts (Some d0) (Some c0) = (r, final) ->
  e ∈ final.2 -> effective_providers opts d0 <> [].
Proof.
  unfold Download, Download_ranged. fold (effective_providers opts d0).
  destruct (length (effective_providers opts d0) =? 0) eqn:Hlen.
  { intros [= <- <-] Hin. by apply elem_of_nil in Hin. }
  intros _ _ Hnil. by rewrite Hnil in Hlen.
Qed.

(** The calls of the iteration a call on record belongs to. *)
Lemma Download_calls (d0 : D) (c0 : C) r final e :
  Download fileSpecs opts (Some d0) (Some c0) = (r, final) ->
  e ∈ final.2 ->
  let names := sort_Strings (map_keys fileSpecs) in
  let i := event_iteration e in
  let providers := effective_providers opts d0 in
  exists fname sp res_k r_k evs drv skip,
    names !! i = Some fname /\ fileSpecs !! fname = Some sp
    /\ e ∈ evs
    /\ (forall e', e' ∈ evs -> e' ∈ final.2)
    /\ (forall e', e' ∈ final.2 -> event_iteration e' = i -> e' ∈ evs)
    /\ (forall res_k' res', r_k = Ret res_k' -> r = Ret res' ->
         forall x, x ∈ PackagesToBeInstalled res_k' ->
                   x ∈ PackagesToBeInstalled res')
    /\ (forall e', r_k = Raise e' ->
         r = Raise e' /\ exists front, final.2 = front ++ evs)
    /\ check_calls opts i sp drv skip
    /\ ((skip = true /\ r_k = Ret res_k /\ evs = drv)
        \/ (skip = false /\ r_k = Ret (append_spec res_k sp)
            /\ evs = drv ++ [EvCached i (filespec.SHA256 sp) (true, None);
                             EvPrintln i (length names) (filespec.Basename sp)
                               "Cached" []])
        \/ (skip = false
            /\ exists rc w ftc r1,
                 rc <> (true, None)
                 /\ Forall (fun e => is_message e = true) w
                 /\ evs = drv ++ EvCached i (filespec.SHA256 sp) rc :: w ++ ftc
                 /\ fetch_calls i sp 0 providers ftc r1
                 /\ fetch_post i sp (length providers) 0 providers ftc r1
                 /\ r_k = match r1 with
                          | Ret _ => Ret (append_spec res_k sp)
                          | Raise e => Raise e
                          | Panic => Panic
                          end)).
Proof.
  intros Hdl Hin names i providers.
  destruct (Download_exec _ _ _ _ _ _ _ Hdl Hin)
    as (fname & sp & res_k & st_k & r_k & st_k' & evs & Hf & Hsp & Hbody & Hlog
        & Hin' & Hsub & Hall & Hmono & Hraise).
  fold names i providers in Hf, Hbody, Hall.
  destruct (loop_body_shape _ _ _ _ _ _ _ _ _ _ _ Hsp Hbody)
    as (drv & skip & Hcalls & _ & _ & Hshape).
  exists fname, sp, res_k, r_k, evs, drv, skip.
  do 8 (split; [done|]).
  destruct Hshape as [(-> & -> & Hl & _)|[(-> & Hrc & -> & _ & Hl)
    |(-> & Hrc & st0 & w & ftc & r1 & _ & Hw & _ & Hl0 & Hl & Hftc & Hftc' & ->)]].
  - left. rewrite Hlog in Hl. by apply app_inv_head in Hl as ->.
  - right; left. rewrite Hlog, Hrc in Hl. by apply app_inv_head in Hl as ->.
  - right; right. split; [done|].
    exists (cache.Cached (st_cache st_k) (filespec.SHA256 sp)), w, ftc, r1.
    rewrite Hlog, Hl0, <- !app_assoc in Hl. apply app_inv_head in Hl as ->.
    by rewrite <- app_comm_cons.
Qed.

(** What the shapes of an iteration hold. *)
Lemma fetch_calls_no_check i sp j rest ftc r1 e :
  fetch_calls i sp j rest ftc r1 -> e ∈ ftc ->
  is_driver_call e = false /\ forall i' sha256 r', e <> EvCached i' sha256 r'.
Proof. intros Hftc. apply (calls_no_check _ _ _ _ _ _ Hftc). Qed.
End downloader_calls_facts.

Section downloader_fetch_facts.
Import downloader.
Context {D C : Type} `{!distro.Distro D} `{!cache.Cache C} `{!FileSpecURL}.
Variable fileSpecs : gmap string filespec.FileSpec.
Variable opts : Opts.

(** A step of a fetch on record, with the loop over the providers that
    made it. *)
Lemma Download_fetch_step (d0 : D) (c0 : C) r final e :
  Download fileSpecs opts (Some d0) (Some c0) = (r, final) ->
  e ∈ final.2 -> is_fetch_step e = true ->
  let names := sort_Strings (map_keys fileSpecs) in
  let i := event_iteration e in
  let providers := effective_providers opts d0 in
  exists fname sp ftc r1,
    names !! i = Some fname /\ fileSpecs !! fname = Some sp
    /\ e ∈ ftc
    /\ (forall e', e' ∈ ftc -> e' ∈ final.2)
    /\ (forall e', e' ∈ final.2 -> event_iteration e' = i ->
          is_fetch_step e' = true -> e' ∈ ftc)
    /\ fetch_calls i sp 0 providers ftc r1
    /\ fetch_post i sp (length providers) 0 providers ftc r1
    /\ (r1 = Ret tt -> forall res, r = Ret res -> sp ∈ PackagesToBeInstalled res)
    /\ (forall e', r1 = Raise e' ->
          r = Raise e' /\ exists front, final.2 = front ++ ftc).
Proof.
  intros Hdl Hin Hstep names i providers.
  destruct (Download_calls _ _ _ _ _ _ _ Hdl Hin)
    as (fname & sp & res_k & r_k & evs & drv & skip & Hf & Hsp & Hin' & Hsub & Hall
        & Hmono & Hraise & Hcalls & Hshape).
  fold names i providers in Hf, Hall, Hshape.
  assert (Hdrv : forall e', e' ∈ drv -> is_fetch_step e' = false).
  { intros e' He'. destruct (check_calls_elem _ _ _ _ _ _ Hcalls He') as [(ri & -> & _)|?];
      [done|by destruct e']. }
  assert (Hmsg : forall w e', Forall (fun e => is_message e = true) w -> e' ∈ w ->
            is_fetch_step e' = false).
  { intros w e' Hw He'. apply (proj1 (Forall_forall _ _) Hw) in He'. by destruct e'. }
  destruct Hshape as [(-> & -> & ->)|[(-> & -> & ->)
    |(-> & rc & w & ftc & r1 & Hrc & Hw & -> & Hftc & Hpost & ->)]].
  - apply Hdrv in Hin'. congruence.
  - apply elem_of_app in Hin' as [Hin'|Hin']; [apply Hdrv in Hin'; congruence|].
    in_cases Hin'; rewrite Hin' in Hstep; discriminate.
  - assert (Hsplit : forall e', e' ∈ drv ++ EvCached i (filespec.SHA256 sp) rc :: w ++ ftc ->
              is_fetch_step e' = true -> e' ∈ ftc).
    { intros e' He' Hs. apply elem_of_app in He' as [He'|He'];
        [apply Hdrv in He'; congruence|].
      apply elem_of_cons in He' as [->|He']; [discriminate|].
      apply elem_of_app in He' as [He'|He']; [|done].
      apply (Hmsg w) in He'; [congruence|done]. }
    exists fname, sp, ftc, r1. do 2 (split; [done|]).
    split; [by apply Hsplit|].
    split; [intros e' He'; apply Hsub; rewrite !elem_of_app, elem_of_cons, elem_of_app; auto|].
    split; [intros e' He' Hit Hs; apply Hsplit; [by apply Hall|done]|].
    do 2 (split; [done|]). split.
    + intros -> res ->. eapply Hmono; [done..|]. cbn. apply elem_of_app. right.
      apply list_elem_of_here.
    + intros e' ->. destruct (Hraise _ eq_refl) as [-> [front ->]].
      split; [done|]. exists (front ++ drv ++ EvCached i (filespec.SHA256 sp) rc :: w).
      rewrite <- !app_assoc. by rewrite <- app_comm_cons.
Qed.
End downloader_fetch_facts.

Section downloader_calls_properties.
Import downloader.
Context {D C : Type} `{!distro.Distro D} `{!cache.Cache C} `{!FileSpecURL}.
Variable fileSpecs : gmap string filespec.FileSpec.
Variable opts : Opts.

(** X1.  A clean cache hit ends the iteration: in any run of
    [Download], for a spec that the cache reports as cached no URL is
    resolved and nothing is fetched, and the spec is in the result list
    when [Download] returns one. *)
Theorem Download_cache_hit_skips_fetch (d0 : D) (c0 : C) r final :
  Download fileSpecs opts (Some d0) (Some c0) = (r, final) ->
  forall i sha256, EvCached i sha256 (true, None) ∈ final.2 ->
    exists fname sp,
      sort_Strings (map_keys fileSpecs) !! i = Some fname
      /\ fileSpecs !! fname = Some sp /\ sha256 = filespec.SHA256 sp
      /\ (forall j provider r', EvURL i j provider r' ∉ final.2)
      /\ (forall j u sha256' r', EvEnsure i j u sha256' r' ∉ final.2)
      /\ (forall res, r = Ret res -> sp ∈ PackagesToBeInstalled res).
Proof.
  intros Hdl i sha Hin.
  destruct (Download_calls _ _ _ _ _ _ _ Hdl Hin)
    as (fname & sp & res_k & r_k & evs & drv & skip & Hf & Hsp & Hin' & Hsub & Hall
        & Hmono & Hraise & Hcalls & Hshape).
  cbn [event_iteration] in *.
  assert (Hdrv : forall e, e ∈ drv ->
            is_driver_call e = true \/ is_message e = true).
  { intros e He. destruct (check_calls_elem _ _ _ _ _ _ Hcalls He) as [(ri & -> & _)|?];
      [by left|by right]. }
  exists fname, sp. split; [done|]. split; [done|].
  destruct Hshape as [(-> & -> & ->)|[(-> & -> & ->)
    |(-> & rc & w & ftc & r1 & Hrc & Hw & -> & Hftc & _ & ->)]].
  - by destruct (Hdrv _ Hin').
  - apply elem_of_app in Hin' as [Hin'|Hin']; [by destruct (Hdrv _ Hin')|].
    in_cases Hin'; try discriminate. injection Hin' as ->.
    split; [done|].
    assert (Hnone : forall e, e ∈ final.2 -> event_iteration e = i ->
              is_driver_call e = true \/ is_message e = true
              \/ exists r', e = EvCached i (filespec.SHA256 sp) r').
    { intros e He Hit. apply Hall in He; [|done].
      apply elem_of_app in He as [He|He]; [destruct (Hdrv _ He); auto|].
      in_cases He; subst e; eauto. }
    split; [|split].
    + intros j p r' He. by destruct (Hnone _ He eq_refl) as [?|[?|[? ?]]].
    + intros j u sha' r' He. by destruct (Hnone _ He eq_refl) as [?|[?|[? ?]]].
    + intros res ->. eapply Hmono; [done..|]. cbn. apply elem_of_app. right.
      apply list_elem_of_here.
  - exfalso. apply elem_of_app in Hin' as [Hin'|Hin']; [by destruct (Hdrv _ Hin')|].
    apply elem_of_cons in Hin' as [Hin'|Hin']; [by injection Hin' as _ <-|].
    apply elem_of_app in Hin' as [Hin'|Hin'].
    + by apply (proj1 (Forall_forall _ _) Hw) in Hin'.
    + destruct (calls_no_check _ _ _ _ _ _ Hftc _ Hin') as [_ Hno]. by eapply Hno.
Qed.

(** X2.  The first successful fetch ends the iteration: after a fetch
    from provider [j] succeeded for the spec of iteration [i], no
    later provider is tried for it, and the spec is in the result list
    when [Download] returns one. *)
Theorem Download_first_success_ends_fetch (d0 : D) (c0 : C) r final :
  Download fileSpecs opts (Some d0) (Some c0) = (r, final) ->
  forall i j u sha256, EvEnsure i j u sha256 None ∈ final.2 ->
    exists fname sp,
      sort_Strings (map_keys fileSpecs) !! i = Some fname
      /\ fileSpecs !! fname = Some sp /\ sha256 = filespec.SHA256 sp
      /\ (forall j' provider r', EvURL i j' provider r' ∈ final.2 -> j' <= j)
      /\ (forall j' u' sha256' r', EvEnsure i j' u' sha256' r' ∈ final.2 -> j' <= j)
      /\ (forall res, r = Ret res -> sp ∈ PackagesToBeInstalled res).
Proof.
  intros Hdl i j u sha Hin.
  destruct (Download_fetch_step _ _ _ _ _ _ _ Hdl Hin eq_refl)
    as (fname & sp & ftc & r1 & Hf & Hsp & Hin' & Hsub & Hall & Hftc & Hpost
        & Hret & Hraise).
  cbn [event_iteration] in *.
  exists fname, sp. do 2 (split; [done|]).
  pose proof (proj1 (Forall_forall _ _) (fetch_events _ _ _ _ _ _ _ Hpost) _ Hin')
    as [_ ->].
  split; [done|].
  destruct (calls_success _ _ _ _ _ _ Hftc _ _ _ _ Hin') as (-> & _ & Hmax).
  split; [|split].
  - intros j' p r' He. eapply Hmax. by apply Hall.
  - intros j' u' sha' r' He. apply Hall in He; [|done..].
    destruct (calls_ensure _ _ _ _ _ _ Hftc _ _ _ _ _ He) as (_ & p & _ & _ & Hu).
    by eapply Hmax.
  - by apply Hret.
Qed.

(** X3.  The providers are tried in the order of the list: the URL
    resolved at index [j] of iteration [i] is that of the [j]-th
    provider for the spec of the iteration, and every provider before
    it was fetched from and failed. *)
Theorem Download_providers_tried_in_order (d0 : D) (c0 : C) r final :
  Download fileSpecs opts (Some d0) (Some c0) = (r, final) ->
  forall i j provider r', EvURL i j provider r' ∈ final.2 ->
    let providers := effective_providers opts d0 in
    exists fname sp,
      sort_Strings (map_keys fileSpecs) !! i = Some fname
      /\ fileSpecs !! fname = Some sp
      /\ providers !! j = Some provider /\ r' = FileSpec_URL sp provider
      /\ forall j', j' < j ->
           exists provider' u err,
             providers !! j' = Some provider'
             /\ FileSpec_URL sp provider' = inl u
             /\ EvEnsure i j' u (filespec.SHA256 sp) (Some err) ∈ final.2.
Proof.
  intros Hdl i j p r' Hin providers.
  destruct (Download_fetch_step _ _ _ _ _ _ _ Hdl Hin eq_refl)
    as (fname & sp & ftc & r1 & Hf & Hsp & Hin' & Hsub & Hall & Hftc & Hpost
        & Hret & Hraise).
  cbn [event_iteration] in *. fold providers in Hftc, Hpost.
  exists fname, sp. do 2 (split; [done|]).
  destruct (calls_url _ _ _ _ _ _ Hftc _ _ _ _ Hin') as [_ Hp].
  rewrite Nat.sub_0_r in Hp. split; [done|].
  pose proof (proj1 (Forall_forall _ _) (fetch_events _ _ _ _ _ _ _ Hpost) _ Hin')
    as [_ ->].
  split; [done|]. intros j' Hlt.
  destruct (calls_earlier_failed _ _ _ _ _ _ Hftc _ _ _ _ Hin' j') as (u & err & He);
    [lia|].
  destruct (calls_ensure _ _ _ _ _ _ Hftc _ _ _ _ _ He) as (_ & p' & Hp' & Hu & _).
  rewrite Nat.sub_0_r in Hp'. exists p', u, err. auto.
Qed.

(** X4.  Only a clean answer cuts an iteration short.  When the driver
    answers anything but a yes without error, the cache is asked about
    the spec; when the cache answers anything but a yes without error,
    the URL of the first provider is resolved. *)
Theorem Download_unclean_answers_go_on (d0 : D) (c0 : C) r final :
  Download fileSpecs opts (Some d0) (Some c0) = (r, final) ->
  (forall i sp ri, EvIsPackageVersionInstalled i sp ri ∈ final.2 ->
     clean_yes ri = false ->
     exists rc, EvCached i (filespec.SHA256 sp) rc ∈ final.2)
  /\ (forall i sha256 rc, EvCached i sha256 rc ∈ final.2 ->
        clean_yes rc = false ->
        exists fname sp provider,
          sort_Strings (map_keys fileSpecs) !! i = Some fname
          /\ fileSpecs !! fname = Some sp
          /\ effective_providers opts d0 !! 0 = Some provider
          /\ EvURL i 0 provider (FileSpec_URL sp provider) ∈ final.2).
Proof.
  intros Hdl. split.
  - intros i sp ri Hin Hri.
    destruct (Download_calls _ _ _ _ _ _ _ Hdl Hin)
      as (fname & sp' & res_k & r_k & evs & drv & skip & Hf & Hsp & Hin' & Hsub & Hall
          & Hmono & Hraise & Hcalls & Hshape).
    cbn [event_iteration] in *.
    assert (Hhere : EvIsPackageVersionInstalled i sp ri ∈ drv -> sp = sp' /\ skip = false).
    { intros He. destruct (check_calls_elem _ _ _ _ _ _ Hcalls He)
        as [(ri' & [= -> ->] & -> & _)|?]; done. }
    destruct Hshape as [(-> & -> & ->)|[(-> & -> & ->)
      |(-> & rc & w & ftc & r1 & Hrc & Hw & -> & Hftc & _ & ->)]].
    + by destruct (Hhere Hin').
    + apply elem_of_app in Hin' as [Hin'|Hin'].
      * destruct (Hhere Hin') as [-> _]. eexists. apply Hsub.
        apply elem_of_app. right. apply list_elem_of_here.
      * in_cases Hin'; discriminate.
    + apply elem_of_app in Hin' as [Hin'|Hin'].
      * destruct (Hhere Hin') as [-> _]. exists rc. apply Hsub.
        apply elem_of_app. right. apply list_elem_of_here.
      * apply elem_of_cons in Hin' as [Hin'|Hin']; [discriminate|].
        apply elem_of_app in Hin' as [Hin'|Hin'].
        -- by apply (proj1 (Forall_forall _ _) Hw) in Hin'.
        -- by destruct (calls_no_check _ _ _ _ _ _ Hftc _ Hin').
  - intros i sha rc Hin Hrc.
    pose proof (Download_providers _ _ _ _ _ _ _ Hdl Hin) as Hps.
    destruct (Download_calls _ _ _ _ _ _ _ Hdl Hin)
      as (fname & sp & res_k & r_k & evs & drv & skip & Hf & Hsp & Hin' & Hsub & Hall
          & Hmono & Hraise & Hcalls & Hshape).
    cbn [event_iteration] in *.
    assert (Hdrv : EvCached i sha rc ∉ drv).
    { intros He. by destruct (check_calls_elem _ _ _ _ _ _ Hcalls He) as [(? & ? & _)|?]. }
    exists fname, sp.
    destruct Hshape as [(-> & -> & ->)|[(-> & -> & ->)
      |(-> & rc' & w & ftc & r1 & Hrc' & Hw & -> & Hftc & Hpost & ->)]].
    + done.
    + apply elem_of_app in Hin' as [Hin'|Hin']; [done|].
      in_cases Hin'; try discriminate. injection Hin' as -> ->. discriminate.
    + destruct (effective_providers opts d0) as [|p ps] eqn:Hp; [done|].
      exists p. do 3 (split; [done|]). apply Hsub.
      rewrite elem_of_app, elem_of_cons, elem_of_app. right; right; right.
      by eapply (fetch_head _ _ _ _ _ _ _ Hpost).
Qed.
End downloader_calls_properties.

Section downloader_loop_facts.
Import downloader.
Context {D C : Type} `{!distro.Distro D} `{!cache.Cache C} `{!FileSpecURL}.
Variable fileSpecs : gmap string filespec.FileSpec.
Variable opts : Opts.







Lemma specs_loop_driver providers l fnames : forall i res (st : State D C) r st',
  SkipInstalled opts = false ->
  Forall (fun f => is_Some (fileSpecs !! f)) fnames ->
  specs_loop fileSpecs opts providers l i fnames res st = (r, st') ->
  st_d st' = st_d st.
Proof.
  induction fnames as [|fname fnames IH]; intros i res st r st' Hoff Hall Hrun.
  { by injection Hrun as <- <-. }
  apply Forall_cons in Hall as [[sp Hsp] Hall].
  cbn in Hrun. unfold bind in Hrun.
  destruct (loop_body _ _ _ _ _ _ _ _) as [r0 st0] eqn:Hbody.
  destruct (loop_body_shape _ _ _ _ _ _ _ _ _ _ _ Hsp Hbody)
    as (drv & skip & _ & Hd & _).
  destruct r0 as [res0|e|].
  - apply IH in Hrun; [|done..]. rewrite Hrun. auto.
  - injection Hrun as <- <-. auto.
  - injection Hrun as <- <-. auto.
Qed.

(** An iteration that ends normally either skips its spec, on a clean
    yes of the driver, or appends it, after a clean cache hit or a
    fetch that succeeded. *)
Lemma loop_body_ret providers l i fname sp res (st : State D C) res' st' :
  providers <> [] ->
  fileSpecs !! fname = Some sp ->
  loop_body fileSpecs opts providers l i fname res st = (Ret res', st') ->
  exists evs, st_log st' = st_log st ++ evs
    /\ ((res' = res /\ SkipInstalled opts = true
         /\ clean_yes (distro.IsPackageVersionInstalled (st_d st) sp).1 = true)
        \/ (res' = append_spec res sp /\ cached_or_fetched evs sp)).
Proof.
  intros Hps Hsp Hbody.
  destruct (loop_body_shape _ _ _ _ _ _ _ _ _ _ _ Hsp Hbody)
    as (drv & skip & Hcalls & _ & Hri & Hshape).
  destruct Hshape as [(-> & Hr & -> & _)|[(_ & Hrc & Hr & _ & ->)
    |(_ & _ & st0 & w & ftc & r1 & _ & Hw & _ & Hl0 & -> & Hftc & _ & Hr)]].
  - exists drv. split; [done|]. left. injection Hr as ->. split; [done|].
    destruct Hcalls as [(_ & _ & [=])|(Hon & ri & w & -> & _ & Hyes)].
    split; [done|]. by rewrite <- (Hri _ _ eq_refl).
  - eexists. split; [reflexivity|]. right. injection Hr as ->. split; [done|].
    exists i. left. rewrite Hrc. apply elem_of_app. right. apply list_elem_of_here.
  - exists (drv ++ EvCached i (filespec.SHA256 sp)
                     (cache.Cached (st_cache st) (filespec.SHA256 sp)) :: w ++ ftc).
    split; [rewrite Hl0, <- !app_assoc; by rewrite <- app_comm_cons|]. right.
    destruct r1 as [[]|e|]; try discriminate. injection Hr as ->. split; [done|].
    destruct (calls_ret _ _ _ _ _ _ Hftc eq_refl) as [?|(j & u & Hin)]; [done|].
    exists i. right. exists j, u.
    rewrite elem_of_app, elem_of_cons, elem_of_app. auto.
Qed.

Lemma specs_loop_result providers l fnames : forall i res (st : State D C) res' st',
  providers <> [] ->
  Forall (fun f => is_Some (fileSpecs !! f)) fnames ->
  specs_loop fileSpecs opts providers l i fnames res st = (Ret res', st') ->
  exists log, st_log st' = st_log st ++ log
    /\ (forall x, x ∈ PackagesToBeInstalled res' ->
          x ∈ PackagesToBeInstalled res \/ cached_or_fetched log x)
    /\ (SkipInstalled opts = false
        \/ (forall d sp, clean_yes (distro.IsPackageVersionInstalled d sp).1 = false) ->
        PackagesToBeInstalled res'
        = PackagesToBeInstalled res ++ omap (fun f => fileSpecs !! f) fnames).
Proof.
  induction fnames as [|fname fnames IH]; intros i res st res' st' Hps Hall Hrun.
  { injection Hrun as <- <-. exists []. rewrite !app_nil_r. cbn. auto. }
  apply Forall_cons in Hall as [[sp Hsp] Hall].
  cbn in Hrun. unfold bind in Hrun.
  destruct (loop_body _ _ _ _ _ _ _ _) as [r0 st0] eqn:Hbody.
  destruct r0 as [res0|e|]; try discriminate.
  apply (loop_body_ret _ _ _ _ _ _ _ _ _ Hps Hsp) in Hbody as (evs & Hlog & Hcase).
  apply IH in Hrun as (log & Hlog' & Hres & Hall'); [|done..].
  exists (evs ++ log). split; [by rewrite Hlog', Hlog, <- app_assoc|]. split.
  - intros x Hx. destruct (Hres x Hx) as [Hx0|(i' & Hin)].
    + destruct Hcase as [(-> & _)|(-> & i' & Hin)]; [by left|].
      cbn in Hx0. apply elem_of_app in Hx0 as [?|Hx0]; [by left|].
      apply list_elem_of_singleton in Hx0 as ->. right. exists i'.
      destruct Hin as [Hin|(j & u & Hin)]; [left|right; exists j, u];
        apply elem_of_app; by left.
    + right. exists i'.
      destruct Hin as [Hin|(j & u & Hin)]; [left|right; exists j, u];
        apply elem_of_app; by right.
  - intros Hnever. rewrite (Hall' Hnever). cbn. rewrite Hsp.
    destruct Hcase as [(-> & Hon & Hyes)|(-> & _)].
    + destruct Hnever as [Hoff|Hno]; [congruence|]. by rewrite Hno in Hyes.
    + cbn. by rewrite <- app_assoc.
Qed.


Section sane_cache.
(** A cache that holds what it fetched and forgets nothing. *)
Hypothesis Ensure_caches : forall (c : C) u sha256 c',
  cache.Ensure c u sha256 = (None, c') -> cache.Cached c' sha256 = (true, None).
Hypothesis Ensure_keeps : forall (c : C) u sha256 r c' sha256',
  cache.Ensure c u sha256 = (r, c') ->
  cache.Cached c sha256' = (true, None) -> cache.Cached c' sha256' = (true, None).

Lemma providers_loop_cache i l sp n rest : forall j (st : State D C) r st',
  n = j + length rest ->
  providers_loop i l sp n j rest st = (r, st') ->
  (forall sha256, cache.Cached (st_cache st) sha256 = (true, None) ->
                  cache.Cached (st_cache st') sha256 = (true, None))
  /\ (r = Ret tt -> rest <> [] ->
      cache.Cached (st_cache st') (filespec.SHA256 sp) = (true, None)).
Proof using Ensure_caches Ensure_keeps.
  induction rest as [|provider rest IH]; intros j st r st' Hn Hrun.
  { injection Hrun as <- <-. done. }
  cbn in Hn. rewrite providers_loop_cons in Hrun.
  destruct (FileSpec_URL sp provider) as [u|uerr] eqn:Hurl.
  2:{ injection Hrun as <- <-. done. }
  destruct (cache.Ensure (st_cache st) u (filespec.SHA256 sp)) as [[err|] c'] eqn:Hens;
    cbn zeta in Hrun.
  2:{ injection Hrun as <- <-. cbn. split; [intros sha; by eapply Ensure_keeps|].
      intros _ _. by eapply Ensure_caches. }
  destruct (Z.eqb_spec (Z.of_nat j) (Z.of_nat n - 1)) as [Hlast|Hmore]; cbn [negb] in Hrun.
  - injection Hrun as <- <-. cbn. split; [intros sha; by eapply Ensure_keeps|done].
  - apply IH in Hrun as [Hkeep Hret]; [|lia]. cbn in Hkeep. split.
    + intros sha Hc. apply Hkeep. by eapply Ensure_keeps.
    + intros -> _. apply Hret; [done|]. destruct rest; [cbn in Hn; lia|done].
Qed.

Lemma specs_loop_cache providers l fnames : forall i res (st : State D C) res' st',
  providers <> [] ->
  Forall (fun f => is_Some (fileSpecs !! f)) fnames ->
  specs_loop fileSpecs opts providers l i fnames res st = (Ret res', st') ->
  (forall x, x ∈ PackagesToBeInstalled res ->
     cache.Cached (st_cache st) (filespec.SHA256 x) = (true, None)) ->
  forall x, x ∈ PackagesToBeInstalled res' ->
    cache.Cached (st_cache st') (filespec.SHA256 x) = (true, None).
Proof using Ensure_caches Ensure_keeps.
  induction fnames as [|fname fnames IH]; intros i res st res' st' Hps Hall Hrun Hres.
  { by injection Hrun as <- <-. }
  apply Forall_cons in Hall as [[sp Hsp] Hall].
  cbn in Hrun. unfold bind in Hrun.
  destruct (loop_body _ _ _ _ _ _ _ _) as [r0 st0] eqn:Hbody.
  destruct r0 as [res0|e|]; try discriminate.
  eapply IH; [done..|exact Hrun|].
  destruct (loop_body_shape _ _ _ _ _ _ _ _ _ _ _ Hsp Hbody)
    as (drv & skip & _ & _ & _ & Hshape).
  destruct Hshape as [(_ & [= ->] & _ & ->)|[(_ & Hrc & [= ->] & -> & _)
    |(_ & _ & st1 & w & ftc & r1 & Hc1 & _ & Hloop & _ & _ & _ & _ & Hr)]].
  - done.
  - intros x Hx. cbn in Hx. apply elem_of_app in Hx as [Hx|Hx]; [auto|].
    by apply list_elem_of_singleton in Hx as ->.
  - destruct r1 as [[]|e|]; try discriminate. injection Hr as ->.
    apply providers_loop_cache in Hloop as [Hkeep Hret]; [|done]. rewrite Hc1 in Hkeep.
    intros x Hx. cbn in Hx. apply elem_of_app in Hx as [Hx|Hx]; [auto|].
    apply list_elem_of_singleton in Hx as ->. by apply Hret.
Qed.
End sane_cache.
End downloader_loop_facts.

Section downloader_loop_properties.
Import downloader.
Context {D C : Type} `{!distro.Distro D} `{!cache.Cache C} `{!FileSpecURL}.
Variable fileSpecs : gmap string filespec.FileSpec.
Variable opts : Opts.

Lemma sorted_keys_lookup :
  Forall (fun f => is_Some (fileSpecs !! f)) (sort_Strings (map_keys fileSpecs)).
Proof. unfold sort_Strings. rewrite merge_sort_Permutation. apply map_keys_lookup. Qed.


(** [Download] with a driver and a cache: the error for want of a
    provider, or the loop over the sorted file names. *)
Lemma Download_loop (d0 : D) (c0 : C) r final :
  Download fileSpecs opts (Some d0) (Some c0) = (r, final) ->
  let names := sort_Strings (map_keys fileSpecs) in
  let providers := effective_providers opts d0 in
  (providers = [] /\ r = Raise (errors_New "provider needs to be specified")
   /\ final = (Some d0, Some c0, []))
  \/ (providers <> []
      /\ exists st',
           specs_loop fileSpecs opts providers (length names) 0 names
             {| PackagesToBeInstalled := [] |}
             {| st_d := d0; st_cache := c0; st_log := [] |} = (r, st')
           /\ final = (Some (st_d st'), Some (st_cache st'), st_log st')).
Proof.
  unfold Download, Download_ranged. fold (effective_providers opts d0).
  destruct (effective_providers opts d0) as [|p ps] eqn:Hp; cbn [length Nat.eqb].
  { intros [= <- <-]. by left. }
  destruct (specs_loop _ _ _ _ _ _ _ _) as [r0 st'] eqn:Hloop.
  intros [= <- <-]. right. split; [done|]. by exists st'.
Qed.


(** X6.  Every spec in the result list of [Download] was found in the
    cache or fetched into it: the record holds a clean cache hit or a
    successful fetch for its digest. *)
Theorem Download_result_cached_or_fetched (d : option D) (cache : option C) res final :
  Download fileSpecs opts d cache = (Ret res, final) ->
  forall sp, sp ∈ PackagesToBeInstalled res -> cached_or_fetched final.2 sp.
Proof.
  destruct d as [d0|]; [|discriminate]. destruct cache as [c0|]; [|discriminate].
  intros Hdl sp Hsp.
  apply Download_loop in Hdl as [(_ & [=] & _)|(Hps & st' & Hloop & ->)].
  apply specs_loop_result in Hloop as (log & Hlog & Hres & _);
    [|done|apply sorted_keys_lookup].
  cbn in Hlog |- *. rewrite Hlog.
  destruct (Hres _ Hsp) as [Hnil|?]; [|done]. by apply elem_of_nil in Hnil.
Qed.

(** X7.  With a cache that holds what it fetched and forgets nothing,
    every spec in the result list of [Download] is in the cache that
    [Download] leaves behind. *)
Theorem Download_leaves_result_cached (d : option D) (cache : option C) res final :
  (forall (c : C) u sha256 c',
     cache.Ensure c u sha256 = (None, c') -> cache.Cached c' sha256 = (true, None)) ->
  (forall (c : C) u sha256 r c' sha256',
     cache.Ensure c u sha256 = (r, c') ->
     cache.Cached c sha256' = (true, None) -> cache.Cached c' sha256' = (true, None)) ->
  Download fileSpecs opts d cache = (Ret res, final) ->
  exists c', final.1.2 = Some c'
    /\ forall sp, sp ∈ PackagesToBeInstalled res ->
         cache.Cached c' (filespec.SHA256 sp) = (true, None).
Proof.
  intros Hcaches Hkeeps.
  destruct d as [d0|]; [|discriminate]. destruct cache as [c0|]; [|discriminate].
  intros Hdl.
  apply Download_loop in Hdl as [(_ & [=] & _)|(Hps & st' & Hloop & ->)].
  exists (st_cache st'). split; [done|].
  eapply specs_loop_cache; [exact Hcaches|exact Hkeeps|exact Hps|apply sorted_keys_lookup
                           |exact Hloop|].
  intros x Hx. by apply elem_of_nil in Hx.
Qed.

(** X8.  Without [SkipInstalled] the driver is never asked: no call to
    it is on record and [Download] leaves it as it was. *)
Theorem Download_without_skip_never_asks_driver (d0 : D) (cache : option C) r final :
  SkipInstalled opts = false ->
  Download fileSpecs opts (Some d0) cache = (r, final) ->
  final.1.1 = Some d0
  /\ forall e, e ∈ final.2 -> is_driver_call e = false.
Proof.
  intros Hoff Hdl. destruct cache as [c0|].
  2:{ injection Hdl as <- <-. split; [done|]. intros e He. by apply elem_of_nil in He. }
  split.
  - apply Download_loop in Hdl as [(_ & _ & ->)|(_ & st' & Hloop & ->)]; [done|].
    apply specs_loop_driver in Hloop; [|done|apply sorted_keys_lookup].
    cbn in *. by rewrite Hloop.
  - intros e Hin.
    destruct (Download_calls _ _ _ _ _ _ _ Hdl Hin)
      as (fname & sp & res_k & r_k & evs & drv & skip & Hf & Hsp & Hin' & Hsub & Hall
          & Hmono & Hraise & Hcalls & Hshape).
    destruct Hcalls as [(_ & -> & ->)|(Hon & _)]; [|congruence].
    destruct Hshape as [([=] & _)|[(_ & _ & ->)
      |(_ & rc & w & ftc & r1 & _ & Hw & -> & Hftc & _)]].
    + cbn in Hin'. in_cases Hin'; by rewrite Hin'.
    + cbn in Hin'. apply elem_of_cons in Hin' as [Hin'|Hin']; [by rewrite Hin'|].
      apply elem_of_app in Hin' as [Hin'|Hin'].
      * apply (proj1 (Forall_forall _ _) Hw) in Hin'. by destruct e.
      * by destruct (calls_no_check _ _ _ _ _ _ Hftc _ Hin').
Qed.

(** X9.  When nothing can be skipped, because [SkipInstalled] is off or
    because the driver never answers a clean yes (as the driver "none"),
    a successful [Download] returns all the requested specs, in the
    order of their file names. *)
Theorem Download_returns_every_spec (d : option D) (cache : option C) res final :
  SkipInstalled opts = false
  \/ (forall d sp, clean_yes (distro.IsPackageVersionInstalled d sp).1 = false) ->
  Download fileSpecs opts d cache = (Ret res, final) ->
  PackagesToBeInstalled res
  = omap (fun f => fileSpecs !! f) (sort_Strings (map_keys fileSpecs)).
Proof.
  intros Hnever.
  destruct d as [d0|]; [|discriminate]. destruct cache as [c0|]; [|discriminate].
  intros Hdl.
  apply Download_loop in Hdl as [(_ & [=] & _)|(Hps & st' & Hloop & ->)].
  apply specs_loop_result in Hloop as (log & _ & _ & Hall);
    [|done|apply sorted_keys_lookup].
  by rewrite (Hall Hnever).
Qed.

End downloader_loop_properties.

Section downloader_order_facts.
Import downloader.
Context {D C : Type} `{!distro.Distro D} `{!cache.Cache C} `{!FileSpecURL}.
Variable fileSpecs : gmap string filespec.FileSpec.
Variable opts : Opts.

(** Every iteration of the loop body leaves its mark: the driver's
    clean yes for its spec, or the cache check of its digest. *)
Lemma loop_body_on_record providers l i fname sp res (st : State D C) r st' :
  fileSpecs !! fname = Some sp ->
  loop_body fileSpecs opts providers l i fname res st = (r, st') ->
  exists evs, st_log st' = st_log st ++ evs
    /\ body_post opts providers l i sp res evs r
    /\ (EvIsPackageVersionInstalled i sp (true, None) ∈ evs
        \/ exists rc, EvCached i (filespec.SHA256 sp) rc ∈ evs).
Proof.
  intros Hsp Hbody.
  destruct (loop_body_post _ _ _ _ _ _ _ _ _ _ _ Hsp Hbody) as (evs & Hlog & Hpost).
  exists evs. split; [done|]. split; [done|].
  destruct (loop_body_shape _ _ _ _ _ _ _ _ _ _ _ Hsp Hbody)
    as (drv & skip & Hcalls & _ & _ & Hshape).
  destruct Hshape as [(-> & _ & Hl & _)|[(_ & Hrc & _ & _ & Hl)
    |(_ & _ & st0 & w & ftc & r1 & _ & _ & _ & Hl0 & Hl & _)]].
  - rewrite Hlog in Hl. apply app_inv_head in Hl as ->.
    destruct Hcalls as [(_ & _ & [=])|(_ & ri & w & -> & _ & Hyes)].
    left. destruct ri as [[] [err|]]; try discriminate. apply list_elem_of_here.
  - rewrite Hlog in Hl. apply app_inv_head in Hl as ->.
    right. eexists. apply elem_of_app. right. apply list_elem_of_here.
  - rewrite Hlog, Hl0, <- !app_assoc in Hl. apply app_inv_head in Hl as ->.
    right. eexists. apply elem_of_app. right. apply list_elem_of_here.
Qed.

(** The iterations the loop went through: the first [n] file names,
    each on record, in a run that ended normally all of them, in a run
    that ended with an error up to the one that made the last call. *)
Lemma specs_loop_iterations providers l fnames : forall i res (st : State D C) r st',
  Forall (fun f => is_Some (fileSpecs !! f)) fnames ->
  specs_loop fileSpecs opts providers l i fnames res st = (r, st') ->
  exists n log,
    st_log st' = st_log st ++ log
    /\ n <= length fnames
    /\ (forall k, k < n ->
          exists fname sp,
            fnames !! k = Some fname /\ fileSpecs !! fname = Some sp
            /\ (EvIsPackageVersionInstalled (i + k) sp (true, None) ∈ log
                \/ exists rc, EvCached (i + k) (filespec.SHA256 sp) rc ∈ log))
    /\ (forall e, e ∈ log -> i <= event_iteration e < i + n)
    /\ (forall res', r = Ret res' -> n = length fnames)
    /\ (forall err, r = Raise err ->
          0 < n /\ exists log0 ev, log = log0 ++ [ev]
                     /\ event_iteration ev = i + n - 1).
Proof.
  induction fnames as [|fname fnames IH]; intros i res st r st' Hall Hrun.
  { injection Hrun as <- <-. exists 0, []. rewrite app_nil_r.
    split; [done|]. split; [done|]. split; [intros k Hk; lia|].
    split; [intros e He; by apply elem_of_nil in He|]. split; [done|]. discriminate. }
  apply Forall_cons in Hall as [[sp Hsp] Hall].
  cbn in Hrun. unfold bind in Hrun.
  destruct (loop_body _ _ _ _ _ _ _ _) as [r0 st0] eqn:Hbody.
  destruct (loop_body_on_record _ _ _ _ _ _ _ _ _ Hsp Hbody)
    as (evs & Hlog & Hpost & Hmark).
  pose proof (post_events _ _ _ _ _ _ _ _ Hpost) as Hfor.
  assert (Hevs : forall e, e ∈ evs -> event_iteration e = i).
  { intros e He. eapply event_for_iteration, Forall_forall; eauto. }
  assert (Hhead : exists fname' sp',
            (fname :: fnames) !! 0 = Some fname' /\ fileSpecs !! fname' = Some sp'
            /\ forall more,
                 EvIsPackageVersionInstalled (i + 0) sp' (true, None) ∈ evs ++ more
                 \/ exists rc, EvCached (i + 0) (filespec.SHA256 sp') rc ∈ evs ++ more).
  { exists fname, sp. split; [done|]. split; [done|]. intros more.
    rewrite Nat.add_0_r. destruct Hmark as [Hin|[rc Hin]]; [left|right; exists rc];
      apply elem_of_app; by left. }
  destruct r0 as [res0|err|].
  - apply IH in Hrun as (n & log & Hlog' & Hn & Hrec & Hit & Hret & Hraise); [|done].
    exists (S n), (evs ++ log). split; [by rewrite Hlog', Hlog, <- app_assoc|].
    split; [cbn; lia|]. split; [|split; [|split]].
    + intros [|k] Hk.
      * destruct Hhead as (fname' & sp' & ? & ? & Hin). exists fname', sp'. auto.
      * destruct (Hrec k) as (fname' & sp' & Hk' & Hsp' & Hin); [lia|].
        exists fname', sp'. split; [done|]. split; [done|].
        replace (i + S k) with (S i + k) by lia.
        destruct Hin as [Hin|[rc Hin]]; [left|right; exists rc];
          apply elem_of_app; by right.
    + intros e He. apply elem_of_app in He as [He|He].
      * apply Hevs in He. lia.
      * apply Hit in He. lia.
    + intros res' Hr. rewrite (Hret _ Hr). done.
    + intros err Hr. split; [lia|].
      destruct (Hraise _ Hr) as (Hpos & log0 & ev & -> & Hev).
      exists (evs ++ log0), ev. split; [by rewrite app_assoc|]. lia.
  - injection Hrun as <- <-. exists 1, evs. split; [done|].
    split; [cbn; lia|]. split; [|split; [|split]].
    + intros k Hk. assert (k = 0) as -> by lia.
      destruct Hhead as (fname' & sp' & ? & ? & Hin). exists fname', sp'.
      split; [done|]. split; [done|]. specialize (Hin []). by rewrite app_nil_r in Hin.
    + intros e He. apply Hevs in He. lia.
    + discriminate.
    + intros err' _. split; [lia|].
      destruct (post_raise_last _ _ _ _ _ _ _ _ Hpost _ eq_refl) as (evs0 & ev & -> & _).
      exists evs0, ev. split; [done|].
      rewrite (Hevs ev); [lia|]. apply elem_of_app. right. apply list_elem_of_here.
  - by destruct (post_no_panic _ _ _ _ _ _ _ _ Hpost).
Qed.
End downloader_order_facts.

Section downloader_order_properties.
Import downloader.
Context {D C : Type} `{!distro.Distro D} `{!cache.Cache C} `{!FileSpecURL}.
Variable fileSpecs : gmap string filespec.FileSpec.
Variable opts : Opts.

(** C7.  The file names are processed in ascending order: the sorted
    key list is strictly ascending, [Download] does not depend on the
    order in which the map yields its keys, iteration [i] works on the
    spec of the [i]-th smallest key, the calls on record come in the
    order of the iterations, and the result list follows the order of
    the keys.  With a driver, a cache and a provider, the loop goes
    through the file names from the smallest on: every iteration it
    reached is on record, with the driver's yes for the spec of its
    file name or the cache check of its digest; a run that ends
    normally went through all the file names, and its result list is
    the specs in that order without those reported as installed; a
    run that ends with an error stopped in the iteration that made
    the last call. *)
Theorem Download_processes_in_sorted_order (d : option D) (cache : option C) :
  let names := sort_Strings (map_keys fileSpecs) in
  StronglySorted (strict String.le) names
  /\ names ≡ₚ map_keys fileSpecs
  /\ (forall range, range ≡ₚ map_keys fileSpecs ->
        Download_ranged fileSpecs opts range d cache
        = Download fileSpecs opts d cache)
  /\ (forall r final, Download fileSpecs opts d cache = (r, final) ->
        StronglySorted le (event_iteration <$> final.2)
        /\ (forall e, e ∈ final.2 ->
              exists fname sp,
                names !! event_iteration e = Some fname
                /\ fileSpecs !! fname = Some sp
                /\ event_for (event_iteration e) sp e)
        /\ (forall res, r = Ret res ->
              exists kept, kept `sublist_of` names
                /\ PackagesToBeInstalled res
                   = omap (fun f => fileSpecs !! f) kept)
        /\ (forall d0, d = Some d0 -> is_Some cache ->
              effective_providers opts d0 <> [] ->
              exists n,
                n <= length names
                /\ (forall i, i < n ->
                      exists fname sp,
                        names !! i = Some fname /\ fileSpecs !! fname = Some sp
                        /\ (EvIsPackageVersionInstalled i sp (true, None) ∈ final.2
                            \/ exists rc,
                                 EvCached i (filespec.SHA256 sp) rc ∈ final.2))
                /\ (forall e, e ∈ final.2 -> event_iteration e < n)
                /\ (forall res, r = Ret res ->
                      n = length names
                      /\ PackagesToBeInstalled res
                         = kept_specs fileSpecs final.2 0 names)
                /\ (forall err, r = Raise err ->
                      0 < n
                      /\ exists log0 ev, final.2 = log0 ++ [ev]
                           /\ event_iteration ev = n - 1))).
Proof.
  intros names. split.
  { apply sort_Strings_strict. apply NoDup_fst_map_to_list. }
  split.
  { unfold names, sort_Strings. apply merge_sort_Permutation. }
  split.
  { intros range Hperm. unfold Download, Download_ranged.
    by rewrite (sort_Strings_Permutation _ _ Hperm). }
  intros r final Hdl. split; [|split; [|split]].
  - apply Download_ranged_run in Hdl
      as [[-> _]|(d0 & c0 & chunks & st' & -> & -> & Hps & -> & Hrun)];
      [constructor| |apply map_keys_lookup].
    cbn. by eapply run_iterations_sorted.
  - intros e Hin.
    destruct (Download_event _ _ _ _ _ _ _ Hdl Hin)
      as (d1 & c1 & fname & sp & res_k & evs & r_k & -> & -> & Hk & Hsp
          & Hin' & Hpost & Hsub & Hall & Hend).
    exists fname, sp. split; [done|]. split; [done|].
    exact (proj1 (Forall_forall _ _) (post_events _ _ _ _ _ _ _ _ Hpost) _ Hin').
  - intros res ->.
    apply Download_ranged_run in Hdl
      as [[_ [e He]]|(d0 & c0 & chunks & st' & -> & -> & Hps & -> & Hrun)];
      [discriminate| |apply map_keys_lookup].
    edestruct run_kept as (kept & Hsub & Hres); [exact Hrun|reflexivity|].
    exists kept. done.
  - intros d0 -> [c0 ->] Hps.
    pose proof Hdl as Hdl'.
    apply Download_loop in Hdl' as [(Hnil & _)|(_ & st' & Hloop & ->)]; [done|].
    apply specs_loop_iterations in Hloop
      as (n & log & Hlog & Hn & Hrec & Hit & Hret & Hraise); [|apply sorted_keys_lookup].
    cbn in Hlog. subst log. cbn [snd]. exists n.
    split; [done|]. split; [exact Hrec|]. split; [intros e He; apply Hit in He; lia|].
    split.
    + intros res ->. split; [by eapply Hret|].
      unfold Download in Hdl. apply Download_ranged_run in Hdl
        as [[_ [e He]]|(d1 & c1 & chunks & st1 & _ & _ & _ & Hfin & Hrun)];
        [discriminate| |apply map_keys_lookup].
      injection Hfin as _ _ Hlog'. rewrite Hlog'.
      erewrite (run_result fileSpecs opts _ _ _ _ _ _ _ Hrun res []); [done..|].
      intros e He. by apply elem_of_nil in He.
    + intros err ->. destruct (Hraise _ eq_refl) as (Hpos & log0 & ev & Hl & Hev).
      split; [done|]. exists log0, ev. split; [done|]. cbn in Hev. lia.
Qed.
End downloader_order_properties.

(** Find a call in a record of calls that computes. *)
Ltac in_log :=
  apply list_elem_of_In; vm_compute;
  repeat (first [left; reflexivity | right]).

Section downloader_examples.
Import downloader example.

(** hello is installed on the example host and is skipped; blob.bin and
    jq are fetched from the mirror. *)
Lemma Download_result_covers_specs_not_installed_witness :
  exists final,
    example.run_with example.opts_fallback
    = (Ret {| PackagesToBeInstalled := [example.blob; example.jq] |}, final)
    /\ [example.blob; example.jq]
       = kept_specs example.three_specs final.2 0
           (sort_Strings (map_keys example.three_specs))
    /\ (example.hello ∈ [example.blob; example.jq]
        \/ (SkipInstalled example.opts_fallback = true
            /\ exists i, EvIsPackageVersionInstalled i example.hello (true, None)
                           ∈ final.2)).
Proof.
  assert (Hrun : example.run_with example.opts_fallback
                 = (Ret {| PackagesToBeInstalled := [example.blob; example.jq] |},
                    (example.run_with example.opts_fallback).2)).
  { vm_compute. reflexivity. }
  exists (example.run_with example.opts_fallback).2. split; [exact Hrun|].
  destruct (Download_result_covers_specs_not_installed
              example.three_specs example.opts_fallback
              (Some debian.New) (Some ∅) _ _ Hrun) as [Hlist Hcov].
  split; [exact Hlist|].
  apply (Hcov (filespec.Name example.hello)). vm_compute. reflexivity.
Defined.

(** The same run: hello was requested and is not in the result list. *)
Lemma Download_result_omits_installed_spec :
  exists res final,
    example.run_with example.opts_fallback = (Ret res, final)
    /\ example.three_specs !! filespec.Name example.hello = Some example.hello
    /\ example.hello ∉ PackagesToBeInstalled res.
Proof.
  exists {| PackagesToBeInstalled := [example.blob; example.jq] |},
    (example.run_with example.opts_fallback).2.
  split; [vm_compute; reflexivity|]. split; [vm_compute; reflexivity|].
  cbn. intros Hin. in_cases Hin; discriminate.
Qed.

(** Two runs on the example host.  With a dead provider before the
    mirror, the failed fetch of blob.bin from the first provider is
    followed by a fetch from the mirror; with the dead provider alone,
    the failed fetch is the last call and the error of [Download]. *)
Lemma Download_provider_fallback_witness :
  let failed :=
    EvEnsure 0 0 (blob_url "down.example") (filespec.SHA256 blob)
      (Some (errors_New "404 Not Found")) in
  (failed ∈ (run_with opts_fallback).2.2
   /\ exists r', EvEnsure 0 1 (blob_url "mirror.example") (filespec.SHA256 blob) r'
                 ∈ (run_with opts_fallback).2.2)
  /\ (failed ∈ (run_with opts_dead).2.2
      /\ (run_with opts_dead).1
         = Raise (download_error blob (blob_url "down.example")
                    (errors_New "404 Not Found"))
      /\ exists log0, (run_with opts_dead).2.2 = log0 ++ [failed]).
Proof.
  intros failed.
  assert (Hfirst : forall fname sp,
            sort_Strings (map_keys three_specs) !! 0 = Some fname ->
            three_specs !! fname = Some sp -> sp = blob).
  { intros fname sp Hk Hsp. vm_compute in Hk. injection Hk as <-.
    vm_compute in Hsp. by injection Hsp as <-. }
  split.
  - assert (Hin : failed ∈ (run_with opts_fallback).2.2) by in_log.
    split; [exact Hin|].
    destruct (Download_provider_fallback three_specs opts_fallback debian.New ∅
                _ _ (surjective_pairing (run_with opts_fallback)) _ _ _ _ _ Hin)
      as (fname & sp & Hk & Hsp & _ & _ & Hnext & _).
    rewrite (Hfirst _ _ Hk Hsp) in Hnext.
    destruct Hnext as (provider & Hp & _ & Hfetch); [cbn; lia|].
    injection Hp as <-. exact (Hfetch _ eq_refl).
  - assert (Hin : failed ∈ (run_with opts_dead).2.2) by in_log.
    split; [exact Hin|].
    destruct (Download_provider_fallback three_specs opts_dead debian.New ∅
                _ _ (surjective_pairing (run_with opts_dead)) _ _ _ _ _ Hin)
      as (fname & sp & Hk & Hsp & _ & _ & _ & Hlast).
    rewrite (Hfirst _ _ Hk Hsp) in Hlast. exact (Hlast eq_refl).
Defined.

(** The run with a template that does not parse in second place: the
    failed resolution ends the run. *)
Lemma Download_url_failure_aborts_witness :
  exists r final,
    example.run_with example.opts_bad_template = (r, final)
    /\ EvURL 0 1 "{{" (inr (errors_New "template: unclosed action")) ∈ final.2
    /\ exists (fname : string) (sp : filespec.FileSpec),
        sort_Strings (map_keys example.three_specs) !! 0 = Some fname
        /\ example.three_specs !! fname = Some sp
        /\ FileSpec_URL sp "{{" = inr (errors_New "template: unclosed action")
        /\ r = Raise (url_error sp "{{")
        /\ (exists log0,
              final.2 = log0 ++ [EvURL 0 1 "{{"
                                   (inr (errors_New "template: unclosed action"))])
        /\ (forall j' provider' r', EvURL 0 j' provider' r' ∈ final.2 -> j' <= 1).
Proof.
  pose (run := example.run_with example.opts_bad_template).
  exists run.1, run.2.
  assert (Hrun : example.run_with example.opts_bad_template = (run.1, run.2)).
  { apply surjective_pairing. }
  assert (Hin : EvURL 0 1 "{{" (inr (errors_New "template: unclosed action"))
                ∈ run.2.2).
  { in_log. }
  split; [exact Hrun|]. split; [exact Hin|].
  exact (Download_url_failure_aborts example.three_specs example.opts_bad_template
           debian.New ∅ _ _ Hrun _ _ _ _ Hin).
Defined.

(** hello 2.10-2 is installed on the example host: its iteration asks
    the driver and nothing else. *)
Lemma Download_installed_spec_no_cache_access_witness :
  (let st := {| st_d := debian.New; st_cache := (∅ : gset string); st_log := [] |} in
   let d' := (debian.IsPackageVersionInstalled debian.New example.hello).2 in
   loop_body example.three_specs example.opts_fallback
     ["down.example"; "mirror.example"] 3 1
     (filespec.Name example.hello) {| PackagesToBeInstalled := [] |} st
   = (Ret {| PackagesToBeInstalled := [] |},
      {| st_d := d'; st_cache := ∅;
         st_log := already_installed_events 1 3 example.hello |}))
  /\ exists r final,
      example.run_with example.opts_fallback = (r, final)
      /\ EvIsPackageVersionInstalled 1 example.hello (true, None) ∈ final.2
      /\ SkipInstalled example.opts_fallback = true
      /\ forall e, e ∈ final.2 -> event_iteration e = 1 ->
           is_cache_or_network e = false.
Proof.
  destruct (Download_installed_spec_no_cache_access
              (D := debian.debian) (C := gset string)
              example.three_specs example.opts_fallback) as [Hbody Hrun].
  split.
  - cbv zeta.
    apply (Hbody _ 3 1 (filespec.Name example.hello) example.hello
             {| PackagesToBeInstalled := [] |}
             {| st_d := debian.New; st_cache := (∅ : gset string); st_log := [] |});
      vm_compute; reflexivity.
  - pose (run := example.run_with example.opts_fallback).
    exists run.1, run.2.
    assert (Heq : example.run_with example.opts_fallback = (run.1, run.2)).
    { apply surjective_pairing. }
    assert (Hin : EvIsPackageVersionInstalled 1 example.hello (true, None) ∈ run.2.2).
    { in_log. }
    split; [exact Heq|]. split; [exact Hin|].
    exact (Hrun _ _ _ _ Heq _ _ Hin).
Defined.

(** With the driver [none], which has no default providers, and no
    provider in the options, nothing is called; with the debian driver
    its three default providers are used. *)
Lemma Download_no_provider_is_error_witness :
  Providers example.opts_default = []
  /\ (exists e,
       Download example.three_specs example.opts_default
         (Some none.New) (Some (∅ : gset string))
       = (Raise e, (Some none.New, Some ∅, []))
       /\ (is_Some (Some none.New) -> is_Some (Some (∅ : gset string)) ->
            e = errors_New "provider needs to be specified"))
  /\ example.run_with example.opts_default
     = Download example.three_specs
         {| Providers := distro.DefaultProviders (debian.Info debian.New);
            SkipInstalled := false |}
         (Some debian.New) (Some ∅).
Proof.
  split; [reflexivity|]. split.
  - apply (proj1 (Download_no_provider_is_error example.three_specs
                    example.opts_default (Some none.New) (Some ∅) eq_refl)).
    intros d0 [= <-]. reflexivity.
  - exact (proj2 (Download_no_provider_is_error example.three_specs
                    example.opts_default (Some debian.New) (Some ∅) eq_refl)
             debian.New eq_refl).
Defined.

(** With no provider in the options the debian driver's default
    providers are used: a cached spec is returned without any error,
    and from an empty cache the first default provider is fetched
    from. *)
Lemma Download_empty_providers_uses_defaults :
  Providers example.opts_default = []
  /\ (exists final,
        Download (example.specs [example.blob]) example.opts_default
          (Some debian.New) (Some ({[filespec.SHA256 example.blob]} : gset string))
        = (Ret {| PackagesToBeInstalled := [example.blob] |}, final))
  /\ (exists r final,
        example.run_with example.opts_default = (r, final)
        /\ EvEnsure 0 0 (example.blob_url "http://deb.debian.org/debian/{{.Name}}")
             (filespec.SHA256 example.blob) (Some (errors_New "404 Not Found"))
           ∈ final.2).
Proof.
  split; [reflexivity|]. split.
  - eexists (_, _, _). vm_compute. reflexivity.
  - pose (run := example.run_with example.opts_default).
    exists run.1, run.2. split; [apply surjective_pairing|]. in_log.
Qed.

End downloader_examples.

Section downloader_order_examples.
Import downloader example.

(** The three example specs, read from the map in the reverse order.
    The run goes through blob.bin, hello and jq in this order: blob.bin
    and jq are looked up in the cache and fetched, hello is reported as
    installed; the result list is blob.bin, jq.  With the dead provider
    alone the run stops in the iteration of blob.bin. *)
Lemma Download_processes_in_sorted_order_witness :
  let names := sort_Strings (map_keys three_specs) in
  let range := reverse (map_keys three_specs) in
  let run := run_with opts_fallback in
  names = [filespec.Name blob; filespec.Name hello; filespec.Name jq]
  /\ run.1 = Ret {| PackagesToBeInstalled := [blob; jq] |}
  /\ event_iteration <$> run.2.2
     = [0; 0; 0; 0; 0; 0; 0; 0; 0; 0; 1; 1; 2; 2; 2; 2; 2; 2; 2; 2; 2]
  /\ EvCached 0 (filespec.SHA256 blob) (false, None) ∈ run.2.2
  /\ EvIsPackageVersionInstalled 1 hello (true, None) ∈ run.2.2
  /\ EvCached 2 (filespec.SHA256 jq) (false, None) ∈ run.2.2
  /\ range ≡ₚ map_keys three_specs
  /\ Download_ranged three_specs opts_fallback range
       (Some debian.New) (Some (∅ : gset string)) = run
  /\ StronglySorted le (event_iteration <$> run.2.2)
  /\ (forall e, e ∈ run.2.2 ->
        exists (fname : string) (sp : filespec.FileSpec),
          names !! event_iteration e = Some fname
          /\ three_specs !! fname = Some sp
          /\ event_for (event_iteration e) sp e)
  /\ (forall res, run.1 = Ret res ->
        exists kept, kept `sublist_of` names
          /\ PackagesToBeInstalled res
             = omap (fun f => three_specs !! f) kept)
  /\ (exists n,
        n = 3
        /\ (forall i, i < n ->
              exists (fname : string) (sp : filespec.FileSpec),
                names !! i = Some fname /\ three_specs !! fname = Some sp
                /\ (EvIsPackageVersionInstalled i sp (true, None) ∈ run.2.2
                    \/ exists rc, EvCached i (filespec.SHA256 sp) rc ∈ run.2.2))
        /\ (forall e, e ∈ run.2.2 -> event_iteration e < n)
        /\ [blob; jq] = kept_specs three_specs run.2.2 0 names)
  /\ (exists n,
        n = 1
        /\ (run_with opts_dead).1
           = Raise (download_error blob (blob_url "down.example")
                      (errors_New "404 Not Found"))
        /\ (forall e, e ∈ (run_with opts_dead).2.2 -> event_iteration e < n)
        /\ exists log0 ev, (run_with opts_dead).2.2 = log0 ++ [ev]
             /\ event_iteration ev = n - 1).
Proof.
  intros names range run.
  destruct (Download_processes_in_sorted_order three_specs opts_fallback
              (Some debian.New) (Some (∅ : gset string)))
    as (_ & _ & Hrange & Hrun).
  destruct (Hrun run.1 run.2 (surjective_pairing _)) as (Hsorted & Hfor & Hkept & Hiter).
  assert (Hperm : range ≡ₚ map_keys three_specs).
  { apply reverse_Permutation. }
  assert (Hret : run.1 = Ret {| PackagesToBeInstalled := [blob; jq] |}).
  { vm_compute. reflexivity. }
  split; [vm_compute; reflexivity|]. split; [exact Hret|].
  split; [vm_compute; reflexivity|].
  split; [in_log|]. split; [in_log|]. split; [in_log|].
  split; [exact Hperm|]. split; [exact (Hrange range Hperm)|].
  split; [exact Hsorted|]. split; [exact Hfor|]. split; [exact Hkept|].
  split.
  - destruct (Hiter debian.New eq_refl) as (n & _ & Hrec & Hit & Hall & _).
    { eexists. reflexivity. }
    { vm_compute. discriminate. }
    destruct (Hall _ Hret) as [Hn Hlist].
    exists n. split; [rewrite Hn; vm_compute; reflexivity|].
    split; [exact Hrec|]. split; [exact Hit|]. exact Hlist.
  - destruct (Download_processes_in_sorted_order three_specs opts_dead
                (Some debian.New) (Some (∅ : gset string)))
      as (_ & _ & _ & Hdead).
    destruct (Hdead (run_with opts_dead).1 (run_with opts_dead).2
                (surjective_pairing _)) as (_ & _ & _ & Hstop).
    destruct (Hstop debian.New eq_refl) as (n & _ & _ & Hit & _ & Hraise).
    { eexists. reflexivity. }
    { vm_compute. discriminate. }
    assert (Herr : (run_with opts_dead).1
                   = Raise (download_error blob (blob_url "down.example")
                              (errors_New "404 Not Found"))).
    { vm_compute. reflexivity. }
    destruct (Hraise _ Herr) as (Hpos & log0 & ev & Hlog & Hev).
    assert (Hn : n = 1).
    { assert (Hin : ev ∈ (run_with opts_dead).2.2).
      { rewrite Hlog. apply elem_of_app. right. apply list_elem_of_here. }
      assert (Hzero : forall e, e ∈ (run_with opts_dead).2.2 -> event_iteration e = 0).
      { intros e He. apply list_elem_of_In in He. vm_compute in He.
        repeat (destruct He as [<-|He]; [reflexivity|]). destruct He. }
      apply Hzero in Hin. lia. }
    exists n. split; [exact Hn|]. split; [exact Herr|]. split; [exact Hit|].
    exists log0, ev. split; [exact Hlog|exact Hev].
Defined.
End downloader_order_examples.

(** A pair whose first component is known. *)
Lemma pair_fst_eq {A B : Type} (p : A * B) (a : A) : p.1 = a -> p = (a, p.2).
Proof. destruct p as [a' b]. cbn. by intros ->. Qed.

Section downloader_more_examples.
Import downloader example.

(** blob.bin is in the cache: its iteration resolves no URL and
    fetches nothing, and blob.bin is in the result. *)
Lemma Download_cache_hit_skips_fetch_witness :
  EvCached 0 (filespec.SHA256 blob) (true, None) ∈ run_warm.2.2
  /\ exists (fname : string) (sp : filespec.FileSpec),
       sort_Strings (map_keys three_specs) !! 0 = Some fname
       /\ three_specs !! fname = Some sp
       /\ filespec.SHA256 blob = filespec.SHA256 sp
       /\ (forall j provider r', EvURL 0 j provider r' ∉ run_warm.2.2)
       /\ (forall j u sha256' r', EvEnsure 0 j u sha256' r' ∉ run_warm.2.2)
       /\ (forall res, run_warm.1 = Ret res -> sp ∈ PackagesToBeInstalled res).
Proof.
  assert (Hin : EvCached 0 (filespec.SHA256 blob) (true, None) ∈ run_warm.2.2)
    by in_log.
  split; [exact Hin|].
  exact (Download_cache_hit_skips_fetch three_specs opts_fallback debian.New
           {[filespec.SHA256 blob]} _ _ (surjective_pairing run_warm) _ _ Hin).
Defined.

(** The fetch of blob.bin from the mirror, the second provider,
    succeeds: no third provider is tried. *)
Lemma Download_first_success_ends_fetch_witness :
  let log := (run_with opts_fallback).2.2 in
  EvEnsure 0 1 (blob_url "mirror.example") (filespec.SHA256 blob) None ∈ log
  /\ exists (fname : string) (sp : filespec.FileSpec),
       sort_Strings (map_keys three_specs) !! 0 = Some fname
       /\ three_specs !! fname = Some sp
       /\ filespec.SHA256 blob = filespec.SHA256 sp
       /\ (forall j' provider r', EvURL 0 j' provider r' ∈ log -> j' <= 1)
       /\ (forall j' u' sha256' r', EvEnsure 0 j' u' sha256' r' ∈ log -> j' <= 1)
       /\ (forall res, (run_with opts_fallback).1 = Ret res ->
             sp ∈ PackagesToBeInstalled res).
Proof.
  intros log.
  assert (Hin : EvEnsure 0 1 (blob_url "mirror.example") (filespec.SHA256 blob) None
                ∈ log) by in_log.
  split; [exact Hin|].
  exact (Download_first_success_ends_fetch three_specs opts_fallback debian.New ∅
           _ _ (surjective_pairing (run_with opts_fallback)) _ _ _ _ Hin).
Defined.

(** The mirror is the second provider of the list: the dead one before
    it was fetched from and failed. *)
Lemma Download_providers_tried_in_order_witness :
  let log := (run_with opts_fallback).2.2 in
  EvURL 0 1 "mirror.example" (inl (blob_url "mirror.example")) ∈ log
  /\ exists (fname : string) (sp : filespec.FileSpec),
       sort_Strings (map_keys three_specs) !! 0 = Some fname
       /\ three_specs !! fname = Some sp
       /\ effective_providers opts_fallback debian.New !! 1 = Some "mirror.example"
       /\ inl (blob_url "mirror.example") = FileSpec_URL sp "mirror.example"
       /\ forall j', j' < 1 ->
            exists provider' u err,
              effective_providers opts_fallback debian.New !! j' = Some provider'
              /\ FileSpec_URL sp provider' = inl u
              /\ EvEnsure 0 j' u (filespec.SHA256 sp) (Some err) ∈ log.
Proof.
  intros log.
  assert (Hin : EvURL 0 1 "mirror.example" (inl (blob_url "mirror.example")) ∈ log)
    by in_log.
  split; [exact Hin|].
  exact (Download_providers_tried_in_order three_specs opts_fallback debian.New ∅
           _ _ (surjective_pairing (run_with opts_fallback)) _ _ _ _ Hin).
Defined.

(** blob.bin has no package identity: the driver answers with an
    error, and the cache is asked; the cache does not hold it, and the
    first provider is tried. *)
Lemma Download_unclean_answers_go_on_witness :
  let log := (run_with opts_fallback).2.2 in
  let no_identity :=
    fmt_Errorf "dpkg information not available for %q" [AString "files/blob.bin"] in
  (EvIsPackageVersionInstalled 0 blob (false, Some no_identity) ∈ log
   /\ exists rc, EvCached 0 (filespec.SHA256 blob) rc ∈ log)
  /\ (EvCached 0 (filespec.SHA256 blob) (false, None) ∈ log
      /\ exists (fname : string) (sp : filespec.FileSpec) provider,
           sort_Strings (map_keys three_specs) !! 0 = Some fname
           /\ three_specs !! fname = Some sp
           /\ effective_providers opts_fallback debian.New !! 0 = Some provider
           /\ EvURL 0 0 provider (FileSpec_URL sp provider) ∈ log).
Proof.
  intros log no_identity.
  destruct (Download_unclean_answers_go_on three_specs opts_fallback debian.New ∅
              _ _ (surjective_pairing (run_with opts_fallback))) as [Hdrv Hcache].
  split.
  - assert (Hin : EvIsPackageVersionInstalled 0 blob (false, Some no_identity) ∈ log)
      by in_log.
    split; [exact Hin|]. exact (Hdrv _ _ _ Hin eq_refl).
  - assert (Hin : EvCached 0 (filespec.SHA256 blob) (false, None) ∈ log) by in_log.
    split; [exact Hin|]. exact (Hcache _ _ _ Hin eq_refl).
Defined.

(** blob.bin and jq, the result of the run, were both fetched. *)
Lemma Download_result_cached_or_fetched_witness :
  exists final,
    run_with opts_fallback = (Ret {| PackagesToBeInstalled := [blob; jq] |}, final)
    /\ cached_or_fetched final.2 blob /\ cached_or_fetched final.2 jq.
Proof.
  assert (Hrun : run_with opts_fallback
                 = (Ret {| PackagesToBeInstalled := [blob; jq] |},
                    (run_with opts_fallback).2)).
  { apply pair_fst_eq. vm_compute. reflexivity. }
  exists (run_with opts_fallback).2. split; [exact Hrun|].
  pose proof (Download_result_cached_or_fetched three_specs opts_fallback
                (Some debian.New) (Some ∅) _ _ Hrun) as Hall.
  split; apply Hall; cbn; [left|right; left].
Defined.

(** The set cache holds what it fetched and forgets nothing: after the
    run blob.bin and jq are in it. *)
Lemma Download_leaves_result_cached_witness :
  exists final c',
    run_with opts_fallback = (Ret {| PackagesToBeInstalled := [blob; jq] |}, final)
    /\ final.1.2 = Some c'
    /\ cache.Cached c' (filespec.SHA256 blob) = (true, None)
    /\ cache.Cached c' (filespec.SHA256 jq) = (true, None).
Proof.
  assert (Hcaches : forall (c : gset string) u sha256 c',
            cache.Ensure c u sha256 = (None, c') ->
            cache.Cached c' sha256 = (true, None)).
  { intros c u sha c' Hens. cbn in Hens |- *.
    destruct (bool_decide (sha ∈ c)) eqn:Hb.
    - injection Hens as <-. by rewrite Hb.
    - destruct (String.eqb (url.Host u) "mirror.example"); [|discriminate].
      injection Hens as <-. rewrite bool_decide_eq_true_2; [done|]. set_solver. }
  assert (Hkeeps : forall (c : gset string) u sha256 r c' sha256',
            cache.Ensure c u sha256 = (r, c') ->
            cache.Cached c sha256' = (true, None) ->
            cache.Cached c' sha256' = (true, None)).
  { intros c u sha r c' sha' Hens Hc. cbn in Hens, Hc |- *.
    injection Hc as Hc. apply bool_decide_eq_true_1 in Hc.
    assert (Hsub : c ⊆ c').
    { destruct (bool_decide (sha ∈ c)); [by injection Hens as _ <-|].
      destruct (String.eqb (url.Host u) "mirror.example");
        injection Hens as _ <-; set_solver. }
    rewrite bool_decide_eq_true_2; [done|]. set_solver. }
  assert (Hrun : run_with opts_fallback
                 = (Ret {| PackagesToBeInstalled := [blob; jq] |},
                    (run_with opts_fallback).2)).
  { apply pair_fst_eq. vm_compute. reflexivity. }
  destruct (Download_leaves_result_cached three_specs opts_fallback
              (Some debian.New) (Some (∅ : gset string)) _ _ Hcaches Hkeeps Hrun)
    as (c' & Hc' & Hall).
  exists (run_with opts_fallback).2, c'. split; [exact Hrun|]. split; [exact Hc'|].
  split; apply Hall; cbn; [left|right; left].
Defined.

(** The run with the dead provider alone, without [SkipInstalled]. *)
Lemma Download_without_skip_never_asks_driver_witness :
  SkipInstalled opts_dead = false
  /\ (run_with opts_dead).2.1.1 = Some debian.New
  /\ forall e, e ∈ (run_with opts_dead).2.2 -> is_driver_call e = false.
Proof.
  split; [reflexivity|].
  exact (Download_without_skip_never_asks_driver three_specs opts_dead debian.New
           (Some ∅) _ _ eq_refl (surjective_pairing (run_with opts_dead))).
Defined.

(** With the driver "none" nothing counts as installed: the three
    specs are returned, hello among them. *)
Lemma Download_returns_every_spec_witness :
  exists final,
    Download three_specs opts_mirror (Some none.New) (Some (∅ : gset string))
    = (Ret {| PackagesToBeInstalled := [blob; hello; jq] |}, final)
    /\ [blob; hello; jq]
       = omap (fun f => three_specs !! f) (sort_Strings (map_keys three_specs)).
Proof.
  pose (run := Download three_specs opts_mirror (Some none.New)
                 (Some (∅ : gset string))).
  assert (Hrun : run = (Ret {| PackagesToBeInstalled := [blob; hello; jq] |}, run.2)).
  { apply pair_fst_eq. vm_compute. reflexivity. }
  exists run.2. split; [exact Hrun|].
  apply (Download_returns_every_spec three_specs opts_mirror (Some none.New)
           (Some ∅) {| PackagesToBeInstalled := [blob; hello; jq] |} run.2);
    [right; intros d sp; reflexivity|exact Hrun].
Defined.

End downloader_more_examples.

Section debian_generateHash_facts.
Import debian.
Context {V : Type} `{!version.Version V} {S : Type}.
Variable hw : distro.HashWriter S.

Lemma generateHash_loop_app l1 l2 (st : LoopState) :
  generateHash_loop hw (l1 ++ l2) st
  = match generateHash_loop hw l1 st with
    | (Some err, st') => (Some err, st')
    | (None, st') => generateHash_loop hw l2 st'
    end.
Proof.
  revert st. induction l1 as [|f l1 IH]; intros st; cbn; [done|].
  destruct (generateHash_body hw f st) as [[err|] st']; [done|]. apply IH.
Qed.

(** An iteration leaves the versions seen under other keys alone. *)
Lemma generateHash_body_seen_other f (st : LoopState) k :
  seenK f <> k ->
  seen (generateHash_body hw f st).2 !! k = seen st !! k.
Proof.
  intros Hk. unfold generateHash_body.
  destruct (superseded (seen st) f); [done|].
  repeat case_decide; cbn; try by rewrite lookup_insert_ne.
  destruct (hw _ _ _); cbn. by rewrite lookup_insert_ne.
Qed.

Lemma generateHash_loop_seen_other l (st : LoopState) k :
  Forall (fun f => seenK f <> k) l ->
  seen (generateHash_loop hw l st).2 !! k = seen st !! k.
Proof.
  intros Hall. revert st. induction Hall as [|f l Hf Hl IH]; intros st; cbn; [done|].
  pose proof (generateHash_body_seen_other f st k Hf) as Hbody.
  destruct (generateHash_body hw f st) as [[err|] st']; cbn in *; [done|].
  by rewrite IH.
Qed.

(** A paragraph whose key has not been seen records its version, also
    when it is then passed over for want of a file name or digest. *)
Lemma generateHash_body_seen_first f (st : LoopState) :
  seen st !! seenK f = None ->
  seen (generateHash_body hw f st).2 !! seenK f = Some (ver f).
Proof.
  intros Hnone. unfold generateHash_body, superseded. rewrite Hnone.
  repeat case_decide; cbn; try by rewrite lookup_insert_eq.
  destruct (hw _ _ _); cbn. by rewrite lookup_insert_eq.
Qed.

(** A paragraph that follows a higher version of its key changes
    nothing. *)
Lemma generateHash_body_lower f (st : LoopState) seenV seenVParsed verParsed :
  seen st !! seenK f = Some seenV ->
  version.Parse seenV = inl seenVParsed ->
  version.Parse (ver f) = inl verParsed ->
  (version.Compare seenVParsed verParsed > 0)%Z ->
  generateHash_body hw f st = (None, st).
Proof.
  intros Hseen Hp1 Hp2 Hcmp. unfold generateHash_body, superseded.
  rewrite Hseen, Hp1, Hp2.
  destruct (Z.gtb_spec (version.Compare seenVParsed verParsed) 0); [|lia].
  unfold warn. rewrite app_nil_r. by destruct st.
Qed.

(** The lower version after the higher one is passed over, as if it
    were not in the index. *)
Lemma generateHash_loop_drops_lower before hi between lo after (st : LoopState) vhi vlo :
  seenK lo = seenK hi ->
  seen st !! seenK hi = None ->
  Forall (fun f => seenK f <> seenK hi) (before ++ between) ->
  version.Parse (ver hi) = inl vhi ->
  version.Parse (ver lo) = inl vlo ->
  (version.Compare vhi vlo > 0)%Z ->
  generateHash_loop hw (before ++ hi :: between ++ lo :: after) st
  = generateHash_loop hw (before ++ hi :: between ++ after) st.
Proof.
  intros Hkey Hfresh Hother Hphi Hplo Hcmp.
  apply Forall_app in Hother as [Hbefore Hbetween].
  rewrite !generateHash_loop_app.
  pose proof (generateHash_loop_seen_other before st _ Hbefore) as Hs1.
  destruct (generateHash_loop hw before st) as [[err|] st1]; [done|].
  cbn in Hs1. rewrite Hfresh in Hs1. cbn [generateHash_loop].
  pose proof (generateHash_body_seen_first hi st1 Hs1) as Hs2.
  destruct (generateHash_body hw hi st1) as [[err|] st2]; [done|].
  cbn in Hs2. rewrite !generateHash_loop_app.
  pose proof (generateHash_loop_seen_other between st2 _ Hbetween) as Hs3.
  destruct (generateHash_loop hw between st2) as [[err|] st3]; [done|].
  cbn in Hs3. rewrite Hs2 in Hs3. cbn [generateHash_loop].
  rewrite <- Hkey in Hs3.
  by rewrite (generateHash_body_lower lo st3 _ _ _ Hs3 Hphi Hplo Hcmp).
Qed.
End debian_generateHash_facts.

Section debian_list_writer_facts.
Import debian.
Context {V : Type} `{!version.Version V}.

Lemma list_writer_body_sink f (st : LoopState) :
  exists st' more,
    generateHash_body list_writer f st = (None, st')
    /\ sink st' = sink st ++ more
    /\ (superseded (seen st) f = None -> has_entry f -> more = [entry f]).
Proof.
  unfold generateHash_body.
  destruct (superseded (seen st) f) as [logged|].
  { eexists _, []. rewrite app_nil_r. done. }
  repeat case_decide.
  - eexists _, []. rewrite app_nil_r. split; [done|]. split; [done|].
    by intros _ [? ?].
  - eexists _, []. rewrite app_nil_r. split; [done|]. split; [done|].
    by intros _ [? ?].
  - eexists _, [entry f]. done.
Qed.

Lemma list_writer_loop_sink l : forall (st : LoopState),
  exists st' more,
    generateHash_loop list_writer l st = (None, st')
    /\ sink st' = sink st ++ more.
Proof.
  induction l as [|f l IH]; intros st; cbn.
  { exists st, []. by rewrite app_nil_r. }
  destruct (list_writer_body_sink f st) as (st1 & more1 & -> & Hs1 & _).
  destruct (IH st1) as (st2 & more2 & -> & Hs2).
  exists st2, (more1 ++ more2). by rewrite Hs2, Hs1, app_assoc.
Qed.

(** Every entry the generator writes has a digest and a file name. *)
Lemma list_writer_loop_entries l : forall (st : LoopState),
  Forall (fun e => e.1 <> EmptyString /\ e.2 <> EmptyString) (sink st) ->
  Forall (fun e => e.1 <> EmptyString /\ e.2 <> EmptyString)
    (sink (generateHash_loop list_writer l st).2).
Proof.
  induction l as [|f l IH]; intros st Hst; cbn; [done|].
  unfold generateHash_body.
  destruct (superseded (seen st) f) as [logged|]; [by apply IH|].
  repeat case_decide; try by apply IH.
  cbn. apply IH. cbn. apply Forall_app. split; [done|]. by repeat constructor.
Qed.

(** The first paragraph of a key is written, if it has a file name and
    a digest. *)
Lemma generateHash_loop_writes_first before f after (st : LoopState) :
  seen st !! seenK f = None ->
  Forall (fun f' => seenK f' <> seenK f) before ->
  has_entry f ->
  exists st',
    generateHash_loop list_writer (before ++ f :: after) st = (None, st')
    /\ entry f ∈ sink st'.
Proof.
  intros Hfresh Hbefore Hf.
  rewrite generateHash_loop_app.
  pose proof (generateHash_loop_seen_other list_writer before st _ Hbefore) as Hs1.
  destruct (list_writer_loop_sink before st) as (st1 & m1 & Heq1 & _).
  rewrite Heq1 in Hs1 |- *. cbn in Hs1. rewrite Hfresh in Hs1.
  cbn [generateHash_loop].
  destruct (list_writer_body_sink f st1) as (st2 & m2 & Heq2 & Hsink2 & Hm2).
  rewrite Heq2.
  rewrite Hm2 in Hsink2; [|by unfold superseded; rewrite Hs1|done].
  destruct (list_writer_loop_sink after st2) as (st3 & m3 & Heq3 & Hsink3).
  rewrite Heq3. exists st3. split; [done|].
  rewrite Hsink3, Hsink2, !elem_of_app, list_elem_of_singleton. tauto.
Qed.

(** What the generator writes comes from paragraphs with a file name
    and a digest. *)
Lemma list_writer_loop_written l : forall (st : LoopState),
  exists st' more,
    generateHash_loop list_writer l st = (None, st')
    /\ sink st' = sink st ++ more
    /\ Forall (fun e => exists f, f ∈ l /\ has_entry f /\ e = entry f) more.
Proof.
  induction l as [|f l IH]; intros st; cbn [generateHash_loop].
  { exists st, []. by rewrite app_nil_r. }
  assert (Hrest : forall st1 more1,
            sink st1 = sink st ++ more1 ->
            Forall (fun e => has_entry f /\ e = entry f) more1 ->
            exists st' more,
              generateHash_loop list_writer l st1 = (None, st')
              /\ sink st' = sink st ++ more
              /\ Forall (fun e => exists f', f' ∈ f :: l /\ has_entry f' /\ e = entry f')
                   more).
  { intros st1 more1 Hs1 Hm1. destruct (IH st1) as (st2 & more2 & Heq & Hs2 & Hm2).
    exists st2, (more1 ++ more2). split; [done|].
    split; [by rewrite Hs2, Hs1, app_assoc|]. apply Forall_app. split.
    - eapply Forall_impl; [exact Hm1|]. intros e [? ->]. exists f.
      split; [by left|done].
    - eapply Forall_impl; [exact Hm2|]. intros e (f' & ? & ? & ->). exists f'.
      split; [by right|done]. }
  unfold generateHash_body.
  destruct (superseded (seen st) f) as [logged|].
  { apply (Hrest _ []); [by rewrite app_nil_r|constructor]. }
  destruct (decide (map_index (control.Values f) "Filename" = EmptyString)) as [|Hf].
  { apply (Hrest _ []); [by rewrite app_nil_r|constructor]. }
  destruct (decide (map_index (control.Values f) "SHA256" = EmptyString)) as [|Hs].
  { apply (Hrest _ []); [by rewrite app_nil_r|constructor]. }
  cbn. apply (Hrest _ [entry f]); [done|]. by repeat constructor.
Qed.

(** The higher version, coming after the lower one, is not passed
    over: it is written if it has a file name and a digest, whether or
    not the lower one was. *)
Lemma generateHash_loop_writes_later_higher
    before lo between hi after (st : LoopState) vlo vhi :
  seenK hi = seenK lo ->
  seen st !! seenK lo = None ->
  Forall (fun f => seenK f <> seenK lo) (before ++ between) ->
  version.Parse (ver lo) = inl vlo ->
  version.Parse (ver hi) = inl vhi ->
  (version.Compare vlo vhi <= 0)%Z ->
  has_entry hi ->
  exists st',
    generateHash_loop list_writer (before ++ lo :: between ++ hi :: after) st
    = (None, st')
    /\ entry hi ∈ sink st'.
Proof.
  intros Hkey Hfresh Hother Hplo Hphi Hcmp Hhi.
  apply Forall_app in Hother as [Hbefore Hbetween].
  rewrite generateHash_loop_app.
  pose proof (generateHash_loop_seen_other list_writer before st _ Hbefore) as Hs1.
  destruct (list_writer_loop_sink before st) as (st1 & m1 & Heq1 & _).
  rewrite Heq1 in Hs1 |- *. cbn in Hs1. rewrite Hfresh in Hs1.
  cbn [generateHash_loop].
  pose proof (generateHash_body_seen_first list_writer lo st1 Hs1) as Hs2.
  destruct (list_writer_body_sink lo st1) as (st2 & m2 & Heq2 & _ & _).
  rewrite Heq2 in Hs2 |- *. cbn in Hs2.
  rewrite generateHash_loop_app.
  pose proof (generateHash_loop_seen_other list_writer between st2 _ Hbetween) as Hs3.
  destruct (list_writer_loop_sink between st2) as (st3 & m3 & Heq3 & _).
  rewrite Heq3 in Hs3 |- *. cbn in Hs3. rewrite Hs2 in Hs3.
  cbn [generateHash_loop].
  destruct (list_writer_body_sink hi st3) as (st4 & m4 & Heq4 & Hsink4 & Hm4).
  rewrite Heq4.
  rewrite Hm4 in Hsink4; [| |done].
  2:{ unfold superseded. rewrite Hkey, Hs3, Hplo, Hphi.
      destruct (Z.gtb_spec (version.Compare vlo vhi) 0); [lia|done]. }
  destruct (list_writer_loop_sink after st4) as (st5 & m5 & Heq5 & Hsink5).
  rewrite Heq5. exists st5. split; [done|].
  rewrite Hsink5, Hsink4, !elem_of_app, !list_elem_of_singleton. tauto.
Qed.
End debian_list_writer_facts.

Section debian_properties.
Import debian.
Context {V : Type} `{!version.Version V}.

(** C2, as amended.  For a key (package, architecture) that occurs twice
    in the index with versions that parse: when the higher version comes
    first, the later entry of the lower version is passed over, the
    manifest being the one of the index without it, and the entry of
    the higher version is written if the paragraph has a file name and
    a digest; when the lower version comes first, each of the two
    entries is written if its paragraph has a file name and a digest,
    the lower one before the higher one is read, so that the manifest
    holds both.  A paragraph without a file name or without a digest is
    never written (its version counts for its key all the same): every
    entry of the manifest is that of a paragraph of the index with a
    file name and a digest. *)
Theorem generateHash_version_tie_break :
  (forall (S : Type) (hw : distro.HashWriter S) before hi between lo after s vhi vlo,
     seenK lo = seenK hi ->
     Forall (fun f => seenK f <> seenK hi) (before ++ between) ->
     version.Parse (ver hi) = inl vhi ->
     version.Parse (ver lo) = inl vlo ->
     (version.Compare vhi vlo > 0)%Z ->
     generateHash hw (inl (before ++ hi :: between ++ lo :: after)) s
     = generateHash hw (inl (before ++ hi :: between ++ after)) s)
  /\ (forall before hi after,
       Forall (fun f => seenK f <> seenK hi) before ->
       has_entry hi ->
       exists out w,
         generateHash list_writer (inl (before ++ hi :: after)) [] = (None, out, w)
         /\ entry hi ∈ out)
  /\ (forall before lo between hi after vlo vhi,
       seenK hi = seenK lo ->
       Forall (fun f => seenK f <> seenK lo) (before ++ between) ->
       version.Parse (ver lo) = inl vlo ->
       version.Parse (ver hi) = inl vhi ->
       (version.Compare vlo vhi <= 0)%Z ->
       exists out w,
         generateHash list_writer (inl (before ++ lo :: between ++ hi :: after)) []
         = (None, out, w)
         /\ (has_entry lo -> entry lo ∈ out)
         /\ (has_entry hi -> entry hi ∈ out))
  /\ (forall paragraphs,
       exists out w,
         generateHash list_writer (inl paragraphs) [] = (None, out, w)
         /\ Forall (fun e => exists f, f ∈ paragraphs /\ has_entry f /\ e = entry f)
              out).
Proof.
  split; [|split; [|split]].
  - intros S hw before hi between lo after s vhi vlo Hkey Hother Hphi Hplo Hcmp.
    unfold generateHash.
    by rewrite (generateHash_loop_drops_lower hw before hi between lo after _ vhi vlo).
  - intros before hi after Hother Hhi. unfold generateHash.
    edestruct (generateHash_loop_writes_first before hi after
                 {| seen := ∅; sink := []; warnings := [] |})
      as (st' & -> & Hin); try done.
    eauto.
  - intros before lo between hi after vlo vhi Hkey Hother Hplo Hphi Hcmp.
    unfold generateHash.
    destruct (list_writer_loop_sink (before ++ lo :: between ++ hi :: after)
                {| seen := ∅; sink := []; warnings := [] |})
      as (st' & more & Heq & _).
    rewrite Heq. exists (sink st'), (warnings st'). split; [done|]. split.
    + intros Hlo.
      edestruct (generateHash_loop_writes_first before lo (between ++ hi :: after)
                   {| seen := ∅; sink := []; warnings := [] |})
        as (st1 & Heq1 & Hin); try done.
      { by apply Forall_app in Hother as [? _]. }
      rewrite Heq in Heq1. by injection Heq1 as <-.
    + intros Hhi.
      edestruct (generateHash_loop_writes_later_higher before lo between hi after
                   {| seen := ∅; sink := []; warnings := [] |})
        as (st1 & Heq1 & Hin); try done.
      rewrite Heq in Heq1. by injection Heq1 as <-.
  - intros paragraphs. unfold generateHash.
    destruct (list_writer_loop_written paragraphs
                {| seen := ∅; sink := []; warnings := [] |})
      as (st' & more & -> & Hsink & Hmore).
    exists (sink st'), (warnings st'). split; [done|]. by rewrite Hsink.
Qed.
End debian_properties.

Section debian_examples.
Import debian example.

(** foo 2.0 before foo 1.0 gives the manifest of foo 2.0 alone, which
    holds its entry; foo 1.0 before foo 2.0 gives both entries.  When
    foo 2.0 comes without a digest, it is not written in either order,
    and foo 1.0 is written only when it comes first. *)
Lemma generateHash_version_tie_break_witness :
  generateHash list_writer (inl [foo_2_0; foo_1_0]) []
  = generateHash list_writer (inl [foo_2_0]) []
  /\ (exists out w,
        generateHash list_writer (inl [foo_2_0]) [] = (None, out, w)
        /\ entry foo_2_0 ∈ out)
  /\ (exists out w,
        generateHash list_writer (inl [foo_1_0; foo_2_0]) [] = (None, out, w)
        /\ entry foo_1_0 ∈ out /\ entry foo_2_0 ∈ out)
  /\ generateHash list_writer (inl [foo_2_0_no_digest; foo_1_0]) []
     = generateHash list_writer (inl [foo_2_0_no_digest]) []
  /\ (exists w,
        generateHash list_writer (inl [foo_2_0_no_digest; foo_1_0]) []
        = (None, [], w))
  /\ (exists w,
        generateHash list_writer (inl [foo_1_0; foo_2_0_no_digest]) []
        = (None, [entry foo_1_0], w))
  /\ (exists out w,
        generateHash list_writer (inl [foo_1_0; foo_2_0_no_digest]) []
        = (None, out, w)
        /\ entry foo_1_0 ∈ out
        /\ Forall (fun e => exists f, f ∈ [foo_1_0; foo_2_0_no_digest]
                              /\ has_entry f /\ e = entry f) out).
Proof.
  destruct (generateHash_version_tie_break (V := version.DebVersion))
    as (Hdrop & Hfirst & Hkeep & Hwritten).
  pose (v1 := {| version.Epoch := 0; version.Upstream := "1.0";
                 version.Revision := EmptyString |}).
  pose (v2 := {| version.Epoch := 0; version.Upstream := "2.0";
                 version.Revision := EmptyString |}).
  assert (Hlo : has_entry foo_1_0) by (split; vm_compute; discriminate).
  assert (Hhi : has_entry foo_2_0) by (split; vm_compute; discriminate).
  split; [|split; [|split; [|split; [|split; [|split]]]]].
  - apply (Hdrop _ list_writer [] foo_2_0 [] foo_1_0 [] [] v2 v1).
    + vm_compute; reflexivity.
    + constructor.
    + vm_compute; reflexivity.
    + vm_compute; reflexivity.
    + vm_compute; reflexivity.
  - apply (Hfirst [] foo_2_0 []); [constructor|exact Hhi].
  - destruct (Hkeep [] foo_1_0 [] foo_2_0 [] v1 v2) as (out & w & Heq & Hin1 & Hin2).
    + vm_compute; reflexivity.
    + constructor.
    + vm_compute; reflexivity.
    + vm_compute; reflexivity.
    + vm_compute. discriminate.
    + exists out, w. split; [exact Heq|]. split; [exact (Hin1 Hlo)|exact (Hin2 Hhi)].
  - apply (Hdrop _ list_writer [] foo_2_0_no_digest [] foo_1_0 [] [] v2 v1).
    + vm_compute; reflexivity.
    + constructor.
    + vm_compute; reflexivity.
    + vm_compute; reflexivity.
    + vm_compute; reflexivity.
  - eexists. vm_compute. reflexivity.
  - eexists. vm_compute. reflexivity.
  - destruct (Hkeep [] foo_1_0 [] foo_2_0_no_digest [] v1 v2)
      as (out & w & Heq & Hin1 & _).
    + vm_compute; reflexivity.
    + constructor.
    + vm_compute; reflexivity.
    + vm_compute; reflexivity.
    + vm_compute. discriminate.
    + destruct (Hwritten [foo_1_0; foo_2_0_no_digest]) as (out' & w' & Heq' & Hall).
      cbn [app] in Heq. rewrite Heq in Heq'. injection Heq' as <- <-.
      exists out, w. split; [exact Heq|]. split; [exact (Hin1 Hlo)|exact Hall].
Defined.

(** Versions 1.0 and 2.0 of foo:amd64, in ascending order: the manifest
    holds the entry of 1.0 as well. *)
Lemma generateHash_keeps_lower_version_read_first :
  seenK foo_1_0 = seenK foo_2_0
  /\ ver foo_1_0 = "1.0" /\ ver foo_2_0 = "2.0"
  /\ generateHash list_writer (inl [foo_1_0; foo_2_0]) []
     = (None, [entry foo_1_0; entry foo_2_0], [])
  /\ entry foo_1_0 <> entry foo_2_0.
Proof. repeat split; vm_compute; (reflexivity || discriminate). Qed.
End debian_examples.

Section hash_generate_facts.
Import hash_generate.

Lemma dedupe_unchanged {S : Type} oldSums (hw0 : distro.HashWriter S) sha256sum filename s :
  sha256sum <> EmptyString ->
  dedupe oldSums hw0 sha256sum filename s
  = if decide (unchanged oldSums (sha256sum, filename)) then (None, s)
    else hw0 sha256sum filename s.
Proof.
  intros Hne. unfold dedupe.
  destruct (decide (unchanged oldSums (sha256sum, filename))) as [Hu|Hu];
    unfold unchanged in Hu; cbn in Hu.
  - rewrite decide_True; [done|]. unfold map_index. by rewrite Hu.
  - rewrite decide_False; [done|]. unfold map_index. intros Heq. apply Hu.
    destruct (oldSums !! filename); cbn in Heq; [by subst|]. by subst.
Qed.

Context {V : Type} `{!version.Version V}.

(** The debian generator under dedupe writes what it writes without,
    less the unchanged entries. *)
Lemma generateHash_loop_dedupe oldSums paragraphs :
  forall (st_d st : debian.LoopState),
    debian.seen st_d = debian.seen st ->
    debian.warnings st_d = debian.warnings st ->
    debian.sink st_d = filter (fun e => ~ unchanged oldSums e) (debian.sink st) ->
    exists st_d' st',
      debian.generateHash_loop (dedupe oldSums list_writer) paragraphs st_d = (None, st_d')
      /\ debian.generateHash_loop list_writer paragraphs st = (None, st')
      /\ debian.seen st_d' = debian.seen st'
      /\ debian.warnings st_d' = debian.warnings st'
      /\ debian.sink st_d' = filter (fun e => ~ unchanged oldSums e) (debian.sink st').
Proof.
  induction paragraphs as [|f paragraphs IH]; intros st_d st Hseen Hwarn Hsink; cbn.
  { by exists st_d, st. }
  unfold debian.generateHash_body. rewrite Hseen.
  destruct (debian.superseded (debian.seen st) f) as [logged|].
  { apply IH; cbn; by rewrite ?Hwarn. }
  destruct (decide (map_index (control.Values f) "Filename" = EmptyString)).
  { apply IH; cbn; by rewrite ?Hwarn. }
  destruct (decide (map_index (control.Values f) "SHA256" = EmptyString)) as [|Hsha].
  { apply IH; cbn; by rewrite ?Hwarn. }
  cbn. rewrite (dedupe_unchanged _ _ _ _ _ Hsha).
  destruct (decide (unchanged oldSums _)) as [Hu|Hu]; cbn.
  - apply IH; cbn; try done.
    rewrite filter_app, filter_cons_False, filter_nil, app_nil_r; [done|]. tauto.
  - apply IH; cbn; try done.
    rewrite filter_app, filter_cons_True, filter_nil; [|done]. by rewrite Hsink.
Qed.
End hash_generate_facts.

Section hash_generate_properties.
Import hash_generate.

(** C4.  With [--dedupe], the command hands the driver the writer
    [dedupe oldSums hw] built from the prior manifest; that writer drops
    an entry with a digest exactly when the prior manifest holds the
    file name with the same digest, and passes every other entry on
    unchanged; and the manifest the debian generator then writes is the
    one it writes without dedupe, less the unchanged entries. *)
Theorem dedupe_suppresses_unchanged_entries :
  (forall (D C S : Type) (Info : D -> distro.Info)
          (GenerateHash : D -> distro.HashWriter S -> distro.HashOpts C -> S
                          -> outcome unit * S)
          (cmd : Command D C) (hw : distro.HashWriter S) (s : S)
          d optsCache dedupeFile old oldSums,
     getDistro cmd = inl d ->
     open_cache Info cmd d = inl optsCache ->
     flag_dedupe cmd = inl dedupeFile ->
     dedupeFile <> EmptyString ->
     os_ReadFile cmd dedupeFile = inl old ->
     sha256sums_Parse cmd old = inl oldSums ->
     hashGenerateAction Info GenerateHash cmd hw s
     = GenerateHash d (dedupe oldSums hw)
         {| distro.FilterByName := args cmd; distro.Cache := optsCache |} s)
  /\ (forall (S : Type) oldSums (hw0 : distro.HashWriter S) sha256sum filename s,
       sha256sum <> EmptyString ->
       (oldSums !! filename = Some sha256sum ->
          dedupe oldSums hw0 sha256sum filename s = (None, s))
       /\ (oldSums !! filename <> Some sha256sum ->
            dedupe oldSums hw0 sha256sum filename s = hw0 sha256sum filename s))
  /\ (forall (V : Type) `{!version.Version V} oldSums paragraphs,
       exists out w,
         debian.generateHash list_writer (inl paragraphs) [] = (None, out, w)
         /\ debian.generateHash (dedupe oldSums list_writer) (inl paragraphs) []
            = (None, filter (fun e => ~ unchanged oldSums e) out, w)
         /\ Forall (fun e => e.1 <> EmptyString /\ e.2 <> EmptyString) out).
Proof.
  split; [|split].
  - intros D C S Info GenerateHash cmd hw s d optsCache dedupeFile old oldSums
      Hd Hcache Hflag Hne Hread Hparse.
    unfold hashGenerateAction. rewrite Hd, Hcache, Hflag.
    destruct (String.eqb_spec dedupeFile EmptyString) as [|_]; [done|]. cbn.
    by rewrite Hread, Hparse.
  - intros S oldSums hw0 sha filename s Hne.
    rewrite (dedupe_unchanged _ _ _ _ _ Hne). unfold unchanged. cbn.
    split; intros Hold; [by rewrite decide_True|by rewrite decide_False].
  - intros V HV oldSums paragraphs. unfold debian.generateHash.
    pose proof (list_writer_loop_entries paragraphs
                  {| debian.seen := ∅; debian.sink := []; debian.warnings := [] |})
      as Hentries.
    destruct (generateHash_loop_dedupe oldSums paragraphs
                {| debian.seen := ∅; debian.sink := []; debian.warnings := [] |}
                {| debian.seen := ∅; debian.sink := []; debian.warnings := [] |})
      as (st_d' & st' & -> & Hloop & _ & Hw & Hs); try done.
    rewrite Hloop in Hentries |- *.
    exists (debian.sink st'), (debian.warnings st').
    split; [done|]. split; [by rewrite Hs, Hw|].
    by apply Hentries.
Qed.
End hash_generate_properties.

Section hash_generate_examples.
Import hash_generate example.

Lemma dedupe_suppresses_unchanged_entries_witness :
  (* the command hands the driver the dedupe writer *)
  hashGenerateAction debian.Info
    (debian_GenerateHash (V := version.DebVersion) (C := unit))
    hash_generate_dedupe list_writer []
  = debian_GenerateHash (V := version.DebVersion) (C := unit) debian.New
      (dedupe old_sums list_writer)
      {| distro.FilterByName := ["foo"]; distro.Cache := None |} []
  (* the entry of foo 2.0 is in the prior manifest: dropped *)
  /\ dedupe old_sums list_writer (debian.entry foo_2_0).1 (debian.entry foo_2_0).2 []
     = (None, [])
  (* the entry of foo 1.0 is not: written *)
  /\ dedupe old_sums list_writer (debian.entry foo_1_0).1 (debian.entry foo_1_0).2 []
     = list_writer (debian.entry foo_1_0).1 (debian.entry foo_1_0).2 [].
Proof.
  destruct dedupe_suppresses_unchanged_entries as (Hcmd & Hwriter & _).
  split; [|split].
  - apply (Hcmd _ _ _ debian.Info
             (debian_GenerateHash (V := version.DebVersion) (C := unit))
             hash_generate_dedupe list_writer [] debian.New None
             "SHA256SUMS.old" "(the old manifest)" old_sums);
      try reflexivity.
    discriminate.
  - apply (Hwriter _ old_sums list_writer).
    + vm_compute. discriminate.
    + vm_compute. reflexivity.
  - apply (Hwriter _ old_sums list_writer).
    + vm_compute. discriminate.
    + vm_compute. discriminate.
Defined.
End hash_generate_examples.

Lemma elem_of_map_keys {A} (m : gmap string A) k :
  k ∈ map_keys m <-> is_Some (m !! k).
Proof.
  unfold map_keys. rewrite list_elem_of_fmap. split.
  - intros ([k' x] & -> & Hin). apply elem_of_map_to_list in Hin. by exists x.
  - intros [x Hx]. exists (k, x). split; [done|]. by apply elem_of_map_to_list.
Qed.

Lemma elem_of_sorted_keys {A} (m : gmap string A) k :
  k ∈ sort_Strings (map_keys m) <-> is_Some (m !! k).
Proof.
  unfold sort_Strings. rewrite merge_sort_Permutation. apply elem_of_map_keys.
Qed.

Section driver_properties.

(** C8.  Called without names, [GenerateHash] of the debian and of the
    alpine driver asks for the installed packages: when there is none it
    returns the error "no package is installed?" without running
    anything else, otherwise it goes on with the sorted names of all the
    installed packages.  (The alpine driver first needs a cache.) *)
Theorem GenerateHash_defaults_to_installed_packages :
  (forall (V : Type) `{!version.Version V} (S : Type) (hw : distro.HashWriter S)
          `{!debian.System} (C : Type) (opts : distro.HashOpts C) (s : S) m,
     distro.FilterByName opts = [] ->
     debian.Installed = (m, None) ->
     let dpkgs := default ∅ m in
     (dpkgs = ∅ ->
        debian.GenerateHash hw opts s
        = (Some (errors_New "no package is installed?"), s, []))
     /\ (dpkgs <> ∅ ->
          debian.GenerateHash hw opts s
          = debian.apt_cache_show hw (sort_Strings (map_keys dpkgs)) s
          /\ forall name, name ∈ sort_Strings (map_keys dpkgs)
                          <-> is_Some (dpkgs !! name)))
  /\ (forall (C S : Type) `{!cache.Cache C} `{!alpine.System}
            (hw : distro.HashWriter S) (opts : distro.HashOpts C) (s : S) c m,
       distro.FilterByName opts = [] ->
       distro.Cache opts = Some c ->
       alpine.Installed = (m, None) ->
       let apks := default ∅ m in
       (apks = ∅ ->
          alpine.GenerateHash hw opts s
          = (Raise (errors_New "no package is installed?"), (Some c, s)))
       /\ (apks <> ∅ ->
            alpine.GenerateHash hw opts s
            = (let '(r, (c', s')) :=
                 alpine.apk_fetch_urls hw c (sort_Strings (map_keys apks)) s in
               (r, (Some c', s')))
            /\ forall name, name ∈ sort_Strings (map_keys apks)
                            <-> is_Some (apks !! name))).
Proof.
  split.
  - intros V HV S hw Hsys C opts s m Hnames Hinst dpkgs.
    unfold debian.GenerateHash. rewrite Hnames, Hinst. cbn. fold dpkgs. split.
    + intros ->. by rewrite map_size_empty.
    + intros Hne. destruct (Nat.eqb_spec (size dpkgs) 0) as [Hz|_].
      { by apply map_size_empty_iff in Hz. }
      split; [done|]. apply elem_of_sorted_keys.
  - intros C S HC Hsys hw opts s c m Hnames Hcache Hinst apks.
    unfold alpine.GenerateHash. rewrite Hcache, Hnames, Hinst. cbn. fold apks. split.
    + intros ->. by rewrite map_size_empty.
    + intros Hne. destruct (Nat.eqb_spec (size apks) 0) as [Hz|_].
      { by apply map_size_empty_iff in Hz. }
      split; [done|]. apply elem_of_sorted_keys.
Qed.

(** C9.  [IsPackageVersionInstalled] of the debian driver on a spec
    without [Dpkg], and of the alpine driver on a spec without [APK],
    returns false together with an error, and leaves the driver as it
    was. *)
Theorem IsPackageVersionInstalled_needs_identity :
  (forall `{!debian.System} (d : debian.debian) sp,
     filespec.Dpkg sp = None ->
     debian.IsPackageVersionInstalled d sp
     = ((false, Some (fmt_Errorf "dpkg information not available for %q"
                        [AString (filespec.Name sp)])), d))
  /\ (forall `{!alpine.System} (d : alpine.alpine) sp,
       filespec.APK sp = None ->
       alpine.IsPackageVersionInstalled d sp
       = ((false, Some (fmt_Errorf "apk information not available for %q"
                          [AString (filespec.Name sp)])), d)).
Proof.
  split.
  - intros Hsys d sp Hnil. unfold debian.IsPackageVersionInstalled. by rewrite Hnil.
  - intros Hsys d sp Hnil. unfold alpine.IsPackageVersionInstalled. by rewrite Hnil.
Qed.
End driver_properties.

Section driver_examples.
Import example.

Lemma IsPackageVersionInstalled_needs_identity_witness :
  debian.IsPackageVersionInstalled debian.New blob
  = ((false, Some (fmt_Errorf "dpkg information not available for %q"
                     [AString "files/blob.bin"])), debian.New)
  /\ @alpine.IsPackageVersionInstalled (alpine_host_with ["musl-1.2.3-r0"])
       alpine.New hello
     = ((false, Some (fmt_Errorf "apk information not available for %q"
                        [AString "pool/main/h/hello/hello_2.10-2_amd64.deb"])),
        alpine.New).
Proof.
  destruct IsPackageVersionInstalled_needs_identity as [Hdeb Hapk].
  split.
  - apply (Hdeb debian_host debian.New blob). reflexivity.
  - apply (Hapk (alpine_host_with ["musl-1.2.3-r0"]) alpine.New hello). reflexivity.
Defined.

Lemma GenerateHash_defaults_to_installed_packages_witness :
  (* debian, one package installed *)
  (debian.GenerateHash (V := version.DebVersion) list_writer
     {| distro.FilterByName := []; distro.Cache := @None unit |} []
   = debian.apt_cache_show list_writer ["hello:amd64"] [])
  (* debian, nothing installed *)
  /\ (@debian.GenerateHash version.DebVersion _ _ list_writer empty_debian_host unit
        {| distro.FilterByName := []; distro.Cache := None |} []
      = (Some (errors_New "no package is installed?"), [], []))
  (* alpine, one package installed *)
  /\ (@alpine.GenerateHash (gset string) _ _ (alpine_host_with ["musl-1.2.3-r0"])
        list_writer {| distro.FilterByName := []; distro.Cache := Some ∅ |} []
      = (let '(r, (c', s')) :=
           @alpine.apk_fetch_urls (gset string) _ _ (alpine_host_with ["musl-1.2.3-r0"])
             list_writer ∅ ["musl"] [] in
         (r, (Some c', s'))))
  (* alpine, nothing installed *)
  /\ (@alpine.GenerateHash (gset string) _ _ (alpine_host_with [])
        list_writer {| distro.FilterByName := []; distro.Cache := Some ∅ |} []
      = (Raise (errors_New "no package is installed?"), (Some ∅, []))).
Proof.
  destruct GenerateHash_defaults_to_installed_packages as [Hdeb Hapk].
  split; [|split; [|split]].
  - refine (proj1 (proj2 (Hdeb version.DebVersion _ _ list_writer debian_host unit
             {| distro.FilterByName := []; distro.Cache := None |} []
             (Some {[ "hello:amd64" :=
                        {| dpkgutil.Package := "hello"; dpkgutil.Version := "2.10-2";
                           dpkgutil.Architecture := "amd64" |} ]})
             eq_refl _) _)).
    + vm_compute. reflexivity.
    + cbn. intros Hempty. by apply (f_equal (fun m => m !! "hello:amd64")) in Hempty.
  - refine (proj1 (Hdeb version.DebVersion _ _ list_writer empty_debian_host unit
             {| distro.FilterByName := []; distro.Cache := None |} []
             (Some ∅) eq_refl _) _).
    + vm_compute. reflexivity.
    + reflexivity.
  - refine (proj1 (proj2 (Hapk (gset string) _ _ (alpine_host_with ["musl-1.2.3-r0"])
             list_writer {| distro.FilterByName := []; distro.Cache := Some ∅ |} [] ∅
             (Some {[ "musl" := {| apkutil.Package := "musl";
                                   apkutil.Version := "1.2.3-r0" |} ]})
             eq_refl eq_refl _) _)).
    + vm_compute. reflexivity.
    + cbn. intros Hempty. by apply (f_equal (fun m => m !! "musl")) in Hempty.
  - refine (proj1 (Hapk (gset string) _ _ (alpine_host_with [])
             list_writer {| distro.FilterByName := []; distro.Cache := Some ∅ |} [] ∅
             (Some ∅) eq_refl eq_refl _) _).
    + vm_compute. reflexivity.
    + reflexivity.
Defined.
End driver_examples.

Section gostrings_facts.
Import gostrings.

Lemma string_app_cons c (s t : string) : String c s +:+ t = String c (s +:+ t).
Proof. reflexivity. Qed.

Lemma string_app_nil_l (s : string) : EmptyString +:+ s = s.
Proof. reflexivity. Qed.

Lemma string_app_nil_r (s : string) : s +:+ EmptyString = s.
Proof. induction s as [|a s IHs]; [done|]. by rewrite string_app_cons, IHs. Qed.

Lemma string_app_assoc (s1 s2 s3 : string) :
  (s1 +:+ s2) +:+ s3 = s1 +:+ s2 +:+ s3.
Proof.
  induction s1 as [|a s1 IHs]; [done|]. by rewrite !string_app_cons, IHs.
Qed.

(** Reading a field that holds no separator. *)
Lemma SplitN_from_field acc p sep rest n :
  Count p sep = 0 ->
  SplitN_from acc (p +:+ String sep rest) sep (S (S n))
  = (acc +:+ p) :: SplitN_from EmptyString rest sep (S n).
Proof.
  revert acc. induction p as [|c p IH]; intros acc Hc.
  - rewrite string_app_nil_l, string_app_nil_r. cbn [SplitN_from].
    by rewrite decide_True.
  - rewrite string_app_cons. cbn [SplitN_from Count] in *.
    destruct (decide (c = sep)) as [|Hne]; [done|].
    rewrite IH by done. f_equal. rewrite string_app_assoc.
    by rewrite string_app_cons, string_app_nil_l.
Qed.
Lemma Count_rev_app s t sep :
  Count (String.rev_app s t) sep = Count s sep + Count t sep.
Proof.
  revert t. induction s as [|c s IH]; intros t; [done|].
  cbn [String.rev_app]. rewrite IH. cbn [Count]. lia.
Qed.

Lemma Count_rev s sep : Count (String.rev s) sep = Count s sep.
Proof. unfold String.rev. rewrite Count_rev_app. cbn [Count]. lia. Qed.

Lemma Count_trim_left s sep :
  Ascii.is_space sep = false -> Count (trim_left s) sep = Count s sep.
Proof.
  intros Hsep. induction s as [|c s IH]; [done|].
  cbn [trim_left]. destruct (Ascii.is_space c) eqn:Hc; [|done].
  rewrite IH. cbn [Count]. destruct (decide (c = sep)) as [->|]; [congruence|done].
Qed.

(** Trimming white space removes no separator. *)
Lemma Count_TrimSpace s sep :
  Ascii.is_space sep = false -> Count (TrimSpace s) sep = Count s sep.
Proof.
  intros Hsep. unfold TrimSpace.
  by rewrite Count_rev, Count_trim_left, Count_rev, Count_trim_left.
Qed.

Lemma length_SplitN_from s sep : forall acc n,
  length (SplitN_from acc s sep n) = Nat.min n (S (Count s sep)).
Proof.
  induction s as [|c s IH]; intros acc [|[|n]]; try done.
  cbn [SplitN_from Count]. destruct (decide (c = sep)).
  - cbn [length]. rewrite IH. lia.
  - rewrite IH. lia.
Qed.

(** [SplitN] gives one field more than there are separators, up to
    the number asked for. *)
Lemma length_SplitN s sep n :
  length (SplitN s sep n) = Nat.min n (S (Count s sep)).
Proof. apply length_SplitN_from. Qed.
End gostrings_facts.

Section debian_installed_facts.
Import gostrings debian.

Lemma SplitN_dpkg_query_line pkg :
  Count (dpkgutil.Package pkg) "," = 0 ->
  Count (dpkgutil.Version pkg) "," = 0 ->
  gostrings.SplitN (dpkg_query_line pkg) "," 3
  = [dpkgutil.Package pkg; dpkgutil.Version pkg; dpkgutil.Architecture pkg].
Proof.
  intros Hp Hv. unfold gostrings.SplitN, dpkg_query_line.
  rewrite !string_app_cons, !string_app_nil_l.
  rewrite SplitN_from_field by done.
  rewrite SplitN_from_field by done.
  rewrite !string_app_nil_l. by destruct (dpkgutil.Architecture pkg).
Qed.
End debian_installed_facts.

Section debian_installed_properties.
Import gostrings debian.

(** X11.  [installed] reads back a listing in the format asked of
    dpkg-query: from lines Package,Version,Architecture in ASCII,
    where package and version hold no comma and the line no outer white
    space, it returns without error a map in which every entry is a listed
    package under its key, every listed package has its key, and, when
    the keys are distinct, is the value under it. *)
Theorem installed_reads_back_listing (pkgs : list dpkgutil.Dpkg) :
  Forall (fun pkg =>
            Count (dpkgutil.Package pkg) "," = 0
            /\ Count (dpkgutil.Version pkg) "," = 0
            /\ is_ascii (dpkg_query_line pkg) = true
            /\ gostrings.TrimSpace (dpkg_query_line pkg) = dpkg_query_line pkg) pkgs ->
  exists m,
    installed {| scanned := dpkg_query_line <$> pkgs; scan_err := None |} = (m, None)
    /\ (forall k pkg, m !! k = Some pkg -> pkg ∈ pkgs /\ k = key pkg)
    /\ (forall pkg, pkg ∈ pkgs -> is_Some (m !! key pkg))
    /\ (NoDup (key <$> pkgs) -> forall pkg, pkg ∈ pkgs -> m !! key pkg = Some pkg).
Proof.
  intros Hwf. unfold installed. cbn [scanned scan_err].
  assert (Hgen : forall m0,
    exists m,
      installed_loop (dpkg_query_line <$> pkgs) None m0 = (m, None)
      /\ (forall k pkg, m !! k = Some pkg ->
            (pkg ∈ pkgs /\ k = key pkg) \/ m0 !! k = Some pkg)
      /\ (forall k, is_Some (m0 !! k) -> is_Some (m !! k))
      /\ (forall pkg, pkg ∈ pkgs -> is_Some (m !! key pkg))
      /\ (NoDup (key <$> pkgs) ->
          (forall pkg, pkg ∈ pkgs -> m !! key pkg = Some pkg)
          /\ forall k, k ∉ key <$> pkgs -> m !! k = m0 !! k)).
  { induction Hwf as [|pkg pkgs (Hp & Hv & _ & Htrim) Hwf IH]; intros m0.
    { exists m0. cbn. split; [done|]. split; [auto|]. split; [done|].
      split; [intros ? Hin; by apply elem_of_nil in Hin|].
      intros _. split; [intros ? Hin; by apply elem_of_nil in Hin|done]. }
    cbn [fmap list_fmap installed_loop]. rewrite Htrim, SplitN_dpkg_query_line by done.
    assert (Hpkg : {| dpkgutil.Package := dpkgutil.Package pkg;
                      dpkgutil.Version := dpkgutil.Version pkg;
                      dpkgutil.Architecture := dpkgutil.Architecture pkg |} = pkg)
      by by destruct pkg.
    rewrite Hpkg.
    destruct (IH (<[key pkg := pkg]> m0)) as (m & Hrun & Hfrom & Hmono & Hall & Hnd).
    exists m. split; [exact Hrun|]. split; [|split; [|split]].
    - intros k p Hk. destruct (Hfrom _ _ Hk) as [[Hin ->]|Hk0].
      + left. split; [by right|done].
      + destruct (decide (k = key pkg)) as [->|Hne].
        * rewrite lookup_insert_eq in Hk0. injection Hk0 as <-. left.
          split; [by left|done].
        * rewrite lookup_insert_ne in Hk0 by done. by right.
    - intros k Hk. apply Hmono. destruct (decide (k = key pkg)) as [->|Hne].
      + by rewrite lookup_insert_eq.
      + by rewrite lookup_insert_ne.
    - intros p Hin. apply elem_of_cons in Hin as [->|Hin]; [|by apply Hall].
      apply Hmono. by rewrite lookup_insert_eq.
    - intros Hnodup. cbn in Hnodup. apply NoDup_cons in Hnodup as [Hnotin Hnodup].
      destruct (Hnd Hnodup) as [Hval Hother]. split.
      + intros p Hin. apply elem_of_cons in Hin as [->|Hin]; [|by apply Hval].
        rewrite Hother by done. by rewrite lookup_insert_eq.
      + intros k Hk. rewrite Hother.
        * rewrite lookup_insert_ne; [done|]. intros <-. apply Hk. by left.
        * intros Hin. apply Hk. by right. }
  destruct (Hgen ∅) as (m & Hrun & Hfrom & _ & Hall & Hnd).
  exists m. split; [exact Hrun|]. split; [|split; [done|]].
  - intros k pkg Hk. destruct (Hfrom _ _ Hk) as [?|Hk0]; [done|].
    by rewrite lookup_empty in Hk0.
  - intros Hnodup. by destruct (Hnd Hnodup).
Qed.

(** X12.  What [installed] returns, with or without an error, is keyed
    as the comment on [Installed] says: every package is stored under
    Package, followed by ":" and Architecture when there is one. *)
Theorem Installed_keys `{!System} m err :
  Installed = (Some m, err) ->
  forall k pkg, m !! k = Some pkg -> k = key pkg.
Proof.
  unfold Installed. destruct dpkg_query as [e|e|r]; try discriminate.
  destruct (installed r) as [pkgs err'] eqn:Hinst. intros [= <- <-].
  unfold installed in Hinst.
  assert (Hgen : forall lines m0 m1 e,
            installed_loop lines (scan_err r) m0 = (m1, e) ->
            (forall k pkg, m0 !! k = Some pkg -> k = key pkg) ->
            forall k pkg, m1 !! k = Some pkg -> k = key pkg).
  { induction lines as [|line lines IH]; intros m0 m1 e Hrun Hm0.
    { by injection Hrun as <- <-. }
    cbn [installed_loop] in Hrun.
    destruct (gostrings.SplitN _ _ _) as [|f0 [|f1 [|f2 [|f3 fs]]]] eqn:Hsplit;
      try (injection Hrun as <- <-; exact Hm0).
    eapply IH; [exact Hrun|].
    intros k pkg Hk. destruct (decide (k = key {| dpkgutil.Package := f0;
      dpkgutil.Version := f1; dpkgutil.Architecture := f2 |})) as [->|Hne].
    - rewrite lookup_insert_eq in Hk. by injection Hk as <-.
    - rewrite lookup_insert_ne in Hk by done. by eapply Hm0. }
  eapply Hgen; [exact Hinst|]. intros k pkg Hk. by rewrite lookup_empty in Hk.
Qed.

(** X13.  A line with fewer than two commas stops [installed]: it
    returns the error naming the line and its number of fields, with
    the packages of the lines before it, and reads no further. *)
Theorem installed_stops_at_malformed_line good bad rest eof_err m :
  installed {| scanned := good; scan_err := None |} = (m, None) ->
  Count bad "," < 2 ->
  installed {| scanned := good ++ bad :: rest; scan_err := eof_err |}
  = (m, Some (fmt_Errorf "unexpected line %q: expected %d fields, got %d"
                [AString bad; AInt 3; AInt (Z.of_nat (S (Count bad ",")))])).
Proof.
  unfold installed. cbn [scanned scan_err]. generalize (∅ : gmap string dpkgutil.Dpkg).
  induction good as [|line good IH]; intros m0 Hgood Hbad.
  - injection Hgood as ->. cbn [app installed_loop].
    pose proof (length_SplitN (gostrings.TrimSpace bad) "," 3) as Hlen.
    rewrite Count_TrimSpace in Hlen by done.
    replace (Nat.min 3 (S (Count bad ","))) with (S (Count bad ",")) in Hlen by lia.
    rewrite <- Hlen.
    destruct (gostrings.SplitN _ _ _) as [|f0 [|f1 [|f2 [|f3 fs]]]] eqn:Hsplit;
      try done.
    cbn in Hlen. lia.
  - cbn [app installed_loop] in *.
    destruct (gostrings.SplitN (gostrings.TrimSpace line) "," 3)
      as [|f0 [|f1 [|f2 [|f3 fs]]]]; try discriminate.
    by apply IH.
Qed.
End debian_installed_properties.

Section debian_snapshot_properties.
Import debian.

End debian_snapshot_properties.

Section debian_generateHash_properties.
Import debian.
Context {V : Type} `{!version.Version V} {S : Type}.
Variable hw : distro.HashWriter S.

Lemma sublist_filter_cons {A} (P : A -> Prop) `{!forall x, Decision (P x)} x l :
  filter P l `sublist_of` filter P (x :: l).
Proof.
  destruct (decide (P x)).
  - rewrite filter_cons_True by done. by apply sublist_cons.
  - by rewrite filter_cons_False.
Qed.

Lemma generateHash_loop_kept ps : forall (st : LoopState),
  exists kept,
    kept `sublist_of` filter has_entry ps
    /\ ((generateHash_loop hw ps st).1, sink (generateHash_loop hw ps st).2)
       = write_all hw (entry <$> kept) (sink st).
Proof.
  induction ps as [|f ps IH]; intros st.
  { exists []. done. }
  cbn [generateHash_loop]. unfold generateHash_body.
  destruct (superseded (seen st) f) as [logged|].
  { destruct (IH (warn st logged)) as (kept & Hsub & Heq).
    exists kept. split; [|exact Heq].
    etrans; [exact Hsub|]. apply sublist_filter_cons. }
  destruct (decide (map_index (control.Values f) "Filename" = EmptyString)) as [Hf|Hf].
  { match goal with |- context [generateHash_loop hw ps ?st1] =>
      destruct (IH st1) as (kept & Hsub & Heq) end.
    exists kept. split; [|exact Heq].
    rewrite filter_cons_False; [done|]. by intros [? ?]. }
  destruct (decide (map_index (control.Values f) "SHA256" = EmptyString)) as [Hs|Hs].
  { match goal with |- context [generateHash_loop hw ps ?st1] =>
      destruct (IH st1) as (kept & Hsub & Heq) end.
    exists kept. split; [|exact Heq].
    rewrite filter_cons_False; [done|]. by intros [? ?]. }
  rewrite filter_cons_True by done. cbn [sink seen warnings].
  destruct (hw _ _ (sink st)) as [[err|] s'] eqn:Hhw.
  - exists [f]. split; [apply sublist_skip, sublist_nil_l|].
    cbn [fmap list_fmap write_all]. unfold entry. cbn [fst snd]. by rewrite Hhw.
  - match goal with |- context [generateHash_loop hw ps ?st1] =>
      destruct (IH st1) as (kept & Hsub & Heq) end.
    exists (f :: kept). split; [by constructor|].
    cbn [fmap list_fmap write_all]. unfold entry at 1 2. cbn [fst snd]. rewrite Hhw.
    exact Heq.
Qed.

Lemma generateHash_loop_distinct ps : forall (st : LoopState),
  NoDup (seenK <$> ps) ->
  (forall f, f ∈ ps -> seen st !! seenK f = None) ->
  ((generateHash_loop hw ps st).1, sink (generateHash_loop hw ps st).2)
  = write_all hw (entry <$> filter has_entry ps) (sink st).
Proof.
  induction ps as [|f ps IH]; intros st Hnd Hfresh; [done|].
  cbn in Hnd. apply NoDup_cons in Hnd as [Hnotin Hnd].
  assert (Hrest : forall (m : gmap string string) v f', f' ∈ ps ->
            (forall f0, f0 ∈ f :: ps -> m !! seenK f0 = None) ->
            <[seenK f := v]> m !! seenK f' = None).
  { intros m v f' Hin Hm. rewrite lookup_insert_ne; [apply Hm; by right|].
    intros Heq. apply Hnotin. rewrite Heq. apply list_elem_of_fmap. eauto. }
  cbn [generateHash_loop]. unfold generateHash_body, superseded.
  rewrite (Hfresh f) by by left.
  destruct (decide (map_index (control.Values f) "Filename" = EmptyString)) as [Hf|Hf].
  { rewrite filter_cons_False by (by intros [? ?]).
    rewrite IH; [done|done|]. intros f' Hin. by apply Hrest. }
  destruct (decide (map_index (control.Values f) "SHA256" = EmptyString)) as [Hs|Hs].
  { rewrite filter_cons_False by (by intros [? ?]).
    rewrite IH; [done|done|]. intros f' Hin. by apply Hrest. }
  rewrite filter_cons_True by done. cbn [sink seen warnings fmap list_fmap write_all].
  unfold entry at 1 2. cbn [fst snd].
  destruct (hw _ _ (sink st)) as [[err|] s'] eqn:Hhw; [done|].
  rewrite IH; [done|done|]. intros f' Hin. by apply Hrest.
Qed.

(** X15.  What [generateHash] hands to the writer.  The writer is
    called with entries of paragraphs that have a file name and a
    digest, in the order of the index, each paragraph at most once, up
    to the first call that fails, whose error is returned; when no key
    (package, architecture) occurs twice, these are all such
    paragraphs. *)
Theorem generateHash_writes_entries_in_order ps (s : S) :
  (exists kept,
     kept `sublist_of` filter has_entry ps
     /\ (generateHash hw (inl ps) s).1 = write_all hw (entry <$> kept) s)
  /\ (NoDup (seenK <$> ps) ->
      (generateHash hw (inl ps) s).1
      = write_all hw (entry <$> filter has_entry ps) s).
Proof.
  unfold generateHash. split.
  - destruct (generateHash_loop_kept ps {| seen := ∅; sink := s; warnings := [] |})
      as (kept & Hsub & Heq).
    exists kept. split; [done|].
    destruct (generateHash_loop hw ps _) as [err st']. exact Heq.
  - intros Hnd.
    pose proof (generateHash_loop_distinct ps
                  {| seen := ∅; sink := s; warnings := [] |} Hnd) as Heq.
    destruct (generateHash_loop hw ps _) as [err st']. apply Heq.
    intros f _. apply lookup_empty.
Qed.
End debian_generateHash_properties.

Section gostrings_join_facts.
Import gostrings.

Lemma Join_cons e l sep :
  l <> [] -> Join (e :: l) sep = e +:+ sep +:+ Join l sep.
Proof. by destruct l. Qed.

Lemma Join_app l1 l2 sep :
  l1 <> [] -> l2 <> [] ->
  Join (l1 ++ l2) sep = Join l1 sep +:+ sep +:+ Join l2 sep.
Proof.
  induction l1 as [|e l1 IH]; intros H1 H2; [done|].
  destruct l1 as [|e' l1].
  - cbn [app]. by rewrite Join_cons.
  - rewrite <- app_comm_cons, Join_cons by done.
    rewrite IH by done. rewrite (Join_cons e) by done.
    by rewrite !string_app_assoc.
Qed.

Lemma Split_from_nonempty acc s sep : Split_from acc s sep <> [].
Proof.
  revert acc. induction s as [|c s IH]; intros acc; cbn; [done|].
  destruct (decide (c = sep)); [done|]. apply IH.
Qed.

(** Joining what [Split] returns gives the string back. *)
Lemma Join_Split_from acc s sep :
  Join (Split_from acc s sep) (String sep EmptyString) = acc +:+ s.
Proof.
  revert acc. induction s as [|c s IH]; intros acc; cbn [Split_from].
  - cbn. by rewrite string_app_nil_r.
  - destruct (decide (c = sep)) as [->|Hne].
    + rewrite Join_cons by apply Split_from_nonempty.
      rewrite IH. by rewrite string_app_nil_l, string_app_cons, string_app_nil_l.
    + rewrite IH, string_app_assoc. by rewrite string_app_cons, string_app_nil_l.
Qed.

Lemma Join_Split s sep : Join (Split s sep) (String sep EmptyString) = s.
Proof. unfold Split. by rewrite Join_Split_from, string_app_nil_l. Qed.
End gostrings_join_facts.

Section alpine_url_facts.
Import alpine.

(** Where the loop stops with a file name. *)
Lemma urlToFilename_loop_ret u sp : forall prev fname,
  urlToFilename_loop u prev sp = Ret fname ->
  exists pre a seg rest c1,
    match prev with Some p => p :: sp | None => sp end = pre ++ a :: seg :: rest
    /\ gostrings.HasPrefix a "alpine" = true
    /\ gostrings.index seg 0 = Some "v"%char
    /\ gostrings.index seg 1 = Some c1
    /\ (49 <= version.code c1 <= 57)%Z
    /\ fname = gostrings.Join (seg :: rest) "/".
Proof.
  induction sp as [|seg sp IH]; intros prev fname Hrun; [done|].
  cbn [urlToFilename_loop] in Hrun.
  assert (Hnext : urlToFilename_loop u (Some seg) sp = Ret fname ->
            exists pre a seg' rest c1,
              match prev with Some p => p :: seg :: sp | None => seg :: sp end
              = pre ++ a :: seg' :: rest
              /\ gostrings.HasPrefix a "alpine" = true
              /\ gostrings.index seg' 0 = Some "v"%char
              /\ gostrings.index seg' 1 = Some c1
              /\ (49 <= version.code c1 <= 57)%Z
              /\ fname = gostrings.Join (seg' :: rest) "/").
  { intros Hn. destruct (IH _ _ Hn) as (pre & a & seg' & rest & c1 & Heq & Hrest).
    destruct prev as [p|].
    - exists (p :: pre), a, seg', rest, c1. by rewrite Heq.
    - exists pre, a, seg', rest, c1. by rewrite Heq. }
  destruct prev as [p|]; [|by apply Hnext].
  destruct (gostrings.HasPrefix p "alpine") eqn:Hp; [|by apply Hnext].
  destruct (gostrings.index seg 0) as [c0|] eqn:H0; [|done].
  destruct (decide (c0 = "v"%char)) as [->|]; [|by apply Hnext].
  destruct (gostrings.index seg 1) as [c1|] eqn:H1; [|done].
  destruct ((49 <=? version.code c1)%Z && (version.code c1 <=? 57)%Z) eqn:Hd;
    [|by apply Hnext].
  injection Hrun as <-. exists [], p, seg, sp, c1.
  apply andb_true_iff in Hd as [Hlo Hhi]. repeat split; try done; lia.
Qed.

(** Where the loop reads past the end of a segment. *)
Lemma urlToFilename_loop_panic u a s post pre : forall prev,
  (forall p, prev = Some p -> gostrings.HasPrefix p "alpine" = false) ->
  Forall (fun x => gostrings.HasPrefix x "alpine" = false) pre ->
  gostrings.HasPrefix a "alpine" = true ->
  s = EmptyString \/ s = "v" ->
  urlToFilename_loop u prev (pre ++ a :: s :: post) = Panic.
Proof.
  intros prev Hprev Hpre Ha Hs. revert prev Hprev.
  induction Hpre as [|x pre Hx Hpre IH]; intros prev Hprev.
  - cbn [app urlToFilename_loop]. rewrite Ha.
    assert (Hshort : match gostrings.index s 0 with
                     | None => Panic
                     | Some c0 =>
                         if decide (c0 = "v"%char) then
                           match gostrings.index s 1 with
                           | None => Panic
                           | Some c1 =>
                               if (49 <=? version.code c1)%Z && (version.code c1 <=? 57)%Z
                               then Ret (gostrings.Join (s :: post) "/")
                               else urlToFilename_loop u (Some s) post
                           end
                         else urlToFilename_loop u (Some s) post
                     end = Panic).
    { destruct Hs as [->| ->]; done. }
    rewrite Hshort. destruct prev as [p|]; [|done]. by rewrite (Hprev p).
  - cbn [app urlToFilename_loop]. rewrite IH by (by intros p [= <-]).
    destruct prev as [p|]; [|done]. by rewrite (Hprev p).
Qed.
End alpine_url_facts.

Section alpine_url_properties.
Import alpine.

(** X16.  The file name that [urlToFilenameWithoutProvider] returns is
    the rest of the URL path from a segment "v" followed by a digit 1
    to 9 that comes after a segment starting with "alpine": the path
    is what comes before, a slash, and the file name. *)
Theorem urlToFilenameWithoutProvider_is_path_suffix u fname :
  urlToFilenameWithoutProvider u = Ret fname ->
  exists pre a seg rest c1,
    gostrings.Split (url.Path u) "/" = pre ++ a :: seg :: rest
    /\ gostrings.HasPrefix a "alpine" = true
    /\ gostrings.index seg 0 = Some "v"%char
    /\ gostrings.index seg 1 = Some c1
    /\ (49 <= version.code c1 <= 57)%Z
    /\ fname = gostrings.Join (seg :: rest) "/"
    /\ url.Path u = gostrings.Join (pre ++ [a]) "/" +:+ "/" +:+ fname.
Proof.
  intros Hrun. unfold urlToFilenameWithoutProvider in Hrun.
  destruct (urlToFilename_loop_ret _ _ _ _ Hrun)
    as (pre & a & seg & rest & c1 & Heq & Ha & H0 & H1 & Hd & ->).
  exists pre, a, seg, rest, c1. do 6 (split; [done|]).
  rewrite <- (Join_Split (url.Path u) "/") at 1. rewrite Heq.
  change (pre ++ a :: seg :: rest) with (pre ++ [a] ++ seg :: rest).
  rewrite app_assoc, Join_app; [done| |done]. by destruct pre.
Qed.

(** X17.  [urlToFilenameWithoutProvider] reads the first two bytes of a
    segment without checking its length: when the segment after the
    first one that starts with "alpine" is empty or is "v", it panics,
    and so does [generateHashWithURL] for such an https URL, before any
    access to the cache. *)
Theorem urlToFilenameWithoutProvider_panics_on_short_segment u pre a s post :
  gostrings.Split (url.Path u) "/" = pre ++ a :: s :: post ->
  Forall (fun x => gostrings.HasPrefix x "alpine" = false) pre ->
  gostrings.HasPrefix a "alpine" = true ->
  s = EmptyString \/ s = "v" ->
  urlToFilenameWithoutProvider u = Panic
  /\ forall (C S : Type) `{!cache.Cache C} (hw : distro.HashWriter S) (c : C) (s0 : S),
       url.Scheme u = "https" ->
       generateHashWithURL hw c u s0 = (Panic, (c, s0)).
Proof.
  intros Hsplit Hpre Ha Hs.
  assert (Hpanic : urlToFilenameWithoutProvider u = Panic).
  { unfold urlToFilenameWithoutProvider. rewrite Hsplit.
    by apply urlToFilename_loop_panic. }
  split; [done|]. intros C S HC hw c s0 Hhttps.
  unfold generateHashWithURL. by rewrite Hhttps, Hpanic.
Qed.
End alpine_url_properties.

Section alpine_generateHash_properties.
Import alpine.
Context {C S : Type} `{!cache.Cache C} `{!System}.
Variable hw : distro.HashWriter S.

(** X18.  [generateHashWithURL] imports a URL into the cache only when
    it is an https URL with a file name whose digest the cache does not
    know (the lookup by origin URL fails); in every other case the
    cache is left as it was.  The writer is called at most once, with
    the digest the cache knows or the import returned; otherwise the
    sink is left as it was. *)
Theorem generateHashWithURL_imports_only_unknown (c : C) u (s : S) r c' s' :
  generateHashWithURL hw c u s = (r, (c', s')) ->
  (c' = c
   \/ (url.Scheme u = "https"
       /\ (exists fname, urlToFilenameWithoutProvider u = Ret fname)
       /\ (exists err, cache.SHA256ByOriginURL c u = inr err)
       /\ c' = (cache.ImportWithURL c u).2))
  /\ (s' = s
      \/ exists sha256sum fname,
           urlToFilenameWithoutProvider u = Ret fname
           /\ (cache.SHA256ByOriginURL c u = inl sha256sum
               \/ (cache.ImportWithURL c u).1 = inl sha256sum)
           /\ s' = (hw sha256sum fname s).2).
Proof.
  unfold generateHashWithURL.
  destruct (String.eqb_spec (url.Scheme u) "https") as [Hs|Hs]; cbn [negb].
  2:{ intros [= <- <- <-]. auto. }
  destruct (urlToFilenameWithoutProvider u) as [fname|e|] eqn:Hf;
    try (intros [= <- <- <-]; auto).
  destruct (cache.SHA256ByOriginURL c u) as [sha|err] eqn:Hknown.
  - unfold call_hw. destruct (hw sha fname s) as [[e|] s1] eqn:Hhw;
      intros [= <- <- <-]; (split; [by left|]); right; exists sha, fname;
      rewrite Hhw; auto.
  - destruct (errors_Is err os_ErrNotExist) eqn:Hne; cbn [negb].
    2:{ intros [= <- <- <-]. auto. }
    destruct (cache.ImportWithURL c u) as [[sha|e] c1] eqn:Himp.
    + unfold call_hw. destruct (hw sha fname s) as [[e|] s1] eqn:Hhw;
        intros [= <- <- <-]; (split; [right; eauto 10|]); right; exists sha, fname;
        rewrite Hhw; auto.
    + intros [= <- <- <-]. split; [right; eauto 10|by left].
Qed.

(** X19.  With a warm cache hash generation is offline: when every
    line is in ASCII and is, without its outer white space, an https
    URL with a file name whose digest the cache knows by origin URL, [generateHashWithURLReader] hands the writer these
    digests and file names in the order of the lines, imports nothing,
    and leaves the cache as it was. *)
Theorem generateHashWithURLReader_warm_cache (c : C) lines entries (s : S) :
  Forall2 (fun line e =>
             gostrings.is_ascii line = true
             /\ exists u, url_Parse (gostrings.TrimSpace line) = inl u
               /\ url.Scheme u = "https"
               /\ urlToFilenameWithoutProvider u = Ret e.2
               /\ cache.SHA256ByOriginURL c u = inl e.1) lines entries ->
  generateHashWithURLReader hw c {| scanned := lines; scan_err := None |} s
  = match write_all hw entries s with
    | (Some err, s') => (Raise err, (c, s'))
    | (None, s') => (Ret tt, (c, s'))
    end.
Proof.
  unfold generateHashWithURLReader. cbn [scanned scan_err].
  intros Hall. revert s. induction Hall as [|line e lines entries Hline Hall IH]; intros s.
  { done. }
  destruct Hline as (_ & u & Hparse & Hs & Hf & Hknown).
  cbn [generateHashWithURLReader_loop write_all]. rewrite Hparse.
  unfold generateHashWithURL. rewrite Hs, Hf, Hknown. cbn.
  unfold call_hw. destruct (hw e.1 e.2 s) as [[err|] s1]; [done|]. apply IH.
Qed.
End alpine_generateHash_properties.

Section alpine_snapshot_properties.
Import alpine.

(** X20.  The alpine driver reads the package listing until it has
    one.  When [apk info -v] ran and every line could be split, the
    first call of [IsPackageVersionInstalled] for a spec with a package
    identity keeps the map, and every later call answers from it,
    whatever the host would list by then; when a line could not be
    split, the call fails and leaves the driver as it was, without a
    map, so that the next call asks the host again. *)
Theorem IsPackageVersionInstalled_keeps_listing
    (host1 : System) (d : alpine) sp apk r :
  installed_cache d = None ->
  @apk_info host1 = Running r ->
  filespec.APK sp = Some apk ->
  (forall m, @installed host1 r = (Some m, None) ->
     let d1 := {| info := info d; installed_cache := Some m |} in
     @IsPackageVersionInstalled host1 d sp = ((version_installed m apk, None), d1)
     /\ forall (host2 : System) sp' apk',
          filespec.APK sp' = Some apk' ->
          @IsPackageVersionInstalled host2 d1 sp'
          = ((version_installed m apk', None), d1))
  /\ (forall err, @installed host1 r = (None, Some err) ->
        @IsPackageVersionInstalled host1 d sp
        = ((false, Some (fmt_Errorf_w "failed to detect installed apks: %w" [] err)), d)).
Proof.
  intros Hnone Hq Hapk. split.
  - intros m Hm d1. split.
    + unfold IsPackageVersionInstalled, Installed. rewrite Hapk, Hnone, Hq, Hm. cbn.
      unfold version_installed. by destruct (m !! apkutil.Package apk).
    + intros host2 sp' apk' Hapk'. unfold IsPackageVersionInstalled.
      rewrite Hapk'. cbn. unfold version_installed.
      by destruct (m !! apkutil.Package apk').
  - intros err Herr. unfold IsPackageVersionInstalled, Installed.
    rewrite Hapk, Hnone, Hq, Herr. cbn. destruct d as [i o]. cbn in Hnone.
    by rewrite Hnone.
Qed.
End alpine_snapshot_properties.

Section GenerateHash_names_properties.

(** X21.  Hash generation does not depend on the order in which the
    package names are given: the debian and the alpine driver sort
    them before they ask the package manager. *)
Theorem GenerateHash_ignores_order_of_names (names1 names2 : list string) :
  names1 ≡ₚ names2 ->
  (forall (V S C : Type) `{!version.Version V} `{!debian.System}
          (hw : distro.HashWriter S) (cache : option C) (s : S),
     debian.GenerateHash hw
       {| distro.FilterByName := names1; distro.Cache := cache |} s
     = debian.GenerateHash hw
         {| distro.FilterByName := names2; distro.Cache := cache |} s)
  /\ (forall (C S : Type) `{!cache.Cache C} `{!alpine.System}
             (hw : distro.HashWriter S) (cache : option C) (s : S),
        alpine.GenerateHash hw
          {| distro.FilterByName := names1; distro.Cache := cache |} s
        = alpine.GenerateHash hw
            {| distro.FilterByName := names2; distro.Cache := cache |} s).
Proof.
  intros Hperm.
  pose proof (Permutation_length Hperm) as Hlen.
  pose proof (sort_Strings_Permutation _ _ Hperm) as Hsort.
  split.
  - intros V S C HV Hsys hw cache s. unfold debian.GenerateHash.
    cbn [distro.FilterByName]. rewrite Hlen, Hsort.
    destruct (length names2 =? 0); [|done].
    destruct debian.Installed as [dpkgs [err|]]; [done|].
    destruct (size (default ∅ dpkgs) =? 0); [done|].
    by rewrite (sort_Strings_Permutation (names1 ++ _) (names2 ++ map_keys (default ∅ dpkgs)))
      by by rewrite Hperm.
  - intros C S HC Hsys hw cache s. unfold alpine.GenerateHash.
    cbn [distro.FilterByName distro.Cache]. destruct cache as [c|]; [|done].
    rewrite Hlen, Hsort.
    destruct (length names2 =? 0); [|done].
    destruct alpine.Installed as [apks [err|]]; [done|].
    destruct (size (default ∅ apks) =? 0); [done|].
    by rewrite (sort_Strings_Permutation (names1 ++ _) (names2 ++ map_keys (default ∅ apks)))
      by by rewrite Hperm.
Qed.
End GenerateHash_names_properties.

Section hash_generate_more_properties.
Import hash_generate.

(** X22.  [hashGenerateAction] either fails before the driver is asked
    to generate anything, leaving the output untouched whatever the
    driver would do, or it is one call of the driver's [GenerateHash]
    with the positional arguments as the names, a cache exactly when
    the driver needs one to generate hashes, and as the writer the
    given one, or the dedupe writer over it when [--dedupe] names a
    file. *)
Theorem hashGenerateAction_delegates_or_fails
    (D C S : Type) (Info : D -> distro.Info)
    (GenerateHash : D -> distro.HashWriter S -> distro.HashOpts C -> S
                    -> outcome unit * S)
    (cmd : Command D C) (hw : distro.HashWriter S) (s : S) :
  (exists e,
     forall GenerateHash',
       hashGenerateAction Info GenerateHash' cmd hw s = (Raise e, s))
  \/ (exists d w optsCache,
        getDistro cmd = inl d
        /\ hashGenerateAction Info GenerateHash cmd hw s
           = GenerateHash d w
               {| distro.FilterByName := args cmd; distro.Cache := optsCache |} s
        /\ (is_Some optsCache
            <-> distro.CacheIsNeededForGeneratingHash (Info d) = true)
        /\ ((flag_dedupe cmd = inl EmptyString /\ w = hw)
            \/ (exists dedupeFile old oldSums,
                  flag_dedupe cmd = inl dedupeFile /\ dedupeFile <> EmptyString
                  /\ os_ReadFile cmd dedupeFile = inl old
                  /\ sha256sums_Parse cmd old = inl oldSums
                  /\ w = dedupe oldSums hw))).
Proof.
  unfold hashGenerateAction.
  destruct (getDistro cmd) as [d|e]; [|left; eauto].
  destruct (open_cache Info cmd d) as [optsCache|e] eqn:Hcache; [|left; eauto].
  assert (Hneeded : is_Some optsCache
                    <-> distro.CacheIsNeededForGeneratingHash (Info d) = true).
  { unfold open_cache in Hcache.
    destruct (distro.CacheIsNeededForGeneratingHash (Info d)).
    - destruct (flag_cache cmd) as [cacheStr|]; [|done].
      destruct (cache_New cmd cacheStr); [|done]. injection Hcache as <-.
      split; [done|]. by eexists.
    - injection Hcache as <-. split; [by intros [? ?]|done]. }
  destruct (flag_dedupe cmd) as [dedupeFile|e]; [|left; eauto].
  destruct (String.eqb_spec dedupeFile EmptyString) as [->|Hne]; cbn [negb].
  { right. exists d, hw, optsCache. do 3 (split; [done|]). by left. }
  destruct (os_ReadFile cmd dedupeFile) as [old|e] eqn:Hread; [|left; eauto].
  destruct (sha256sums_Parse cmd old) as [oldSums|e] eqn:Hparse; [|left; eauto].
  right. exists d, (dedupe oldSums hw), optsCache.
  do 3 (split; [done|]). right. exists dedupeFile, old, oldSums. auto.
Qed.

(** X23.  Writing a list of entries through the dedupe writer is
    writing, through the writer underneath, the entries that the prior
    manifest does not hold as they are (for entries with a digest); and
    deduping twice against the same manifest is deduping once. *)
Theorem dedupe_filters_entries (S : Type) oldSums (hw : distro.HashWriter S) :
  (forall entries s,
     Forall (fun e => e.1 <> EmptyString) entries ->
     write_all (dedupe oldSums hw) entries s
     = write_all hw (filter (fun e => ~ unchanged oldSums e) entries) s)
  /\ (forall sha256sum filename s,
        dedupe oldSums (dedupe oldSums hw) sha256sum filename s
        = dedupe oldSums hw sha256sum filename s).
Proof.
  split.
  - intros entries s Hall. revert s.
    induction Hall as [|[sha fname] entries He Hall IH]; intros s; [done|].
    cbn [write_all fst snd]. cbn in He. rewrite (dedupe_unchanged _ _ _ _ _ He).
    destruct (decide (unchanged oldSums (sha, fname))) as [Hu|Hu].
    + rewrite filter_cons_False by tauto. apply IH.
    + rewrite filter_cons_True by done. cbn [write_all fst snd].
      destruct (hw sha fname s) as [[err|] s']; [done|]. apply IH.
  - intros sha fname s. unfold dedupe. by destruct (decide _).
Qed.
End hash_generate_more_properties.

Section debian_install_facts.
Import debian.
Context {H C : Type} `{!host.Host H} `{!cache.Blobs C}.


End debian_install_facts.

Section install_properties.
Context {H C : Type} `{!host.Host H} `{!cache.Blobs C}.

End install_properties.

Section alpine_install_facts.
Import alpine.
Context {H C : Type} `{!host.Host H} `{!cache.Blobs C}.

(** The loop over the packages only joins paths and makes links; the
    arguments it returns are the links, one per package, each made to
    the blob of its package. *)
Lemma link_blobs_calls (c : C) tmpDir pkgs : forall (h : H) args res h2 calls,
  link_blobs h c tmpDir pkgs args = (res, (h2, calls)) ->
  Forall (fun call => match call with
                      | host.SecureJoin _ _ _ | host.Symlink _ _ _ => True
                      | _ => False
                      end) calls
  /\ forall args', res = inl args' ->
       exists lns, args' = args ++ lns
         /\ Forall2 (fun sp ln =>
                       exists blob,
                         cache.BlobAbsPath c (filespec.SHA256 sp) = inl blob
                         /\ host.SecureJoin tmpDir (filespec.Basename sp) (inl ln) ∈ calls
                         /\ host.Symlink blob ln None ∈ calls) pkgs lns.
Proof.
  induction pkgs as [|sp pkgs IH]; intros h args res h2 calls Hrun.
  { injection Hrun as <- <- <-. split; [constructor|].
    intros args' [= <-]. exists []. by rewrite app_nil_r. }
  cbn [link_blobs] in Hrun.
  destruct (cache.BlobAbsPath c (filespec.SHA256 sp)) as [blob|err] eqn:Hb.
  2:{ injection Hrun as <- <- <-. split; [constructor|]. by intros args' [=]. }
  destruct (host.securejoin_SecureJoin h tmpDir (filespec.Basename sp)) as [ln|err] eqn:Hj.
  2:{ injection Hrun as <- <- <-. split; [by repeat constructor|]. by intros args' [=]. }
  destruct (host.os_Symlink h blob ln) as [[err|] h1] eqn:Hl.
  { injection Hrun as <- <- <-. split; [by repeat constructor|]. by intros args' [=]. }
  destruct (link_blobs h1 c tmpDir pkgs (args ++ [ln])) as [res' [h2' calls']] eqn:Hrest.
  injection Hrun as <- <- <-.
  destruct (IH _ _ _ _ _ Hrest) as [Hcalls Hargs]. split; [by repeat constructor|].
  intros args' ->. destruct (Hargs _ eq_refl) as (lns & -> & Hall).
  exists (ln :: lns). split; [by rewrite <- app_assoc|].
  constructor.
  - exists blob. split; [done|]. split; [apply list_elem_of_here|].
    apply list_elem_of_further, list_elem_of_here.
  - eapply Forall2_impl; [exact Hall|]. intros sp' ln' (blob' & ? & ? & ?).
    exists blob'. split; [done|]. split; by do 2 apply list_elem_of_further.
Qed.
End alpine_install_facts.

Section alpine_install_properties.
Context {H C : Type} `{!host.Host H} `{!cache.Blobs C}.

(** X25.  The alpine driver installs from links in a temporary
    directory that it always removes.  Once the directory is made, the
    last call of [InstallPackages] is its removal, whatever happened in
    between; and apk is run only with "add", "--no-network" and one
    link per package, in the order of the packages, each joined under
    the directory from the base name and made to the blob of its
    package, and what that run returns is returned. *)
Theorem alpine_InstallPackages_links_and_cleans_up
    (d : alpine.alpine) (h : H) (c : C) pkgs err h' calls :
  alpine.InstallPackages d h c pkgs = (err, (h', calls)) ->
  (forall tmpDir,
     host.MkdirTemp EmptyString "repro-get-apk-*.tmp" (inl tmpDir) ∈ calls ->
     exists calls0 r, calls = calls0 ++ [host.RemoveAll tmpDir r])
  /\ (forall name args r, host.Run name args r ∈ calls ->
        r = err
        /\ host.exec_LookPath h "apk" = inl name
        /\ exists tmpDir lns,
             host.MkdirTemp EmptyString "repro-get-apk-*.tmp" (inl tmpDir) ∈ calls
             /\ args = "add" :: "--no-network" :: lns
             /\ Forall2 (fun sp ln =>
                           exists blob,
                             cache.BlobAbsPath c (filespec.SHA256 sp) = inl blob
                             /\ host.SecureJoin tmpDir (filespec.Basename sp) (inl ln)
                                ∈ calls
                             /\ host.Symlink blob ln None ∈ calls) pkgs lns).
Proof.
  unfold alpine.InstallPackages.
  destruct (length pkgs =? 0).
  { intros [= <- <- <-]. split; intros; exfalso; eapply elem_of_nil; eassumption. }
  destruct (host.exec_LookPath h "apk") as [cmdName|e] eqn:Hlook.
  2:{ intros [= <- <- <-]. split.
      - intros tmpDir Hin. in_cases Hin. discriminate.
      - intros name args r Hin. in_cases Hin. discriminate. }
  destruct (host.os_MkdirTemp h EmptyString "repro-get-apk-*.tmp") as [[tmpDir|e] h1].
  2:{ intros [= <- <- <-]. split.
      - intros tmpDir Hin. in_cases Hin; discriminate.
      - intros name args r Hin. in_cases Hin; discriminate. }
  destruct (alpine.link_blobs h1 c tmpDir pkgs ["add"; "--no-network"])
    as [res [h2 lcalls]] eqn:Hlink.
  destruct (link_blobs_calls _ _ _ _ _ _ _ _ Hlink) as [Hlcalls Hargs].
  assert (Hnot : forall call, call ∈ lcalls ->
            match call with
            | host.SecureJoin _ _ _ | host.Symlink _ _ _ => True
            | _ => False
            end) by by apply Forall_forall.
  destruct res as [args|e].
  - destruct (Hargs _ eq_refl) as (lns & -> & Hall).
    destruct (host.cmd_Run h2 cmdName _) as [rerr h3].
    destruct (host.os_RemoveAll h3 tmpDir) as [cerr h4].
    intros [= <- <- <-]. split.
    + intros tmpDir' Hin. cbn in Hin. in_cases Hin; try discriminate.
      * injection Hin as ->. eexists (_ :: _ :: _ :: _), _. cbn. reflexivity.
      * by apply Hnot in Hin.
    + intros name args r Hin. cbn in Hin. in_cases Hin; try discriminate.
      * by apply Hnot in Hin.
      * injection Hin as -> -> ->. split; [done|]. split; [done|].
        exists tmpDir, lns. split; [apply list_elem_of_further, list_elem_of_here|].
        split; [done|]. eapply Forall2_impl; [exact Hall|].
        intros sp ln (blob & ? & ? & ?). exists blob. split; [done|].
        split; rewrite !elem_of_cons, !elem_of_app; tauto.
  - destruct (host.os_RemoveAll h2 tmpDir) as [cerr h4].
    intros [= <- <- <-]. split.
    + intros tmpDir' Hin. cbn in Hin. in_cases Hin; try discriminate.
      * injection Hin as ->. eexists (_ :: _ :: _ :: _), _. done.
      * by apply Hnot in Hin.
    + intros name args r Hin. cbn in Hin. in_cases Hin; try discriminate.
      by apply Hnot in Hin.
Qed.
End alpine_install_properties.

Section dockerfile_properties.
Context {A F : Type} `{!distro.Templates A F}.

End dockerfile_properties.

Section debian_installed_examples.
Import debian example.

(** The listing of hello and jq is read back into a map with both
    packages under their keys. *)
Lemma installed_reads_back_listing_witness :
  let hello_pkg := {| dpkgutil.Package := "hello"; dpkgutil.Version := "2.10-2";
                      dpkgutil.Architecture := "amd64" |} in
  let jq_pkg := {| dpkgutil.Package := "jq"; dpkgutil.Version := "1.6-2.1";
                   dpkgutil.Architecture := "amd64" |} in
  dpkg_query_line <$> [hello_pkg; jq_pkg]
  = ["hello,2.10-2,amd64"; "jq,1.6-2.1,amd64"]
  /\ exists m,
       installed {| scanned := ["hello,2.10-2,amd64"; "jq,1.6-2.1,amd64"];
                    scan_err := None |} = (m, None)
       /\ m !! "hello:amd64" = Some hello_pkg
       /\ m !! "jq:amd64" = Some jq_pkg
       /\ forall k pkg, m !! k = Some pkg -> pkg ∈ [hello_pkg; jq_pkg].
Proof.
  intros hello_pkg jq_pkg. split; [reflexivity|].
  destruct (installed_reads_back_listing [hello_pkg; jq_pkg])
    as (m & Hrun & Hfrom & _ & Hval).
  { repeat constructor; vm_compute; reflexivity. }
  assert (Hnodup : NoDup (key <$> [hello_pkg; jq_pkg])).
  { apply (bool_decide_unpack _). vm_compute. exact I. }
  exists m. split; [exact Hrun|]. split; [|split].
  - apply (Hval Hnodup hello_pkg). apply list_elem_of_In. left. reflexivity.
  - apply (Hval Hnodup jq_pkg). apply list_elem_of_In. right. left. reflexivity.
  - intros k pkg Hk. exact (proj1 (Hfrom k pkg Hk)).
Defined.

(** On the example host the map holds hello under hello:amd64. *)
Lemma Installed_keys_witness :
  exists m,
    @Installed debian_host = (Some m, None)
    /\ m !! "hello:amd64"
       = Some {| dpkgutil.Package := "hello"; dpkgutil.Version := "2.10-2";
                 dpkgutil.Architecture := "amd64" |}
    /\ forall k pkg, m !! k = Some pkg -> k = key pkg.
Proof.
  eexists. split; [vm_compute; reflexivity|]. split; [vm_compute; reflexivity|].
  apply (@Installed_keys debian_host _ None). vm_compute. reflexivity.
Defined.

(** The line of jq lacks its architecture: hello is kept, the line of
    foo is not read. *)
Lemma installed_stops_at_malformed_line_witness :
  exists m,
    installed {| scanned := ["hello,2.10-2,amd64"]; scan_err := None |} = (m, None)
    /\ m !! "hello:amd64"
       = Some {| dpkgutil.Package := "hello"; dpkgutil.Version := "2.10-2";
                 dpkgutil.Architecture := "amd64" |}
    /\ installed {| scanned := ["hello,2.10-2,amd64"; "jq,1.6-2.1"; "foo,1.0,amd64"];
                    scan_err := None |}
       = (m, Some (fmt_Errorf "unexpected line %q: expected %d fields, got %d"
                     [AString "jq,1.6-2.1"; AInt 3; AInt 2])).
Proof.
  eexists. split; [vm_compute; reflexivity|]. split; [vm_compute; reflexivity|].
  apply (installed_stops_at_malformed_line
           ["hello,2.10-2,amd64"] "jq,1.6-2.1" ["foo,1.0,amd64"] None).
  - vm_compute. reflexivity.
  - vm_compute. lia.
Defined.

End debian_installed_examples.

Section alpine_examples.
Import alpine example.

(** The file name of musl on the CDN. *)
Lemma urlToFilenameWithoutProvider_is_path_suffix_witness :
  urlToFilenameWithoutProvider (alpine_url musl_path)
  = Ret "v3.16/main/x86_64/musl-1.2.3-r0.apk"
  /\ exists pre a seg rest c1,
       gostrings.Split musl_path "/" = pre ++ a :: seg :: rest
       /\ gostrings.HasPrefix a "alpine" = true
       /\ gostrings.index seg 0 = Some "v"%char
       /\ gostrings.index seg 1 = Some c1
       /\ (49 <= version.code c1 <= 57)%Z
       /\ "v3.16/main/x86_64/musl-1.2.3-r0.apk" = gostrings.Join (seg :: rest) "/"
       /\ musl_path
          = gostrings.Join (pre ++ [a]) "/" +:+ "/"
            +:+ "v3.16/main/x86_64/musl-1.2.3-r0.apk".
Proof.
  assert (Hret : urlToFilenameWithoutProvider (alpine_url musl_path)
                 = Ret "v3.16/main/x86_64/musl-1.2.3-r0.apk")
    by (vm_compute; reflexivity).
  split; [exact Hret|].
  exact (urlToFilenameWithoutProvider_is_path_suffix _ _ Hret).
Defined.

(** A URL with an empty segment after "alpine", and one that ends in
    "/alpine/v". *)
Lemma urlToFilenameWithoutProvider_panics_on_short_segment_witness :
  gostrings.Split "/alpine//main" "/" = [EmptyString; "alpine"; EmptyString; "main"]
  /\ urlToFilenameWithoutProvider (alpine_url "/alpine//main") = Panic
  /\ generateHashWithURL list_writer (∅ : gmap string string)
       (alpine_url "/alpine//main") []
     = (Panic, (∅, []))
  /\ urlToFilenameWithoutProvider (alpine_url "/alpine/v") = Panic.
Proof.
  destruct (urlToFilenameWithoutProvider_panics_on_short_segment
              (alpine_url "/alpine//main") [EmptyString] "alpine" EmptyString ["main"])
    as [Hpanic Hgen].
  { vm_compute. reflexivity. }
  { repeat constructor. }
  { vm_compute. reflexivity. }
  { left. reflexivity. }
  split; [vm_compute; reflexivity|]. split; [exact Hpanic|]. split.
  - apply (Hgen _ _ origin_Cache list_writer ∅ []). reflexivity.
  - vm_compute. reflexivity.
Defined.

(** From an empty cache the URL of musl is imported and its entry
    written; from the cache that knows it, nothing is imported. *)
Lemma generateHashWithURL_imports_only_unknown_witness :
  let sha := "00000000000000000000000000000000000000000000000000000000000000aa" in
  let fname := "v3.16/main/x86_64/musl-1.2.3-r0.apk" in
  let warm : gmap string string := {[ musl_path := sha ]} in
  generateHashWithURL list_writer (∅ : gmap string string) (alpine_url musl_path) []
  = (Ret tt, (warm, [(sha, fname)]))
  /\ generateHashWithURL list_writer warm (alpine_url musl_path) []
     = (Ret tt, (warm, [(sha, fname)]))
  /\ (warm = ∅
      \/ (url.Scheme (alpine_url musl_path) = "https"
          /\ (exists f, urlToFilenameWithoutProvider (alpine_url musl_path) = Ret f)
          /\ (exists err,
                cache.SHA256ByOriginURL (∅ : gmap string string) (alpine_url musl_path)
                = inr err)
          /\ warm = (cache.ImportWithURL (∅ : gmap string string)
                       (alpine_url musl_path)).2)).
Proof.
  intros sha fname warm.
  assert (Hcold : generateHashWithURL list_writer (∅ : gmap string string)
                    (alpine_url musl_path) []
                  = (Ret tt, (warm, [(sha, fname)])))
    by (vm_compute; reflexivity).
  split; [exact Hcold|]. split; [vm_compute; reflexivity|].
  exact (proj1 (generateHashWithURL_imports_only_unknown _ _ _ _ _ _ _ Hcold)).
Defined.

(** The URL of musl, padded with spaces, read with the cache that
    knows it. *)
Lemma generateHashWithURLReader_warm_cache_witness :
  let sha := "00000000000000000000000000000000000000000000000000000000000000aa" in
  let fname := "v3.16/main/x86_64/musl-1.2.3-r0.apk" in
  let warm : gmap string string := {[ musl_path := sha ]} in
  @generateHashWithURLReader _ _ origin_Cache (alpine_host_with []) list_writer warm
    {| scanned := ["  " +:+ musl_path +:+ " "]; scan_err := None |} []
  = (Ret tt, (warm, [(sha, fname)])).
Proof.
  intros sha fname warm.
  rewrite (@generateHashWithURLReader_warm_cache _ _ origin_Cache (alpine_host_with [])
             list_writer warm ["  " +:+ musl_path +:+ " "] [(sha, fname)] []).
  - vm_compute. reflexivity.
  - repeat constructor. exists (alpine_url musl_path).
    repeat split; vm_compute; reflexivity.
Defined.

(** musl is asked for on a host that lists it, then on a host without
    packages; and on a host whose listing holds a line that cannot be
    split. *)
Lemma IsPackageVersionInstalled_keeps_listing_witness :
  let listing : gmap string apkutil.APK :=
    {[ "musl" := {| apkutil.Package := "musl"; apkutil.Version := "1.2.3-r0" |} ]} in
  let d1 := {| info := info New; installed_cache := Some listing |} in
  @IsPackageVersionInstalled (alpine_host_with ["musl-1.2.3-r0"]) New musl
  = ((true, None), d1)
  /\ @IsPackageVersionInstalled (alpine_host_with []) d1 musl = ((true, None), d1)
  /\ @IsPackageVersionInstalled (alpine_host_with []) New musl
     = ((false, None), {| info := info New; installed_cache := Some ∅ |})
  /\ @IsPackageVersionInstalled (alpine_host_with ["musl"]) New musl
     = ((false,
         Some (fmt_Errorf_w "failed to detect installed apks: %w" []
                 (fmt_Errorf_w
                    "failed to split %q into the package name and the version string: %w"
                    [AString "musl"]
                    (fmt_Errorf "unexpected apk name %q" [AString "musl"])))), New).
Proof.
  intros listing d1.
  pose (musl_apk := {| apkutil.Package := "musl"; apkutil.Version := "1.2.3-r0" |}).
  destruct (IsPackageVersionInstalled_keeps_listing
              (alpine_host_with ["musl-1.2.3-r0"]) New musl musl_apk
              {| scanned := ["musl-1.2.3-r0"]; scan_err := None |})
    as [Hgood _]; [reflexivity..|].
  destruct (Hgood listing) as [Hfirst Hlater]; [vm_compute; reflexivity|].
  destruct (IsPackageVersionInstalled_keeps_listing
              (alpine_host_with ["musl"]) New musl musl_apk
              {| scanned := ["musl"]; scan_err := None |})
    as [_ Hbad]; [reflexivity..|].
  split; [exact Hfirst|]. split; [exact (Hlater (alpine_host_with []) musl musl_apk eq_refl)|].
  split; [vm_compute; reflexivity|].
  apply Hbad. vm_compute. reflexivity.
Defined.

(** foo and bar, asked for in either order on a host that answers in
    the order of the names it is given: bar comes first. *)
Lemma GenerateHash_ignores_order_of_names_witness :
  let generate names :=
    @debian.GenerateHash _ version.DebVersion_Version _ list_writer
      answering_debian_host (gset string)
      {| distro.FilterByName := names; distro.Cache := None |} [] in
  generate ["foo"; "bar"] = generate ["bar"; "foo"]
  /\ generate ["foo"; "bar"]
     = (None, [debian.entry (answer "bar"); debian.entry (answer "foo")], [])
  /\ @alpine.GenerateHash _ _ origin_Cache (alpine_host_with []) list_writer
       {| distro.FilterByName := ["foo"; "bar"]; distro.Cache := Some ∅ |} []
     = @alpine.GenerateHash _ _ origin_Cache (alpine_host_with []) list_writer
         {| distro.FilterByName := ["bar"; "foo"]; distro.Cache := Some ∅ |} [].
Proof.
  intros generate.
  destruct (GenerateHash_ignores_order_of_names ["foo"; "bar"] ["bar"; "foo"])
    as [Hdebian Halpine]; [apply perm_swap|].
  split; [apply Hdebian|]. split; [vm_compute; reflexivity|apply Halpine].
Defined.
End alpine_examples.

Section install_examples.
Import example.

(** musl is installed from the cache that holds its blob: the link is
    made in the temporary directory, apk runs on it, and the directory
    is removed last. *)
Lemma alpine_InstallPackages_links_and_cleans_up_witness :
  let c : gset string := {[ filespec.SHA256 musl ]} in
  let tmpDir := "/tmp/repro-get-apk-1.tmp" in
  let ln := "/tmp/repro-get-apk-1.tmp/musl-1.2.3-r0.apk" in
  let run := alpine.InstallPackages alpine.New ([] : list (string * string)) c [musl] in
  run.1 = None
  /\ host.MkdirTemp EmptyString "repro-get-apk-*.tmp" (inl tmpDir) ∈ run.2.2
  /\ host.Run "/usr/bin/apk" ["add"; "--no-network"; ln] None ∈ run.2.2
  /\ (exists calls0 r, run.2.2 = calls0 ++ [host.RemoveAll tmpDir r])
  /\ (exists blob,
        cache.BlobAbsPath c (filespec.SHA256 musl) = inl blob
        /\ host.SecureJoin tmpDir "musl-1.2.3-r0.apk" (inl ln) ∈ run.2.2
        /\ host.Symlink blob ln None ∈ run.2.2).
Proof.
  intros c tmpDir ln run.
  assert (Hmk : host.MkdirTemp EmptyString "repro-get-apk-*.tmp" (inl tmpDir) ∈ run.2.2)
    by in_log.
  assert (Hrun : host.Run "/usr/bin/apk" ["add"; "--no-network"; ln] None ∈ run.2.2)
    by in_log.
  destruct (alpine_InstallPackages_links_and_cleans_up alpine.New
              ([] : list (string * string)) c [musl] run.1 run.2.1 run.2.2)
    as [Hlast Hargs].
  { unfold run. rewrite <- !surjective_pairing. reflexivity. }
  split; [vm_compute; reflexivity|]. split; [exact Hmk|]. split; [exact Hrun|].
  split; [exact (Hlast tmpDir Hmk)|].
  eexists. split; [vm_compute; reflexivity|]. split; in_log.
Defined.
End install_examples.

Section more_examples.
Import example.


(** An index with bar and with foo 2.0 without digest: the entry of
    bar is all that is written. *)
Lemma generateHash_writes_entries_in_order_witness :
  let ps := [answer "bar"; foo_2_0_no_digest] in
  filter debian.has_entry ps = [answer "bar"]
  /\ (debian.generateHash (V := version.DebVersion) list_writer (inl ps) []).1
     = write_all list_writer (debian.entry <$> filter debian.has_entry ps) []
  /\ (debian.generateHash (V := version.DebVersion) list_writer (inl ps) []).1
     = (None, [debian.entry (answer "bar")]).
Proof.
  intros ps. split; [vm_compute; reflexivity|]. split; [|vm_compute; reflexivity].
  apply (generateHash_writes_entries_in_order (V := version.DebVersion)).
  apply (bool_decide_unpack _). vm_compute. exact I.
Defined.

(** The entries of foo 1.0 and foo 2.0 through the dedupe writer over
    the prior manifest that holds foo 2.0: foo 1.0 alone is written. *)
Lemma dedupe_filters_entries_witness :
  let entries := [debian.entry foo_1_0; debian.entry foo_2_0] in
  write_all (hash_generate.dedupe old_sums list_writer) entries []
  = write_all list_writer
      (filter (fun e => ~ unchanged old_sums e) entries) []
  /\ write_all (hash_generate.dedupe old_sums list_writer) entries []
     = (None, [debian.entry foo_1_0]).
Proof.
  intros entries. split; [|vm_compute; reflexivity].
  apply (dedupe_filters_entries _ old_sums list_writer).
  repeat constructor; vm_compute; discriminate.
Defined.

End more_examples.
